(** * Focus-guard proctoring: the detection post-processing pipeline

    A shallow embedding of [useObjectDetection] (the detection hook of the
    proctoring front end): the IoU geometry, the device validator, the
    suppressor, the temporal smoother, the attention scorer and the
    orchestrator [detectObjects], with the properties the specification
    states about them.

    Numbers.  The hook computes on JavaScript numbers, which are IEEE 754
    binary64 doubles.  Two embeddings are used.  Where a property is about
    the value that a computation yields ([calculateIoU] itself, the canvas
    size of [preprocessVideo]), the code is embedded on doubles, in module
    [Double], with the operations of the Standard Library's specification
    of binary64 ([SpecFloat]): rounding, signed zeros, infinities and NaN
    are those of the machine.  The pipeline around them (class filter,
    suppressor, smoother, scorer, event log) is embedded on exact rationals
    [Q]: its properties rest on comparisons, on the structure of lists and
    on the state, and its concrete inputs are small decimal numbers on
    which the double computation takes the same branches and rounds to the
    same integers.  Statements about the scores are made for frames of
    positive width and height, where the scorer divides by no zero. *)

From Stdlib Require Import QArith Qminmax Qround Qabs Lqa Lia ZArith Ascii String.
From Stdlib Require SpecFloat.
From stdpp Require Import base list strings gmap sorting.

Local Open Scope Q_scope.

(** ** Numbers *)

(** [a < b] on numbers, as a boolean. *)
Definition Qltb (a b : Q) : bool := negb (Qle_bool b a).

(** [Math.round]: nearest integer, ties towards +infinity. *)
Definition Math_round (x : Q) : Z := Qfloor (x + (1 # 2)).

(** ** Data model *)

(** A bounding box as coco-ssd returns it: the array [x, y, width, height]. *)
Record BBox : Type := mkBBox { bx : Q; by_ : Q; bw : Q; bh : Q }.

(** [bbox[i]] for the four positions of the array. *)
Definition bbox_at (b : BBox) (i : nat) : Q :=
  match i with
  | O => bx b
  | 1%nat => by_ b
  | 2%nat => bw b
  | _ => bh b
  end.

Record Prediction : Type := mkPrediction {
  class : string;
  score : Q;
  bbox : BBox
}.

(** ** Geometry utility: [calculateIoU] *)

Module IoU.

Section Boxes.
Variables bbox1 bbox2 : BBox.

Let x1 := bbox_at bbox1 0.
Let y1 := bbox_at bbox1 1.
Let w1 := bbox_at bbox1 2.
Let h1 := bbox_at bbox1 3.
Let x2 := bbox_at bbox2 0.
Let y2 := bbox_at bbox2 1.
Let w2 := bbox_at bbox2 2.
Let h2 := bbox_at bbox2 3.

Definition x1_max : Q := x1 + w1.
Definition y1_max : Q := y1 + h1.
Definition x2_max : Q := x2 + w2.
Definition y2_max : Q := y2 + h2.

Definition intersect_x1 : Q := Qmax x1 x2.
Definition intersect_y1 : Q := Qmax y1 y2.
Definition intersect_x2 : Q := Qmin x1_max x2_max.
Definition intersect_y2 : Q := Qmin y1_max y2_max.

(** The guard [intersect_x2 <= intersect_x1 || intersect_y2 <= intersect_y1]. *)
Definition empty_intersection : bool :=
  Qle_bool intersect_x2 intersect_x1 || Qle_bool intersect_y2 intersect_y1.

Definition intersect_area : Q :=
  (intersect_x2 - intersect_x1) * (intersect_y2 - intersect_y1).
Definition bbox1_area : Q := w1 * h1.
Definition bbox2_area : Q := w2 * h2.
Definition union_area : Q := bbox1_area + bbox2_area - intersect_area.
End Boxes.

End IoU.

Definition calculateIoU (bbox1 bbox2 : BBox) : Q :=
  if IoU.empty_intersection bbox1 bbox2 then 0
  else IoU.intersect_area bbox1 bbox2 / IoU.union_area bbox1 bbox2.

(** ** [calculateIoU] on doubles

    The same function with the arithmetic of the code: every [+], [-], [*]
    and [/] rounds to the nearest double, ties to even. *)

Module Double.
Import SpecFloat.
Local Open Scope Z_scope.

Definition double : Type := spec_float.
Definition prec : Z := 53.
Definition emax : Z := 1024.

Definition add : double -> double -> double := SFadd prec emax.
Definition sub : double -> double -> double := SFsub prec emax.
Definition mul : double -> double -> double := SFmul prec emax.
Definition div : double -> double -> double := SFdiv prec emax.

(** [a <= b] and [a < b]: false when either side is NaN. *)
Definition leb : double -> double -> bool := SFleb.
Definition ltb : double -> double -> bool := SFltb.

Definition zero : double := S754_zero false.

(** The double nearest to a whole number (the number itself below 2^53). *)
Definition ofZ (z : Z) : double := binary_normalize prec emax z 0 false.
Definition one : double := ofZ 1.


Definition is_nan (d : double) : bool := match d with S754_nan => true | _ => false end.
Definition is_zero (d : double) : bool := match d with S754_zero _ => true | _ => false end.

(** Neither NaN nor an infinity. *)
Definition finite (d : double) : bool :=
  match d with S754_zero _ | S754_finite _ _ _ => true | _ => false end.


(** [Math.max] and [Math.min] of two numbers: NaN when either is NaN, and
    +0 counts as larger than -0. *)
Definition Math_max (a b : double) : double :=
  match SFcompare a b with
  | None => S754_nan
  | Some Lt => b
  | Some Gt => a
  | Some Eq => match a with S754_zero true => b | _ => a end
  end.

Definition Math_min (a b : double) : double :=
  match SFcompare a b with
  | None => S754_nan
  | Some Lt => a
  | Some Gt => b
  | Some Eq => match a with S754_zero false => b | _ => a end
  end.

(** The integer part of a double, towards zero; 0 for NaN and the
    infinities. *)
Definition truncate (d : double) : Z :=
  match d with
  | S754_finite s m e =>
      let magnitude :=
        match e with
        | Zneg p => Zpos m / 2 ^ Zpos p
        | _ => Zpos m * 2 ^ e
        end in
      if s then - magnitude else magnitude
  | _ => 0
  end.

(** The conversion of a number to an [unsigned long] attribute. *)
Definition toUint32 (d : double) : Z := truncate d mod 2 ^ 32.

(** The array [x, y, width, height] of doubles. *)
Record BBox : Type := mkBBox { bx : double; by_ : double; bw : double; bh : double }.

Section Boxes.
Variables bbox1 bbox2 : BBox.

Let x1 := bx bbox1.
Let y1 := by_ bbox1.
Let w1 := bw bbox1.
Let h1 := bh bbox1.
Let x2 := bx bbox2.
Let y2 := by_ bbox2.
Let w2 := bw bbox2.
Let h2 := bh bbox2.

Definition x1_max : double := add x1 w1.
Definition y1_max : double := add y1 h1.
Definition x2_max : double := add x2 w2.
Definition y2_max : double := add y2 h2.

Definition intersect_x1 : double := Math_max x1 x2.
Definition intersect_y1 : double := Math_max y1 y2.
Definition intersect_x2 : double := Math_min x1_max x2_max.
Definition intersect_y2 : double := Math_min y1_max y2_max.

Definition empty_intersection : bool :=
  leb intersect_x2 intersect_x1 || leb intersect_y2 intersect_y1.

Definition intersect_area : double :=
  mul (sub intersect_x2 intersect_x1) (sub intersect_y2 intersect_y1).
Definition bbox1_area : double := mul w1 h1.
Definition bbox2_area : double := mul w2 h2.
Definition union_area : double := sub (add bbox1_area bbox2_area) intersect_area.

Definition calculateIoU : double :=
  if empty_intersection then zero else div intersect_area union_area.
End Boxes.





(** A whole number of pixels up to 2^25, and a box of such numbers. *)
Definition pixel (z : Z) : Prop := 0 <= z <= 2 ^ 25.
Definition pixelBox (x y w h : Z) : BBox := mkBBox (ofZ x) (ofZ y) (ofZ w) (ofZ h).

(** The location of a discarded remainder is exactly zero. *)
Definition is_exact (l : location) : bool :=
  match l with loc_Exact => true | _ => false end.

(** Rounding of the value [z * 2^e] to the nearest double, ties to even. *)
Definition normalize (z e : Z) : double := binary_normalize prec emax z e false.

(** Mantissa and exponent of a double, and its mantissa scaled to the
    exponent [c]: the double [d] has the value [at_exp c d * 2^c]. *)
Definition mant (d : double) : Z := match d with S754_finite _ m _ => Zpos m | _ => 0 end.
Definition expo (d : double) : Z := match d with S754_finite _ _ e => e | _ => 0 end.
Definition at_exp (c : Z) (d : double) : Z := mant d * 2 ^ (expo d - c).

(** A positive normal double with its exponent in a range, and such a
    double or +0. *)
Definition positive_normal (lo hi : Z) (d : double) : Prop :=
  exists m e, d = S754_finite false m e /\ 2 ^ 52 <= Zpos m < 2 ^ 53 /\ lo <= e <= hi.
Definition plain (lo hi : Z) (d : double) : Prop := d = zero \/ positive_normal lo hi d.



End Double.
(** ** Class filter and mobile validator *)

(** [validateMobileDetection].  The source destructures
    [const [width, height] = prediction.bbox], which binds positions 0 and 1
    of the array.  When [height] is 0 the double quotient is an infinity or
    NaN and lies in neither band; the rational quotient is then 0, which
    lies in neither band either. *)
Definition validateMobileDetection (prediction : Prediction) : bool :=
  let width := bbox_at (bbox prediction) 0 in
  let height := bbox_at (bbox prediction) 1 in
  let aspectRatio := width / height in
  let isValidAspectRatio :=
    (Qle_bool (35 # 100) aspectRatio && Qle_bool aspectRatio (75 # 100))
    || (Qle_bool (14 # 10) aspectRatio && Qle_bool aspectRatio (28 # 10)) in
  let minArea := 1200 in
  let area := width * height in
  let hasValidSize := Qle_bool minArea area in
  let hasValidConfidence := Qle_bool (25 # 100) (score prediction) in
  isValidAspectRatio && hasValidSize && hasValidConfidence.

(** The validator as the specification words it, on the box's own width
    and height (positions 2 and 3 of the array). *)
Definition aspect_ratio (p : Prediction) : Q := bw (bbox p) / bh (bbox p).
Definition box_area (p : Prediction) : Q := bw (bbox p) * bh (bbox p).
Definition mobile_plausible_spec (p : Prediction) : Prop :=
  ((35 # 100) <= aspect_ratio p <= (75 # 100) \/ (14 # 10) <= aspect_ratio p <= (28 # 10))
  /\ 1200 <= box_area p
  /\ (25 # 100) <= score p.

(** The [relevantClasses] table of [detectObjects]. *)
Definition relevantClasses : list (string * Q) :=
  [ ("cell phone", 25 # 100); ("person", 5 # 10); ("laptop", 6 # 10);
    ("tablet", 5 # 10); ("book", 3 # 10); ("bottle", 4 # 10); ("cup", 4 # 10);
    ("mouse", 5 # 10); ("keyboard", 6 # 10); ("remote", 4 # 10); ("tv", 6 # 10);
    ("monitor", 6 # 10) ]%string.

Fixpoint assoc (k : string) (l : list (string * Q)) : option Q :=
  match l with
  | [] => None
  | (k', v) :: l' => if String.eqb k k' then Some v else assoc k l'
  end.

(** Property names every object literal inherits: indexing [relevantClasses]
    with one of them yields a function or object, which is truthy and compares
    as NaN, so [pred.score >= threshold] is false. *)
Definition Object_prototype_keys : list string :=
  [ "constructor"; "toString"; "toLocaleString"; "valueOf"; "hasOwnProperty";
    "isPrototypeOf"; "propertyIsEnumerable"; "__proto__"; "__defineGetter__";
    "__defineSetter__"; "__lookupGetter__"; "__lookupSetter__" ]%string.

(** [relevantClasses[pred.class] || 0.5], then [pred.score >= threshold]. *)
Definition meetsThreshold (pred : Prediction) : bool :=
  if existsb (String.eqb (class pred)) Object_prototype_keys then false
  else
    let threshold := default (5 # 10) (assoc (class pred) relevantClasses) in
    Qle_bool threshold (score pred).

(** The callback of [predictions.filter] in [detectObjects]. *)
Definition filterPrediction (pred : Prediction) : bool :=
  if String.eqb (class pred) "cell phone"
  then meetsThreshold pred && validateMobileDetection pred
  else meetsThreshold pred.

(** ** Suppressor: [applyNMS] *)

(** [[...preds].sort((a, b) => b.score - a.score)]: [Array.prototype.sort]
    is stable, so the result is the one descending order that keeps ties in
    their original order; insertion from the right computes it. *)
Fixpoint insertByScore (p : Prediction) (l : list Prediction) : list Prediction :=
  match l with
  | [] => [p]
  | q :: l' => if Qltb (score p) (score q) then q :: insertByScore p l' else p :: q :: l'
  end.

Definition sortByScore (preds : list Prediction) : list Prediction :=
  foldr insertByScore [] preds.

(** The test of the inner loop: [iou > threshold && sorted[i].class === sorted[j].class]. *)
Definition suppresses (threshold : Q) (pi pj : Prediction) : bool :=
  Qltb threshold (calculateIoU (bbox pi) (bbox pj)) && String.eqb (class pi) (class pj).

(** One iteration of the inner loop [for (j = i + 1; ...)]. *)
Definition nmsInner (threshold : Q) (sorted : list Prediction) (i : nat)
    (suppressed : gset nat) (j : nat) : gset nat :=
  if decide (j ∈ suppressed) then suppressed
  else
    match sorted !! i, sorted !! j with
    | Some pi, Some pj =>
        if suppresses threshold pi pj then {[ j ]} ∪ suppressed else suppressed
    | _, _ => suppressed
    end.

(** One iteration of the outer loop [for (i = 0; ...)], on [(keep, suppressed)]. *)
Definition nmsOuter (threshold : Q) (sorted : list Prediction)
    (st : list Prediction * gset nat) (i : nat) : list Prediction * gset nat :=
  let '(keep, suppressed) := st in
  if decide (i ∈ suppressed) then st
  else
    match sorted !! i with
    | Some pi =>
        (keep ++ [pi],
         foldl (nmsInner threshold sorted i) suppressed
               (seq (S i) (length sorted - S i)))
    | None => st
    end.

Definition processPredictions (preds : list Prediction) (threshold : Q) : list Prediction :=
  let sorted := sortByScore preds in
  fst (foldl (nmsOuter threshold sorted) ([], ∅) (seq 0 (length sorted))).

Definition isCellPhone (p : Prediction) : bool := String.eqb (class p) "cell phone".

Definition applyNMS (predictions : list Prediction) (iouThreshold : Q) : list Prediction :=
  if (length predictions <=? 1)%nat then predictions
  else
    let mobilePreds := List.filter isCellPhone predictions in
    let otherPreds := List.filter (fun p => negb (isCellPhone p)) predictions in
    let filteredMobile := processPredictions mobilePreds (2 # 10) in
    let filteredOther := processPredictions otherPreds iouThreshold in
    filteredMobile ++ filteredOther.

(** The same greedy selection written by recursion on the sorted list: a
    prediction is kept unless one already kept suppresses it.  It is proved
    equal to the loops of [processPredictions] below and used to reason
    about them. *)
Fixpoint greedy (threshold : Q) (kept : list Prediction) (l : list Prediction)
    : list Prediction :=
  match l with
  | [] => []
  | q :: l' =>
      if existsb (fun p => suppresses threshold p q) kept
      then greedy threshold kept l'
      else q :: greedy threshold (kept ++ [q]) l'
  end.

(** ** Hook state *)

Record HistoryEntry : Type := mkHistoryEntry {
  h_timestamp : Z;
  predictions : list Prediction
}.

Record MobileEntry : Type := mkMobileEntry {
  m_timestamp : Z;
  m_bbox : BBox;
  m_confidence : Q
}.

Inductive DetectionType : Type :=
  | mobile | person | focus_lost | multiple_people | unknown_object.

(** A logged event.  [id] stands for the string [`${time}-${index}`] and
    [description] for the two values interpolated into its text: the class
    and [score * 100]. *)
Record Detection : Type := mkDetection {
  id : Z * nat;
  d_timestamp : Z;
  type : DetectionType;
  confidence : Q;
  d_bbox : BBox;
  description : string * Q
}.

Record FocusMetrics : Type := mkFocusMetrics {
  focusScore : Z;
  eyeContactScore : Z;
  headPoseScore : Z;
  overallAttention : Z
}.

(** The refs and React state owned by one [useObjectDetection] instance.
    [modelRef] is [true] when [modelRef.current] holds a model;
    [liveCanvases] counts the canvases made by [document.createElement]
    on which [remove()] has not been called. *)
Record Hook : Type := mkHook {
  modelRef : bool;
  detections : list Detection;
  focusMetrics : FocusMetrics;
  detectionHistoryRef : list HistoryEntry;
  lastDetectionTimeRef : Z;
  mobileDetectionHistory : list MobileEntry;
  isDetecting : bool;
  liveCanvases : nat
}.

Definition initialHook : Hook :=
  {| modelRef := false;
     detections := [];
     focusMetrics := mkFocusMetrics 100 100 100 100;
     detectionHistoryRef := [];
     lastDetectionTimeRef := 0;
     mobileDetectionHistory := [];
     isDetecting := false;
     liveCanvases := 0 |}.

(** ** Temporal smoother: [applyTemporalSmoothing] *)

Definition historyWindow : Z := 600.

(** The callback of [.filter] that builds [similarDetections]. *)
Definition similarTo (prediction pred : Prediction) : bool :=
  if negb (String.eqb (class pred) (class prediction)) then false
  else
    let iouThreshold := if String.eqb (class pred) "cell phone" then 4 # 10 else 5 # 10 in
    Qltb iouThreshold (calculateIoU (bbox pred) (bbox prediction)).

Definition similarDetections (history : list HistoryEntry) (prediction : Prediction)
    : list Prediction :=
  List.filter (similarTo prediction) (flat_map predictions history).

(** [l.reduce((sum, pred) => sum + f(pred), 0) / l.length]. *)
Definition average (f : Prediction -> Q) (l : list Prediction) : Q :=
  foldl (fun sum pred => sum + f pred) 0 l / inject_Z (Z.of_nat (length l)).

(** The fused prediction pushed when at least two detections match. *)
Definition fuse (prediction : Prediction) (similar : list Prediction) : Prediction :=
  let avgScore := average score similar in
  let avgBbox :=
    mkBBox (average (fun pred => bbox_at (bbox pred) 0) similar)
           (average (fun pred => bbox_at (bbox pred) 1) similar)
           (average (fun pred => bbox_at (bbox pred) 2) similar)
           (average (fun pred => bbox_at (bbox pred) 3) similar) in
  let confidenceBoost :=
    if String.eqb (class prediction) "cell phone" then 115 # 100 else 11 # 10 in
  {| class := class prediction;
     score := Qmin 1 (avgScore * confidenceBoost);
     bbox := avgBbox |}.

(** The body of the loop [for (const prediction of currentPredictions)]. *)
Definition smoothPrediction (history : list HistoryEntry) (prediction : Prediction)
    : Prediction :=
  let similar := similarDetections history prediction in
  if (2 <=? length similar)%nat then fuse prediction similar else prediction.

Definition applyTemporalSmoothing (st : Hook) (now : Z)
    (currentPredictions : list Prediction) : Hook * list Prediction :=
  let pushed := detectionHistoryRef st ++ [mkHistoryEntry now currentPredictions] in
  let history :=
    List.filter (fun entry => (now - h_timestamp entry <=? historyWindow)%Z) pushed in
  let mobilePreds := List.filter isCellPhone currentPredictions in
  let mobilePushed :=
    mobileDetectionHistory st
    ++ List.map (fun pred => mkMobileEntry now (bbox pred) (score pred)) mobilePreds in
  let mobileHistory :=
    List.filter (fun entry => (now - m_timestamp entry <=? historyWindow)%Z) mobilePushed in
  let st' :=
    {| modelRef := modelRef st;
       detections := detections st;
       focusMetrics := focusMetrics st;
       detectionHistoryRef := history;
       lastDetectionTimeRef := lastDetectionTimeRef st;
       mobileDetectionHistory := mobileHistory;
       isDetecting := isDetecting st;
       liveCanvases := liveCanvases st |} in
  if (length history <? 2)%nat then (st', currentPredictions)
  else (st', List.map (smoothPrediction history) currentPredictions).

(** ** Event mapping: [getDetectionType] *)

(** [toLowerCase] on the ASCII letters that class labels are made of. *)
Definition ascii_toLowerCase (c : ascii) : ascii :=
  let n := nat_of_ascii c in
  if ((65 <=? n) && (n <=? 90))%nat then ascii_of_nat (n + 32) else c.

Fixpoint toLowerCase (s : string) : string :=
  match s with
  | EmptyString => EmptyString
  | String c s' => String (ascii_toLowerCase c) (toLowerCase s')
  end.

(** [s.includes(sub)]. *)
Fixpoint includes (s sub : string) : bool :=
  String.prefix sub s
  || match s with
     | EmptyString => false
     | String _ s' => includes s' sub
     end.

Definition getDetectionType (className : string) : option DetectionType :=
  let lowerClass := toLowerCase className in
  if includes lowerClass "phone" || includes lowerClass "cell" then Some mobile
  else if String.eqb lowerClass "person" then Some person
  else if includes lowerClass "laptop" || includes lowerClass "tablet"
          || includes lowerClass "keyboard" || includes lowerClass "mouse"
          || includes lowerClass "monitor" || includes lowerClass "tv"
  then Some unknown_object
  else Some unknown_object.

(** The [forEach] that builds [newDetections]. *)
Definition makeDetections (currentTime : Z) (smoothedPredictions : list Prediction)
    : list Detection :=
  concat (imap (fun index prediction =>
    match getDetectionType (class prediction) with
    | Some detectionType =>
        [ {| id := (currentTime, index);
             d_timestamp := currentTime;
             type := detectionType;
             confidence := score prediction;
             d_bbox := bbox prediction;
             description := (class prediction, score prediction * 100) |} ]
    | None => []
    end) smoothedPredictions).

(** [[...prev, ...newDetections].slice(-50)]. *)
Definition slice_last {A : Type} (n : nat) (l : list A) : list A :=
  drop (length l - n) l.

Definition pushDetections (prev newDetections : list Detection) : list Detection :=
  let updated := prev ++ newDetections in
  slice_last 50 updated.

(** ** Attention scorer (the metrics block of [detectObjects]) *)

Definition hasClass (names : list string) (p : Prediction) : bool :=
  existsb (String.eqb (class p)) names.

Definition personDetections (smoothed : list Prediction) : list Prediction :=
  List.filter (fun p => String.eqb (class p) "person") smoothed.
Definition mobileDevices (smoothed : list Prediction) : list Prediction :=
  List.filter (fun p => String.eqb (class p) "cell phone") smoothed.
Definition computerDevices (smoothed : list Prediction) : list Prediction :=
  List.filter (hasClass ["laptop"; "tablet"; "keyboard"; "mouse"; "monitor"]%string) smoothed.
Definition distractingObjects (smoothed : list Prediction) : list Prediction :=
  List.filter (hasClass ["bottle"; "cup"; "book"; "remote"; "tv"]%string) smoothed.

(** [focusScore] before [Math.round]. *)
Definition focusScore_raw (smoothed : list Prediction) : Q :=
  let focusScore := 80 in
  let focusScore := focusScore -
    foldl (fun penalty device =>
             let basePenalty := 35 in
             let confidenceMultiplier := Qmin (15 # 10) (score device * (15 # 10)) in
             penalty + basePenalty * confidenceMultiplier) 0 (mobileDevices smoothed) in
  let focusScore := focusScore -
    foldl (fun penalty device => penalty + score device * 15) 0 (computerDevices smoothed) in
  let focusScore := focusScore -
    foldl (fun penalty obj => penalty + score obj * 8) 0 (distractingObjects smoothed) in
  let focusScore :=
    match personDetections smoothed with
    | [p] => if Qltb (7 # 10) (score p) then focusScore + 5 else focusScore
    | _ => focusScore
    end in
  Qmax 0 (Qmin 100 focusScore).

(** [eyeContactScore] before [Math.round]; [inputWidth] is [inputElement.width].
    With a width of 0 the double quotient is infinite or NaN: the
    properties below are stated for frames of positive width and height. *)
Definition eyeContactScore_raw (smoothed : list Prediction) (inputWidth : Q) : Q :=
  match personDetections smoothed with
  | [] => 20
  | [person1] =>
      let centeredness :=
        1 - Qabs ((bbox_at (bbox person1) 0 + bbox_at (bbox person1) 2 / 2) / inputWidth
                  - (5 # 10)) in
      let eyeContactScore := Qmin 100 (60 + score person1 * 25 + centeredness * 15) in
      if (0 <? length (mobileDevices smoothed))%nat
      then eyeContactScore - 20 else eyeContactScore
  | persons => Qmax 30 (100 - (inject_Z (Z.of_nat (length persons)) - 1) * 25)
  end.

(** [headPoseScore] before [Math.round]. *)
Definition headPoseScore_raw (smoothed : list Prediction) (inputWidth inputHeight : Q) : Q :=
  match personDetections smoothed with
  | [person1] =>
      let faceSize :=
        (bbox_at (bbox person1) 2 * bbox_at (bbox person1) 3) / (inputWidth * inputHeight) in
      let sizeScore := Qmin 40 (faceSize * 1000) in
      let headPoseScore := Qmin 100 (50 + score person1 * 30 + sizeScore) in
      if (0 <? length (mobileDevices smoothed))%nat
      then headPoseScore - 15 else headPoseScore
  | _ => 60
  end.

Definition newFocusMetrics (smoothed : list Prediction) (inputWidth inputHeight : Q)
    : FocusMetrics :=
  let focusScore := focusScore_raw smoothed in
  let eyeContactScore := eyeContactScore_raw smoothed inputWidth in
  let headPoseScore := headPoseScore_raw smoothed inputWidth inputHeight in
  {| focusScore := Math_round focusScore;
     eyeContactScore := Math_round eyeContactScore;
     headPoseScore := Math_round headPoseScore;
     overallAttention := Math_round ((focusScore + eyeContactScore + headPoseScore) / 3) |}.

(** ** Frame preprocessor: [preprocessVideo] *)

(** The attributes of the video element that the hook reads; [elem_width]
    and [elem_height] are its [width] and [height] content attributes. *)
Record VideoElement : Type := mkVideo {
  readyState : Z;
  videoWidth : Z;
  videoHeight : Z;
  elem_width : Z;
  elem_height : Z
}.

Record Canvas : Type := mkCanvas { canvas_width : Z; canvas_height : Z }.

(** The size given to the canvas.  [videoWidth] and [videoHeight] are
    [unsigned long] attributes, so they are whole numbers and not negative;
    [aspectRatio] is their quotient as a double (an infinity or NaN when
    [videoHeight] is 0).  [canvas.width] and [canvas.height] are
    [unsigned long] attributes as well: the double assigned to the second
    of them is truncated, and the first is read back as the whole number
    it holds. *)
Definition canvasSize (videoElement : VideoElement) : Canvas :=
  let maxSize := 640%Z in
  let aspectRatio :=
    Double.div (Double.ofZ (videoWidth videoElement))
               (Double.ofZ (videoHeight videoElement)) in
  if Double.ltb Double.one aspectRatio then
    let width := Z.min maxSize (videoWidth videoElement) in
    mkCanvas width (Double.toUint32 (Double.div (Double.ofZ width) aspectRatio))
  else
    let height := Z.min maxSize (videoHeight videoElement) in
    mkCanvas (Double.toUint32 (Double.mul (Double.ofZ height) aspectRatio)) height.

Inductive Preprocessed : Type :=
  | NotReady                    (* [readyState < 2]: null, no canvas made *)
  | NoContext                   (* canvas made, [getContext] gave null: null *)
  | PixelError                  (* canvas made, [getImageData] threw *)
  | Processed (canvas : Canvas) (* the canvas is returned *).

(** [ctx2d] tells whether [canvas.getContext("2d")] yields a context.
    [getImageData] throws on an empty rectangle, which is the case when
    the canvas has a zero side.  The contrast and brightness loop only
    changes pixels, which the opaque detector alone reads. *)
Definition preprocessVideo (ctx2d : bool) (videoElement : VideoElement) : Preprocessed :=
  if (readyState videoElement <? 2)%Z then NotReady
  else if negb ctx2d then NoContext
  else
    let canvas := canvasSize videoElement in
    if (canvas_width canvas =? 0)%Z || (canvas_height canvas =? 0)%Z then PixelError
    else Processed canvas.

(** ** Orchestrator: [detectObjects] *)

Inductive InputElement : Type :=
  | InputCanvas (canvas : Canvas)
  | InputVideo (videoElement : VideoElement).

Definition input_width (e : InputElement) : Q :=
  match e with
  | InputCanvas c => inject_Z (canvas_width c)
  | InputVideo v => inject_Z (elem_width v)
  end.

Definition input_height (e : InputElement) : Q :=
  match e with
  | InputCanvas c => inject_Z (canvas_height c)
  | InputVideo v => inject_Z (elem_height v)
  end.

Record PipelineResult : Type := mkResult {
  r_predictions : list Prediction;
  newDetections : list Detection;
  mobileCount : nat;
  personCount : nat;
  totalDevices : nat
}.

Definition set_isDetecting (b : bool) (st : Hook) : Hook :=
  {| modelRef := modelRef st;
     detections := detections st;
     focusMetrics := focusMetrics st;
     detectionHistoryRef := detectionHistoryRef st;
     lastDetectionTimeRef := lastDetectionTimeRef st;
     mobileDetectionHistory := mobileDetectionHistory st;
     isDetecting := b;
     liveCanvases := liveCanvases st |}.

Definition set_lastDetectionTime (t : Z) (st : Hook) : Hook :=
  {| modelRef := modelRef st;
     detections := detections st;
     focusMetrics := focusMetrics st;
     detectionHistoryRef := detectionHistoryRef st;
     lastDetectionTimeRef := t;
     mobileDetectionHistory := mobileDetectionHistory st;
     isDetecting := isDetecting st;
     liveCanvases := liveCanvases st |}.

Definition set_liveCanvases (n : nat) (st : Hook) : Hook :=
  {| modelRef := modelRef st;
     detections := detections st;
     focusMetrics := focusMetrics st;
     detectionHistoryRef := detectionHistoryRef st;
     lastDetectionTimeRef := lastDetectionTimeRef st;
     mobileDetectionHistory := mobileDetectionHistory st;
     isDetecting := isDetecting st;
     liveCanvases := n |}.

Definition set_metrics_and_log (m : FocusMetrics) (log : list Detection) (st : Hook) : Hook :=
  {| modelRef := modelRef st;
     detections := log;
     focusMetrics := m;
     detectionHistoryRef := detectionHistoryRef st;
     lastDetectionTimeRef := lastDetectionTimeRef st;
     mobileDetectionHistory := mobileDetectionHistory st;
     isDetecting := isDetecting st;
     liveCanvases := liveCanvases st |}.

(** How the synchronous part of an invocation ends. *)
Inductive Start : Type :=
  | Rejected
      (* null from a guard before the [try] block *)
  | Completed
      (* null from inside the [try] block, before the detector is called *)
  | Awaiting (processedCanvas : option Canvas) (inputElement : InputElement)
      (* suspended at [await modelRef.current.detect(inputElement)] *).

(** [detectObjects] up to the [await]: the guards, the throttle, the
    preprocessing and the decodability test.  [videoElement = None] is a
    null argument, [now] is the value of [Date.now()]. *)
Definition detectObjects_start (st : Hook) (videoElement : option VideoElement)
    (now : Z) (ctx2d : bool) : Start * Hook :=
  match videoElement with
  | None => (Rejected, st)
  | Some video =>
      if negb (modelRef st) || (readyState video <? 2)%Z || isDetecting st
      then (Rejected, st)
      else if (now - lastDetectionTimeRef st <? 100)%Z then (Rejected, st)
      else
        let st := set_lastDetectionTime now st in
        let st := set_isDetecting true st in
        match preprocessVideo ctx2d video with
        | PixelError =>
            (* thrown inside [try]: [catch] returns null, [finally] runs *)
            let st := set_liveCanvases (S (liveCanvases st)) st in
            (Completed, set_isDetecting false st)
        | Processed canvas =>
            let st := set_liveCanvases (S (liveCanvases st)) st in
            (Awaiting (Some canvas) (InputCanvas canvas), st)
        | pre =>
            let st :=
              match pre with
              | NoContext => set_liveCanvases (S (liveCanvases st)) st
              | _ => st
              end in
            if (videoWidth video =? 0)%Z || (videoHeight video =? 0)%Z
            then (Completed, set_isDetecting false st)
            else (Awaiting None (InputVideo video), st)
        end
  end.

(** [detectObjects] from the [await] on.  [detected] is what the detector
    call settled to, [None] when it threw; [smoothNow] is the [Date.now()]
    of [applyTemporalSmoothing] and [currentTime] the [new Date()]. *)
Definition detectObjects_resume (st : Hook) (processedCanvas : option Canvas)
    (inputElement : InputElement) (detected : option (list Prediction))
    (smoothNow currentTime : Z) : option PipelineResult * Hook :=
  match detected with
  | None => (None, set_isDetecting false st)
  | Some raw =>
      let filteredPredictions := List.filter filterPrediction raw in
      let nmsFiltered := applyNMS filteredPredictions (3 # 10) in
      let '(st, smoothedPredictions) := applyTemporalSmoothing st smoothNow nmsFiltered in
      let newDetections := makeDetections currentTime smoothedPredictions in
      let metrics :=
        newFocusMetrics smoothedPredictions (input_width inputElement)
                        (input_height inputElement) in
      let log :=
        if (0 <? length newDetections)%nat
        then pushDetections (detections st) newDetections
        else detections st in
      let st := set_metrics_and_log metrics log st in
      let st :=
        match processedCanvas with
        | Some _ => set_liveCanvases (Nat.pred (liveCanvases st)) st
        | None => st
        end in
      (Some {| r_predictions := smoothedPredictions;
               newDetections := newDetections;
               mobileCount := length (mobileDevices smoothedPredictions);
               personCount := length (personDetections smoothedPredictions);
               totalDevices := length (mobileDevices smoothedPredictions)
                               + length (computerDevices smoothedPredictions) |},
       set_isDetecting false st)
  end.

(** What one pass receives from its surroundings. *)
Record PassInput : Type := mkPassInput {
  in_video : option VideoElement;
  in_now : Z;
  in_ctx2d : bool;
  in_detected : option (list Prediction);
  in_smoothNow : Z;
  in_currentTime : Z
}.

(** One whole invocation, run to the end before the next one starts. *)
Definition detectObjects (st : Hook) (i : PassInput) : option PipelineResult * Hook :=
  match detectObjects_start st (in_video i) (in_now i) (in_ctx2d i) with
  | (Rejected, st') => (None, st')
  | (Completed, st') => (None, st')
  | (Awaiting processedCanvas inputElement, st') =>
      detectObjects_resume st' processedCanvas inputElement (in_detected i)
                           (in_smoothNow i) (in_currentTime i)
  end.

(** A sequence of invocations, with the results in order. *)
Fixpoint runPasses (st : Hook) (inputs : list PassInput)
    : list (option PipelineResult) * Hook :=
  match inputs with
  | [] => ([], st)
  | i :: inputs' =>
      let '(r, st') := detectObjects st i in
      let '(rs, st'') := runPasses st' inputs' in
      (r :: rs, st'')
  end.

(** What the set [suppressed] records once the outer loop reaches [i]: the
    indices from [i] on that a kept prediction suppresses. *)
Definition loop_invariant (threshold : Q) (sorted : list Prediction) (i : nat)
    (keep : list Prediction) (suppressed : gset nat) : Prop :=
  forall j pj, (i <= j)%nat -> sorted !! j = Some pj ->
    (j ∈ suppressed <-> existsb (fun p => suppresses threshold p pj) keep = true).

(** A list in descending order of confidence. *)
Definition descending (l : list Prediction) : Prop :=
  StronglySorted (fun p q => score q <= score p) l.

(** The match threshold of the smoother as the specification gives it:
    0.4 for the device class, 0.5 for every other class. *)
Definition matchThreshold (c : string) : Q :=
  if String.eqb c "cell phone" then 4 # 10 else 5 # 10.

(** [pred] may be fused into [prediction]: same class, IoU above the
    threshold of that class. *)
Definition matches (prediction pred : Prediction) : Prop :=
  class pred = class prediction
  /\ matchThreshold (class prediction) < calculateIoU (bbox pred) (bbox prediction).

(** A box inside the processed frame of width [W] and height [H]. *)
Definition inFrame (W H : Q) (b : BBox) : Prop :=
  0 <= bx b /\ 0 <= by_ b /\ 0 <= bw b /\ 0 <= bh b
  /\ bx b + bw b <= W /\ by_ b + bh b <= H.

(** A prediction with its confidence in [0, 1] and its box in the frame. *)
Definition wellFormed (W H : Q) (p : Prediction) : Prop :=
  0 <= score p <= 1 /\ inFrame W H (bbox p).

(** A score that is published: between 0 and 100. *)
Definition percent (z : Z) : Prop := (0 <= z <= 100)%Z.

(** The events that a sequence of results appended, oldest first. *)
Definition eventsOf (rs : list (option PipelineResult)) : list Detection :=
  flat_map (fun r => match r with Some res => newDetections res | None => [] end) rs.

(** ** Concrete inputs *)


(** Four books: a wide one, a strip in its middle and its two sides. *)
Definition bookStrip : Prediction := mkPrediction "book" (9 # 10) (mkBBox 4 0 2 10).
Definition bookWide : Prediction := mkPrediction "book" (8 # 10) (mkBBox 0 0 10 10).
Definition bookLeft : Prediction := mkPrediction "book" (7 # 10) (mkBBox 0 0 4 10).
Definition bookRight : Prediction := mkPrediction "book" (6 # 10) (mkBBox 6 0 4 10).
Definition fourBooks : list Prediction := [bookStrip; bookWide; bookLeft; bookRight].

(** A square device box at (50, 100) and a portrait one at (100, 100). *)
Definition squarePhone : Prediction :=
  mkPrediction "cell phone" (9 # 10) (mkBBox 50 100 60 60).
Definition portraitPhone : Prediction :=
  mkPrediction "cell phone" (9 # 10) (mkBBox 100 100 50 100).

(** A hook whose model has loaded, and a playing 640 x 480 video. *)
Definition loadedHook : Hook :=
  {| modelRef := true;
     detections := [];
     focusMetrics := mkFocusMetrics 100 100 100 100;
     detectionHistoryRef := [];
     lastDetectionTimeRef := 0;
     mobileDetectionHistory := [];
     isDetecting := false;
     liveCanvases := 0 |}.

Definition readyVideo : VideoElement := mkVideo 4 640 480 0 0.

(** One person, horizontally centred, of confidence 0.5. *)
Definition centredPerson : Prediction :=
  mkPrediction "person" (5 # 10) (mkBBox 290 100 60 60).

Definition personPass : PassInput :=
  mkPassInput (Some readyVideo) 1000 true (Some [centredPerson]) 1005 1010.

(** A pass whose detector call throws. *)
Definition throwingPass : PassInput :=
  mkPassInput (Some readyVideo) 1000 true None 1005 1010.

(** Twenty persons side by side, and three passes that each see them, more
    than the history window apart. *)
Definition twentyPersons : list Prediction :=
  List.map (fun k => mkPrediction "person" (9 # 10)
                       (mkBBox (inject_Z (Z.of_nat k) * 30) 0 20 20))
           (seq 0 20).

Definition crowdPasses : list PassInput :=
  [ mkPassInput (Some readyVideo) 1000 true (Some twentyPersons) 1005 1010;
    mkPassInput (Some readyVideo) 2000 true (Some twentyPersons) 2005 2010;
    mkPassInput (Some readyVideo) 3000 true (Some twentyPersons) 3005 3010 ].

(** Two device boxes of IoU 0.5. *)
Definition phoneHigh : Prediction :=
  mkPrediction "cell phone" (9 # 10) (mkBBox 0 0 30 10).
Definition phoneLow : Prediction :=
  mkPrediction "cell phone" (6 # 10) (mkBBox 10 0 30 10).

(** A device of confidence 0.8 that the validator lets through, seen by
    three passes 200 ms apart. *)
Definition steadyPhone : Prediction :=
  mkPrediction "cell phone" (8 # 10) (mkBBox 60 120 40 80).

Definition steadyPasses : list PassInput :=
  [ mkPassInput (Some readyVideo) 1000 true (Some [steadyPhone]) 1005 1010;
    mkPassInput (Some readyVideo) 1200 true (Some [steadyPhone]) 1205 1210;
    mkPassInput (Some readyVideo) 1400 true (Some [steadyPhone]) 1405 1410 ].

(** One centred person of confidence 0.9. *)
Definition confidentPerson : Prediction :=
  mkPrediction "person" (9 # 10) (mkBBox 290 100 60 60).

(** ** The rest of the hook and its consumers *)

(** The threshold that [applyNMS] applies to a prediction's class: 0.2 for
    the device class, the caller's [iouThreshold] for every other class. *)
Definition nmsThreshold (iouThreshold : Q) (p : Prediction) : Q :=
  if isCellPhone p then 2 # 10 else iouThreshold.

(** Two predictions that may stand together in the suppressor's output. *)
Definition compatible (iouThreshold : Q) (a b : Prediction) : Prop :=
  class a = class b ->
  calculateIoU (bbox a) (bbox b) <= nmsThreshold iouThreshold a.

(** [clearDetections]: the log, both histories and the metrics are reset;
    the model, the throttle time and the in-flight flag are not touched. *)
Definition clearDetections (st : Hook) : Hook :=
  {| modelRef := modelRef st;
     detections := [];
     focusMetrics := mkFocusMetrics 100 100 100 100;
     detectionHistoryRef := [];
     lastDetectionTimeRef := lastDetectionTimeRef st;
     mobileDetectionHistory := [];
     isDetecting := isDetecting st;
     liveCanvases := liveCanvases st |}.

(** The event types that [getDetectionType] can yield. *)
Definition hookType (t : DetectionType) : Prop :=
  t = mobile \/ t = person \/ t = unknown_object.

#[global] Instance DetectionType_eq_dec : EqDecision DetectionType.
Proof. solve_decision. Defined.

(** The session statistics of the log panel ([useMemo] of [DetectionLogs]). *)
Module Logs.

Record DetectionStats : Type := mkStats {
  totalDetections : nat;
  mobileDetections : nat;
  personDetections : nat;
  focusViolations : nat;
  sessionDuration : Z;
  averageFocusScore : Z
}.

(** [focusMetrics] is [None] for an undefined prop; [x || 100] takes 100
    for a score of 0 as well. *)
Definition stats (detections : list Detection) (sessionStartTime now : Z)
    (focusMetrics : option FocusMetrics) : DetectionStats :=
  let sessionDuration := inject_Z (now - sessionStartTime) / 1000 in
  let mobileDetections :=
    length (List.filter (fun d => bool_decide (type d = mobile)
                                  || bool_decide (type d = unknown_object)) detections) in
  let personDetections :=
    length (List.filter (fun d => bool_decide (type d = person)) detections) in
  let focusViolations :=
    length (List.filter (fun d =>
              (bool_decide (type d = mobile) && Qltb (7 # 10) (confidence d))
              || (bool_decide (type d = unknown_object) && Qltb (8 # 10) (confidence d)))
            detections) in
  let avgFocusScore :=
    match focusMetrics with
    | Some m => if (focusScore m =? 0)%Z then 100%Z else focusScore m
    | None => 100%Z
    end in
  {| totalDetections := length detections;
     mobileDetections := mobileDetections;
     personDetections := personDetections;
     focusViolations := focusViolations;
     sessionDuration := Math_round sessionDuration;
     averageFocusScore := avgFocusScore |}.

End Logs.

(** Two devices far apart that the validator lets through, and a laptop. *)
Definition phoneNear : Prediction :=
  mkPrediction "cell phone" (9 # 10) (mkBBox 60 120 40 80).
Definition phoneFar : Prediction :=
  mkPrediction "cell phone" (85 # 100) (mkBBox 200 400 40 80).
Definition deskLaptop : Prediction :=
  mkPrediction "laptop" (7 # 10) (mkBBox 300 200 200 150).

(** A video without picture, one of 280 by 240 pixels and one of 1 by
    49. *)
Definition audioOnly : VideoElement := mkVideo 4 0 0 0 0.
Definition smallVideo : VideoElement := mkVideo 4 280 240 0 0.
Definition tallVideo : VideoElement := mkVideo 4 1 49 0 0.

(** An entry that lies within the history window at time [now]. *)
Definition fresh (now : Z) (timestamp : Z) : Prop := (now - timestamp <= historyWindow)%Z.

(** A confidence that the class filter lets through and that is at most 1. *)
Definition confident (p : Prediction) : Prop := (25 # 100) <= score p <= 1.

(** The recommendations of the PDF report ([generatePDFReport]); each
    constructor stands for one of its sentences, in the order of the source:
    check presence, put away devices, take a break, look at the camera,
    discuss the device policy, and the two sentences of praise. *)
Inductive Recommendation : Type :=
  | CheckPresent | PutAwayDevices | TakeBreak | LookAtCamera | DiscussPolicy
  | ExcellentFocus | ContinueApproach.

Definition recommendations (currentPersonCount currentMobileCount : nat)
    (metrics : FocusMetrics) (stats : Logs.DetectionStats) : list Recommendation :=
  let recommendations := [] in
  let recommendations :=
    if (currentPersonCount =? 0)%nat then recommendations ++ [CheckPresent]
    else recommendations in
  let recommendations :=
    if (0 <? currentMobileCount)%nat then recommendations ++ [PutAwayDevices]
    else recommendations in
  let recommendations :=
    if (focusScore metrics <? 70)%Z then recommendations ++ [TakeBreak]
    else recommendations in
  let recommendations :=
    if (eyeContactScore metrics <? 70)%Z then recommendations ++ [LookAtCamera]
    else recommendations in
  let recommendations :=
    if (5 <? Logs.mobileDetections stats)%nat then recommendations ++ [DiscussPolicy]
    else recommendations in
  if (length recommendations =? 0)%nat
  then recommendations ++ [ExcellentFocus] ++ [ContinueApproach]
  else recommendations.

(** * Properties *)

(** ** Numbers *)

Lemma Qltb_lt (a b : Q) : Qltb a b = true <-> a < b.
Proof.
  unfold Qltb. rewrite negb_true_iff.
  destruct (Qle_bool b a) eqn:E.
  - apply Qle_bool_iff in E. split; [discriminate | intros H; exfalso; lra].
  - split; [intros _ | reflexivity].
    destruct (Qlt_le_dec a b) as [H | H]; [exact H |].
    apply Qle_bool_iff in H. congruence.
Qed.

Lemma Qltb_ge (a b : Q) : Qltb a b = false <-> b <= a.
Proof.
  unfold Qltb. rewrite negb_false_iff. apply Qle_bool_iff.
Qed.

Lemma Qle_bool_false (a b : Q) : Qle_bool a b = false <-> b < a.
Proof.
  rewrite <- Qltb_lt. unfold Qltb. rewrite negb_true_iff. reflexivity.
Qed.

(** ** Geometry *)

Lemma empty_intersection_sym (a b : BBox) :
  IoU.empty_intersection a b = IoU.empty_intersection b a.
Proof.
  unfold IoU.empty_intersection, IoU.intersect_x1, IoU.intersect_x2,
    IoU.intersect_y1, IoU.intersect_y2.
  rewrite (Q.max_comm (bbox_at a 0)), (Q.max_comm (bbox_at a 1)).
  rewrite (Q.min_comm (IoU.x1_max a)), (Q.min_comm (IoU.y1_max a)).
  reflexivity.
Qed.

Lemma intersect_area_sym (a b : BBox) :
  IoU.intersect_area a b == IoU.intersect_area b a.
Proof.
  unfold IoU.intersect_area, IoU.intersect_x1, IoU.intersect_x2,
    IoU.intersect_y1, IoU.intersect_y2.
  rewrite (Q.max_comm (bbox_at a 0)), (Q.max_comm (bbox_at a 1)).
  rewrite (Q.min_comm (IoU.x1_max a)), (Q.min_comm (IoU.y1_max a)).
  reflexivity.
Qed.

Lemma calculateIoU_sym (a b : BBox) : calculateIoU a b == calculateIoU b a.
Proof.
  unfold calculateIoU. rewrite (empty_intersection_sym a b).
  destruct (IoU.empty_intersection b a); [reflexivity |].
  unfold IoU.union_area. rewrite (intersect_area_sym a b).
  unfold IoU.bbox1_area, IoU.bbox2_area.
  apply Qmult_comp; [reflexivity |]. apply Qinv_comp. ring.
Qed.

(** ** Binary64 arithmetic *)

Module DoubleFacts.
Import SpecFloat.
Import Double.
Local Open Scope Z_scope.

Lemma compare_cont_swap (m1 m2 : positive) :
  Pos.compare_cont Eq m2 m1 = CompOpp (Pos.compare_cont Eq m1 m2).
Proof. rewrite Pos.compare_cont_antisym. reflexivity. Qed.


Lemma compare_antisym (a b : double) :
  SFcompare b a = option_map CompOpp (SFcompare a b).
Proof.
  destruct a as [[] | [] | | [] ma ea], b as [[] | [] | | [] mb eb]; try reflexivity;
    cbn [SFcompare option_map];
    rewrite (Z.compare_antisym ea eb), (compare_cont_swap ma mb);
    destruct (ea ?= eb)%Z, (Pos.compare_cont Eq ma mb); reflexivity.
Qed.







Lemma compare_refl (a : double) : is_nan a = false -> SFcompare a a = Some Eq.
Proof.
  destruct a as [[] | [] | | [] ma ea]; cbn; try discriminate; try reflexivity; intros _;
    rewrite Z.compare_refl; change (Pos.compare_cont Eq ma ma) with (Pos.compare ma ma);
    rewrite Pos.compare_refl; reflexivity.
Qed.

Lemma leb_refl (a : double) : is_nan a = false -> leb a a = true.
Proof. intros H. unfold leb, SFleb. rewrite (compare_refl a H). reflexivity. Qed.















Lemma Zdigits_log2 (p : positive) : Zpos (digits2_pos p) = Z.log2 (Zpos p) + 1.
Proof.
  assert (E : forall q, digits2_pos q = Pos.size q).
  { induction q as [q IH | q IH |]; cbn; rewrite ?IH; reflexivity. }
  rewrite E. destruct p; cbn; lia.
Qed.

Lemma fexp_eq (e : Z) : fexp prec emax e = Z.max (e - 53) (-1074).
Proof. reflexivity. Qed.

Lemma shr_1_double (z : Z) :
  0 < z -> shr_1 (Build_shr_record (2 * z) false false) = Build_shr_record z false false.
Proof. destruct z; [lia | reflexivity | lia]. Qed.

Lemma pow2_xI (p : positive) : 2 ^ Zpos p~1 = 2 * (2 ^ Zpos p * 2 ^ Zpos p).
Proof.
  replace (Zpos p~1) with (Zpos p + Zpos p + 1) by lia.
  rewrite !Z.pow_add_r by lia. ring.
Qed.

Lemma pow2_xO (p : positive) : 2 ^ Zpos p~0 = 2 ^ Zpos p * 2 ^ Zpos p.
Proof.
  replace (Zpos p~0) with (Zpos p + Zpos p) by lia.
  rewrite !Z.pow_add_r by lia. ring.
Qed.

Lemma iter_shr_exact (p : positive) :
  forall q, 0 < q ->
    iter_pos shr_1 p (Build_shr_record (q * 2 ^ Zpos p) false false)
    = Build_shr_record q false false.
Proof.
  induction p as [p IH | p IH |]; intros q Hq; cbn [iter_pos].
  - replace (q * 2 ^ Zpos p~1) with (2 * ((q * 2 ^ Zpos p) * 2 ^ Zpos p))
      by (rewrite pow2_xI; ring).
    rewrite shr_1_double by (apply Z.mul_pos_pos; [apply Z.mul_pos_pos |]; lia).
    rewrite IH by (apply Z.mul_pos_pos; lia). apply IH, Hq.
  - replace (q * 2 ^ Zpos p~0) with ((q * 2 ^ Zpos p) * 2 ^ Zpos p)
      by (rewrite pow2_xO; ring).
    rewrite IH by (apply Z.mul_pos_pos; lia). apply IH, Hq.
  - rewrite Z.pow_1_r, Z.mul_comm. apply shr_1_double, Hq.
Qed.

Lemma iter_xO (m d : positive) : Zpos (Pos.iter xO m d) = Zpos m * 2 ^ Zpos d.
Proof.
  revert m. induction d as [| d IH] using Pos.peano_ind; intros m.
  - cbn [Pos.iter]. lia.
  - rewrite Pos.iter_succ, Pos2Z.inj_xO, IH, Pos2Z.inj_succ, Z.pow_succ_r by lia. ring.
Qed.

Lemma log2_shift (N k : Z) : 0 < N -> 0 <= k -> Z.log2 (N * 2 ^ k) = Z.log2 N + k.
Proof. intros HN Hk. rewrite Z.log2_mul_pow2 by lia. lia. Qed.

(** Rounding is exact on a mantissa that has at most 53 significant bits
    followed by zeros. *)
Lemma round_aux_exact (s : bool) (M : positive) (e N k : Z) :
  0 < N -> 0 <= k -> Zpos M = N * 2 ^ k ->
  Z.log2 N + 1 <= 53 -> 0 <= k + (Z.log2 N + 1) - 53 ->
  -1074 <= e + k + (Z.log2 N + 1) - 53 <= 971 ->
  binary_round_aux prec emax s (Zpos M) e loc_Exact
  = S754_finite s (Z.to_pos (N * 2 ^ (53 - (Z.log2 N + 1)))) (e + k + (Z.log2 N + 1) - 53).
Proof.
  intros HN Hk HM Hd Hn He.
  set (d := Z.log2 N + 1) in *.
  set (m' := N * 2 ^ (53 - d)).
  assert (Hm' : 0 < m') by (apply Z.mul_pos_pos; [lia | apply Z.pow_pos_nonneg; lia]).
  assert (Hdig : forall q, Zpos q = m' -> Zpos (digits2_pos q) = 53).
  { intros q Hq. rewrite Zdigits_log2, Hq. unfold m'. rewrite log2_shift by lia. unfold d. lia. }
  assert (E1 : shr_fexp prec emax (Zpos M) e loc_Exact
               = (Build_shr_record m' false false, e + k + d - 53)).
  { unfold shr_fexp. cbn [Zdigits2]. rewrite Zdigits_log2, HM, log2_shift, fexp_eq by lia.
    replace (Z.max (Z.log2 N + k + 1 + e - 53) (-1074) - e) with (k + d - 53)
      by (unfold d; lia).
    cbn [shr_record_of_loc]. unfold shr.
    destruct (k + d - 53) as [| n | n] eqn:En; [| | lia].
    - f_equal; [| lia]. f_equal. unfold m'. f_equal. f_equal. lia.
    - f_equal; [| lia].
      replace (N * 2 ^ k) with (m' * 2 ^ Zpos n).
      + apply iter_shr_exact, Hm'.
      + unfold m'. rewrite <- Z.mul_assoc, <- Z.pow_add_r by lia. f_equal. f_equal. lia. }
  unfold binary_round_aux. rewrite E1. cbn [shr_m loc_of_shr_record round_nearest_even].
  assert (E2 : shr_fexp prec emax m' (e + k + d - 53) loc_Exact
               = (Build_shr_record m' false false, e + k + d - 53)).
  { unfold shr_fexp. destruct m' as [| q | q] eqn:Eq; [lia | | lia].
    cbn [Zdigits2]. rewrite (Hdig q eq_refl), fexp_eq.
    replace (Z.max (53 + (e + k + d - 53) - 53) (-1074) - (e + k + d - 53)) with 0 by lia.
    reflexivity. }
  rewrite E2. cbn [shr_m].
  destruct m' as [| q | q] eqn:Eq; [lia | | lia].
  replace (e + k + d - 53 <=? emax - prec) with true
    by (symmetry; apply Z.leb_le; unfold emax, prec; lia).
  reflexivity.
Qed.

Lemma round_exact (s : bool) (M : positive) (e N k : Z) :
  0 < N -> 0 <= k -> Zpos M = N * 2 ^ k ->
  Z.log2 N + 1 <= 53 ->
  -1074 <= e + k + (Z.log2 N + 1) - 53 <= 971 ->
  binary_round prec emax s M e
  = S754_finite s (Z.to_pos (N * 2 ^ (53 - (Z.log2 N + 1)))) (e + k + (Z.log2 N + 1) - 53).
Proof.
  intros HN Hk HM Hd He.
  unfold binary_round. rewrite Zdigits_log2, HM, log2_shift, fexp_eq by lia.
  set (d := Z.log2 N + 1) in *.
  replace (Z.max (Z.log2 N + k + 1 + e - 53) (-1074)) with (e + k + d - 53)
    by (unfold d; lia).
  unfold shl_align.
  destruct (e + k + d - 53 - e) as [| n | n] eqn:En.
  - rewrite (round_aux_exact s M e N k) by (fold d; lia). reflexivity.
  - rewrite (round_aux_exact s M e N k) by (fold d; lia). reflexivity.
  - rewrite (round_aux_exact s (Pos.iter xO M n) (e + k + d - 53) N (53 - d)); fold d; try lia.
    + f_equal. lia.
    + rewrite iter_xO, HM, <- Z.mul_assoc, <- Z.pow_add_r by lia. f_equal. f_equal. lia.
Qed.

Lemma log2_below (N : Z) : 0 < N -> N < 2 ^ 53 -> Z.log2 N + 1 <= 53.
Proof. intros H0 H. apply Z.log2_lt_pow2 in H; lia. Qed.

(** The double of a whole number below 2^53. *)
Lemma ofZ_pos (N : Z) :
  0 < N < 2 ^ 53 ->
  ofZ N = S754_finite false (Z.to_pos (N * 2 ^ (52 - Z.log2 N))) (Z.log2 N - 52).
Proof.
  intros [H0 H]. pose proof (log2_below N H0 H) as Hd.
  pose proof (Z.log2_nonneg N) as Hl.
  unfold ofZ. destruct N as [| p | p]; [lia | | lia]. cbn [binary_normalize].
  rewrite (round_exact false p 0 (Zpos p) 0) by (rewrite ?Z.pow_0_r; lia).
  f_equal; [| lia]. f_equal. f_equal. f_equal. lia.
Qed.

Lemma ofZ_0 : ofZ 0 = zero.
Proof. reflexivity. Qed.

Lemma mantissa_eq (N : Z) :
  0 < N < 2 ^ 53 ->
  Zpos (Z.to_pos (N * 2 ^ (52 - Z.log2 N))) = N * 2 ^ (52 - Z.log2 N).
Proof.
  intros [H0 H]. pose proof (log2_below N H0 H). apply Z2Pos.id.
  apply Z.mul_pos_pos; [lia | apply Z.pow_pos_nonneg; lia].
Qed.

Lemma shl_align_val (m : positive) (e ez : Z) :
  ez <= e -> Zpos (fst (shl_align m e ez)) = Zpos m * 2 ^ (e - ez).
Proof.
  intros H. unfold shl_align.
  destruct (ez - e) as [| d | d] eqn:E; cbn [fst]; [| lia |].
  - replace (e - ez) with 0 by lia. rewrite Z.pow_0_r. lia.
  - rewrite iter_xO. f_equal. f_equal. lia.
Qed.

Lemma aligned (N : Z) (ez : Z) :
  0 < N < 2 ^ 53 -> ez <= Z.log2 N - 52 ->
  Zpos (fst (shl_align (Z.to_pos (N * 2 ^ (52 - Z.log2 N))) (Z.log2 N - 52) ez))
  = N * 2 ^ (- ez).
Proof.
  intros HN Hez. pose proof (log2_below N ltac:(lia) ltac:(lia)).
  rewrite shl_align_val by exact Hez. rewrite mantissa_eq by exact HN.
  rewrite <- Z.mul_assoc, <- Z.pow_add_r by lia. f_equal. f_equal. lia.
Qed.

Lemma add_ofZ (a b : Z) :
  0 <= a -> 0 <= b -> a + b < 2 ^ 53 -> add (ofZ a) (ofZ b) = ofZ (a + b).
Proof.
  intros Ha Hb Hs.
  destruct (Z.eq_dec a 0) as [-> | Na].
  { rewrite Z.add_0_l. destruct (Z.eq_dec b 0) as [-> | Nb]; [reflexivity |].
    rewrite (ofZ_pos b) by lia. reflexivity. }
  destruct (Z.eq_dec b 0) as [-> | Nb].
  { rewrite Z.add_0_r, (ofZ_pos a) by lia. reflexivity. }
  rewrite (ofZ_pos a), (ofZ_pos b), (ofZ_pos (a + b)) by lia.
  unfold add, SFadd. cbn [cond_Zopp].
  set (ez := Z.min (Z.log2 a - 52) (Z.log2 b - 52)).
  rewrite (aligned a ez), (aligned b ez) by (unfold ez; lia).
  pose proof (log2_below a ltac:(lia) ltac:(lia)).
  pose proof (log2_below b ltac:(lia) ltac:(lia)).
  pose proof (log2_below (a + b) ltac:(lia) ltac:(lia)).
  pose proof (Z.log2_nonneg (a + b)).
  assert (Hez : ez <= 0) by (unfold ez; lia).
  assert (Hpow : 0 < 2 ^ (- ez)) by (apply Z.pow_pos_nonneg; lia).
  assert (Hpos : 0 < a * 2 ^ (- ez) + b * 2 ^ (- ez)) by nia.
  destruct (a * 2 ^ (- ez) + b * 2 ^ (- ez)) as [| M | M] eqn:EM; [lia | | lia].
  cbn [binary_normalize].
  assert (HM : Zpos M = (a + b) * 2 ^ (- ez)) by (rewrite <- EM; ring).
  rewrite (round_exact false M ez (a + b) (- ez) ltac:(lia) ltac:(lia) HM ltac:(lia) ltac:(lia)).
  f_equal; [| lia]. f_equal. f_equal. f_equal. lia.
Qed.

Lemma sub_ofZ (a b : Z) :
  0 <= b -> b <= a -> a < 2 ^ 53 -> sub (ofZ a) (ofZ b) = ofZ (a - b).
Proof.
  intros Hb Hab Ha.
  destruct (Z.eq_dec b 0) as [-> | Nb].
  { rewrite Z.sub_0_r. destruct (Z.eq_dec a 0) as [-> | Na]; [reflexivity |].
    rewrite (ofZ_pos a) by lia. reflexivity. }
  rewrite (ofZ_pos a), (ofZ_pos b) by lia.
  unfold sub, SFsub. cbn [cond_Zopp].
  set (ez := Z.min (Z.log2 a - 52) (Z.log2 b - 52)).
  rewrite (aligned a ez), (aligned b ez) by (unfold ez; lia).
  pose proof (log2_below a ltac:(lia) ltac:(lia)).
  pose proof (log2_below b ltac:(lia) ltac:(lia)).
  pose proof (Z.log2_nonneg a). pose proof (Z.log2_nonneg b).
  assert (Hez : ez <= 0) by (unfold ez; lia).
  assert (Hpow : 0 < 2 ^ (- ez)) by (apply Z.pow_pos_nonneg; lia).
  destruct (Z.eq_dec a b) as [-> | Nab].
  { rewrite !Z.sub_diag. reflexivity. }
  rewrite (ofZ_pos (a - b)) by lia.
  pose proof (log2_below (a - b) ltac:(lia) ltac:(lia)).
  pose proof (Z.log2_nonneg (a - b)).
  assert (Hpos : 0 < a * 2 ^ (- ez) - b * 2 ^ (- ez)) by nia.
  destruct (a * 2 ^ (- ez) - b * 2 ^ (- ez)) as [| M | M] eqn:EM; [lia | | lia].
  cbn [binary_normalize].
  assert (HM : Zpos M = (a - b) * 2 ^ (- ez)) by (rewrite <- EM; ring).
  rewrite (round_exact false M ez (a - b) (- ez) ltac:(lia) ltac:(lia) HM ltac:(lia) ltac:(lia)).
  f_equal; [| lia]. f_equal. f_equal. f_equal. lia.
Qed.

Lemma mul_ofZ (a b : Z) :
  0 <= a < 2 ^ 53 -> 0 <= b < 2 ^ 53 -> a * b < 2 ^ 53 -> mul (ofZ a) (ofZ b) = ofZ (a * b).
Proof.
  intros Ha Hb Hp.
  destruct (Z.eq_dec a 0) as [-> | Na].
  { rewrite Z.mul_0_l. destruct (Z.eq_dec b 0) as [-> | Nb]; [reflexivity |].
    rewrite (ofZ_pos b) by lia. reflexivity. }
  destruct (Z.eq_dec b 0) as [-> | Nb].
  { rewrite Z.mul_0_r, (ofZ_pos a) by lia. reflexivity. }
  assert (Hab : 0 < a * b) by nia.
  rewrite (ofZ_pos a), (ofZ_pos b), (ofZ_pos (a * b)) by lia.
  unfold mul, SFmul. cbn [xorb].
  pose proof (log2_below a ltac:(lia) ltac:(lia)).
  pose proof (log2_below b ltac:(lia) ltac:(lia)).
  pose proof (log2_below (a * b) ltac:(lia) ltac:(lia)).
  pose proof (Z.log2_nonneg a). pose proof (Z.log2_nonneg b).
  pose proof (Z.log2_mul_below a b ltac:(lia) ltac:(lia)).
  assert (HM : Zpos (Z.to_pos (a * 2 ^ (52 - Z.log2 a)) * Z.to_pos (b * 2 ^ (52 - Z.log2 b)))
               = (a * b) * 2 ^ (104 - Z.log2 a - Z.log2 b)).
  { rewrite Pos2Z.inj_mul, !mantissa_eq by lia.
    replace (104 - Z.log2 a - Z.log2 b) with ((52 - Z.log2 a) + (52 - Z.log2 b)) by lia.
    rewrite Z.pow_add_r by lia. ring. }
  pose proof (Z.log2_nonneg (a * b)).
  rewrite (round_aux_exact false _ (Z.log2 a - 52 + (Z.log2 b - 52)) (a * b)
             (104 - Z.log2 a - Z.log2 b)
             ltac:(lia) ltac:(lia) HM ltac:(lia) ltac:(lia) ltac:(lia)).
  f_equal; [| lia]. f_equal. f_equal. f_equal. lia.
Qed.

Lemma compare_ofZ (a b : Z) :
  0 <= a < 2 ^ 53 -> 0 <= b < 2 ^ 53 -> SFcompare (ofZ a) (ofZ b) = Some (a ?= b).
Proof.
  intros Ha Hb.
  destruct (Z.eq_dec a 0) as [-> | Na]; destruct (Z.eq_dec b 0) as [-> | Nb].
  - reflexivity.
  - rewrite (ofZ_pos b) by lia. cbn [ofZ binary_normalize SFcompare]. f_equal.
    destruct b; [lia | reflexivity | lia].
  - rewrite (ofZ_pos a) by lia. cbn [ofZ binary_normalize SFcompare]. f_equal.
    destruct a; [lia | reflexivity | lia].
  - rewrite (ofZ_pos a), (ofZ_pos b) by lia. cbn [SFcompare]. f_equal.
    pose proof (log2_below a ltac:(lia) ltac:(lia)).
    pose proof (log2_below b ltac:(lia) ltac:(lia)).
    destruct (Z.compare_spec (Z.log2 a - 52) (Z.log2 b - 52)) as [E | E | E].
    + change (Pos.compare_cont Eq ?x ?y) with (Pos.compare x y).
      rewrite Pos2Z.inj_compare, !mantissa_eq by lia.
      replace (Z.log2 b) with (Z.log2 a) by lia.
      assert (Hp : 0 < 2 ^ (52 - Z.log2 a)) by (apply Z.pow_pos_nonneg; lia).
      destruct (Z.compare_spec (a * 2 ^ (52 - Z.log2 a)) (b * 2 ^ (52 - Z.log2 a)));
        destruct (Z.compare_spec a b); try reflexivity; nia.
    + symmetry. apply Z.compare_lt_iff. apply Z.log2_lt_cancel. lia.
    + symmetry. apply Z.compare_gt_iff. apply Z.log2_lt_cancel. lia.
Qed.

Lemma leb_ofZ (a b : Z) :
  0 <= a < 2 ^ 53 -> 0 <= b < 2 ^ 53 -> leb (ofZ a) (ofZ b) = (a <=? b).
Proof.
  intros Ha Hb. unfold leb, SFleb. rewrite compare_ofZ by assumption.
  unfold Z.leb. destruct (a ?= b); reflexivity.
Qed.


Lemma Math_max_ofZ (a b : Z) :
  0 <= a < 2 ^ 53 -> 0 <= b < 2 ^ 53 -> Math_max (ofZ a) (ofZ b) = ofZ (Z.max a b).
Proof.
  intros Ha Hb. unfold Math_max. rewrite compare_ofZ by assumption.
  destruct (Z.compare_spec a b) as [E | E | E].
  - subst b. rewrite Z.max_id. destruct (Z.eq_dec a 0) as [-> | Na]; [reflexivity |].
    rewrite (ofZ_pos a) by lia. reflexivity.
  - rewrite Z.max_r by lia. reflexivity.
  - rewrite Z.max_l by lia. reflexivity.
Qed.

Lemma Math_min_ofZ (a b : Z) :
  0 <= a < 2 ^ 53 -> 0 <= b < 2 ^ 53 -> Math_min (ofZ a) (ofZ b) = ofZ (Z.min a b).
Proof.
  intros Ha Hb. unfold Math_min. rewrite compare_ofZ by assumption.
  destruct (Z.compare_spec a b) as [E | E | E].
  - subst b. rewrite Z.min_id. destruct (Z.eq_dec a 0) as [-> | Na]; [reflexivity |].
    rewrite (ofZ_pos a) by lia. reflexivity.
  - rewrite Z.min_l by lia. reflexivity.
  - rewrite Z.min_r by lia. reflexivity.
Qed.

Lemma div_eucl_spec (a b q r : Z) : Z.div_eucl a b = (q, r) -> q = a / b /\ r = a mod b.
Proof. intros E. unfold Z.div, Z.modulo. rewrite E. split; reflexivity. Qed.

Lemma new_location_0 (m : Z) : new_location m 0 = loc_Exact.
Proof. unfold new_location. destruct (Z.even m); reflexivity. Qed.

(** A finite non-zero double divided by itself is 1. *)
Lemma div_self (s : bool) (m : positive) (e : Z) :
  div (S754_finite s m e) (S754_finite s m e) = one.
Proof.
  unfold div, SFdiv, SFdiv_core_binary. cbn [Zdigits2].
  replace (Zpos (digits2_pos m) + e - (Zpos (digits2_pos m) + e)) with 0 by lia.
  replace (e - e) with 0 by lia.
  change (Z.min (fexp prec emax 0) 0) with (-53).
  change (0 - -53) with 53.
  cbv iota beta.
  destruct (Z.div_eucl (Z.shiftl (Zpos m) 53) (Zpos m)) as [q r] eqn:E.
  apply div_eucl_spec in E as [-> ->].
  rewrite Z.shiftl_mul_pow2 by lia.
  rewrite (Z.mul_comm (Zpos m)), Z.div_mul, Z.mod_mul by lia.
  rewrite new_location_0. destruct s; reflexivity.
Qed.

Lemma loc_roundtrip (m : Z) (l : location) :
  loc_of_shr_record (shr_record_of_loc m l) = l.
Proof. destruct l as [| []]; reflexivity. Qed.

Lemma shr_m_of_loc (m : Z) (l : location) : shr_m (shr_record_of_loc m l) = m.
Proof. destruct l as [| []]; reflexivity. Qed.

Lemma shr_1_m (mrs : shr_record) :
  0 <= shr_m mrs -> shr_m (shr_1 mrs) = shr_m mrs / 2.
Proof.
  intros H. rewrite <- Z.div2_div. destruct mrs as [[| [] | []] r s]; cbn in *; try reflexivity; lia.
Qed.

Lemma round_nearest_even_range (m : Z) (l : location) :
  m <= round_nearest_even m l <= m + 1.
Proof. destruct l as [| []]; cbn; try destruct (Z.even m); lia. Qed.

Lemma digits_53 (z : Z) : 2 ^ 52 <= z < 2 ^ 53 -> Zdigits2 z = 53.
Proof.
  intros H. destruct z as [| p | p]; try lia. cbn [Zdigits2].
  rewrite Zdigits_log2, (Z.log2_unique (Zpos p) 52); lia.
Qed.

Lemma digits_54 (z : Z) : 2 ^ 53 <= z < 2 ^ 54 -> Zdigits2 z = 54.
Proof.
  intros H. destruct z as [| p | p]; try lia. cbn [Zdigits2].
  rewrite Zdigits_log2, (Z.log2_unique (Zpos p) 53); lia.
Qed.

Lemma half_range (Q : Z) : 2 ^ 53 <= Q < 2 ^ 54 -> 2 ^ 52 <= Q / 2 < 2 ^ 53.
Proof.
  intros H.
  pose proof (Z.div_mod Q 2 ltac:(lia)). pose proof (Z.mod_pos_bound Q 2 ltac:(lia)). lia.
Qed.

(** The last two steps of [binary_round_aux] on a mantissa of 53 bits that
    rounding may have carried to 2^53. *)
Lemma renormalize (s : bool) (m2 e1 : Z) :
  2 ^ 52 <= m2 <= 2 ^ 53 -> -1074 <= e1 -> e1 + 1 <= 971 ->
  exists m' e_r,
    (let '(mrs, e2) := shr_fexp prec emax m2 e1 loc_Exact in
     match shr_m mrs with
     | Z0 => S754_zero s
     | Zpos m => if e2 <=? emax - prec then S754_finite s m e2 else S754_infinity s
     | Zneg _ => S754_nan
     end) = S754_finite s m' e_r
    /\ 2 ^ 52 <= Zpos m' < 2 ^ 53
    /\ (m2 < 2 ^ 53 -> Zpos m' = m2 /\ e_r = e1)
    /\ (m2 = 2 ^ 53 -> Zpos m' = 2 ^ 52 /\ e_r = e1 + 1).
Proof.
  intros Hm He1 He2.
  assert (m2 < 2 ^ 53 \/ m2 = 2 ^ 53) as [Hlt | ->] by lia.
  - exists (Z.to_pos m2), e1.
    unfold shr_fexp. rewrite digits_53, fexp_eq by lia.
    replace (Z.max (53 + e1 - 53) (-1074) - e1) with 0 by lia.
    cbn [shr shr_record_of_loc shr_m].
    destruct m2 as [| p | p]; try lia.
    replace (e1 <=? emax - prec) with true by (symmetry; apply Z.leb_le; unfold emax, prec; lia).
    cbn [Z.to_pos]. repeat split; lia.
  - exists (Z.to_pos (2 ^ 52)), (e1 + 1).
    unfold shr_fexp. rewrite digits_54, fexp_eq by lia.
    replace (Z.max (54 + e1 - 53) (-1074) - e1) with 1 by lia.
    cbn [shr shr_record_of_loc iter_pos].
    change (shr_1 {| shr_m := 2 ^ 53; shr_r := false; shr_s := false |})
      with {| shr_m := 2 ^ 52; shr_r := false; shr_s := false |}.
    cbn [shr_m]. change (2 ^ 52) with (Zpos (Z.to_pos (2 ^ 52))) at 1.
    cbv iota beta.
    replace (e1 + 1 <=? emax - prec) with true by (symmetry; apply Z.leb_le; unfold emax, prec; lia).
    repeat split; try lia; reflexivity.
Qed.

(** Rounding a quotient of 53 or 54 bits, whatever its remainder. *)
Lemma round_aux_shape (s : bool) (Q e : Z) (l : location) :
  2 ^ 52 <= Q < 2 ^ 54 -> -1074 <= e -> e + 2 <= 971 ->
  exists m' e_r,
    binary_round_aux prec emax s Q e l = S754_finite s m' e_r
    /\ 2 ^ 52 <= Zpos m' < 2 ^ 53
    /\ (Q < 2 ^ 53 -> e <= e_r <= e + 1 /\ (e_r = e + 1 -> Zpos m' = 2 ^ 52))
    /\ (2 ^ 53 <= Q -> e + 1 <= e_r <= e + 2 /\ (e_r = e + 2 -> Zpos m' = 2 ^ 52)).
Proof.
  intros HQ He1 He2. unfold binary_round_aux.
  assert (Q < 2 ^ 53 \/ 2 ^ 53 <= Q) as [Hlt | Hge] by lia.
  - assert (E1 : shr_fexp prec emax Q e l = (shr_record_of_loc Q l, e)).
    { unfold shr_fexp. rewrite digits_53, fexp_eq by lia.
      replace (Z.max (53 + e - 53) (-1074) - e) with 0 by lia. reflexivity. }
    rewrite E1, loc_roundtrip, shr_m_of_loc.
    pose proof (round_nearest_even_range Q l) as Hr.
    destruct (renormalize s (round_nearest_even Q l) e ltac:(lia) ltac:(lia) ltac:(lia))
      as (m' & e_r & E & Hm & Hsame & Hcarry).
    exists m', e_r. split; [exact E |]. split; [exact Hm |].
    split; [| lia]. intros _.
    assert (round_nearest_even Q l < 2 ^ 53 \/ round_nearest_even Q l = 2 ^ 53)
      as [H | H] by lia.
    + destruct (Hsame H) as [_ ->]. lia.
    + destruct (Hcarry H) as [Hm' ->]. split; [lia |]. intros _. exact Hm'.
  - assert (E1 : shr_fexp prec emax Q e l = (shr_1 (shr_record_of_loc Q l), e + 1)).
    { unfold shr_fexp. rewrite digits_54, fexp_eq by lia.
      replace (Z.max (54 + e - 53) (-1074) - e) with 1 by lia. reflexivity. }
    rewrite E1.
    assert (Hm1 : shr_m (shr_1 (shr_record_of_loc Q l)) = Q / 2)
      by (rewrite shr_1_m; rewrite shr_m_of_loc; [reflexivity | lia]).
    rewrite Hm1.
    pose proof (round_nearest_even_range (Q / 2)
                  (loc_of_shr_record (shr_1 (shr_record_of_loc Q l)))) as Hr.
    assert (Hq : 2 ^ 52 <= Q / 2 < 2 ^ 53) by (apply half_range; lia).
    destruct (renormalize s (round_nearest_even (Q / 2)
                (loc_of_shr_record (shr_1 (shr_record_of_loc Q l)))) (e + 1)
                ltac:(lia) ltac:(lia) ltac:(lia))
      as (m' & e_r & E & Hm & Hsame & Hcarry).
    exists m', e_r. split; [exact E |]. split; [exact Hm |].
    split; [lia |]. intros _.
    set (m2 := round_nearest_even (Q / 2) _) in *.
    assert (m2 < 2 ^ 53 \/ m2 = 2 ^ 53) as [H | H] by lia.
    + destruct (Hsame H) as [_ ->]. lia.
    + destruct (Hcarry H) as [Hm' ->]. split; [lia |]. intros _. exact Hm'.
Qed.

Lemma leb_one (m : positive) (e : Z) :
  e < -52 \/ (e = -52 /\ Zpos m = 2 ^ 52) ->
  leb (S754_finite false m e) one = true.
Proof.
  intros H. change one with (S754_finite false 4503599627370496 (-52)).
  unfold leb, SFleb. cbn [SFcompare].
  destruct (Z.compare_spec e (-52)) as [E | E | E]; [| reflexivity | lia].
  destruct H as [H | [_ H]]; [lia |].
  assert (m = 4503599627370496%positive) as -> by lia. reflexivity.
Qed.

Lemma mantissa_range (N : Z) :
  0 < N < 2 ^ 53 -> 2 ^ 52 <= N * 2 ^ (52 - Z.log2 N) < 2 ^ 53.
Proof.
  intros [H0 H]. pose proof (log2_below N H0 H) as Hd.
  pose proof (Z.log2_spec N H0) as [Hlo Hhi].
  assert (Hp : 0 < 2 ^ (52 - Z.log2 N)) by (apply Z.pow_pos_nonneg; lia).
  assert (E1 : 2 ^ 52 = 2 ^ Z.log2 N * 2 ^ (52 - Z.log2 N)).
  { rewrite <- Z.pow_add_r by (pose proof (Z.log2_nonneg N); lia). f_equal. lia. }
  assert (E2 : 2 ^ 53 = 2 ^ Z.succ (Z.log2 N) * 2 ^ (52 - Z.log2 N)).
  { rewrite <- Z.pow_add_r by (pose proof (Z.log2_nonneg N); lia). f_equal. lia. }
  rewrite E1, E2. nia.
Qed.

(** The quotient of two whole numbers [0 < a <= b < 2^53] is a positive
    double that is at most 1. *)
Lemma div_ofZ_le_one (a b : Z) :
  0 < a -> a <= b -> b < 2 ^ 53 ->
  exists m e, div (ofZ a) (ofZ b) = S754_finite false m e
              /\ leb (S754_finite false m e) one = true.
Proof.
  intros Ha Hab Hb.
  rewrite (ofZ_pos a), (ofZ_pos b) by lia.
  destruct (Z.eq_dec a b) as [<- | Nab].
  { rewrite div_self. exists 4503599627370496%positive, (-52). split; reflexivity. }
  pose proof (log2_below a ltac:(lia) ltac:(lia)) as Hda.
  pose proof (log2_below b ltac:(lia) ltac:(lia)) as Hdb.
  pose proof (Z.log2_nonneg a) as Hla. pose proof (Z.log2_nonneg b) as Hlb.
  pose proof (Z.log2_le_mono a b Hab) as Hmono.
  pose proof (mantissa_range a ltac:(lia)) as Hma.
  pose proof (mantissa_range b ltac:(lia)) as Hmb.
  pose proof (mantissa_eq a ltac:(lia)) as Ema.
  pose proof (mantissa_eq b ltac:(lia)) as Emb.
  set (ma := Z.to_pos (a * 2 ^ (52 - Z.log2 a))) in *.
  set (mb := Z.to_pos (b * 2 ^ (52 - Z.log2 b))) in *.
  rewrite <- Ema in Hma. rewrite <- Emb in Hmb.
  unfold div, SFdiv, SFdiv_core_binary. cbn [xorb].
  rewrite (digits_53 (Zpos ma)), (digits_53 (Zpos mb)) by lia.
  set (kk := Z.log2 a - Z.log2 b).
  replace (53 + (Z.log2 a - 52) - (53 + (Z.log2 b - 52))) with kk by (unfold kk; lia).
  replace (Z.log2 a - 52 - (Z.log2 b - 52)) with kk by (unfold kk; lia).
  rewrite fexp_eq.
  replace (Z.min (Z.max (kk - 53) (-1074)) kk) with (kk - 53) by (unfold kk; lia).
  replace (kk - (kk - 53)) with 53 by lia.
  cbv iota beta.
  destruct (Z.div_eucl (Z.shiftl (Zpos ma) 53) (Zpos mb)) as [q r] eqn:E.
  apply div_eucl_spec in E as [Eq_ _].
  rewrite Z.shiftl_mul_pow2 in Eq_ by lia.
  assert (Hq : 2 ^ 52 <= q < 2 ^ 54).
  { rewrite Eq_. split.
    - apply Z.div_le_lower_bound; [lia |]. nia.
    - apply Z.div_lt_upper_bound; [lia |]. nia. }
  assert (Hq53 : Zpos ma < Zpos mb -> q < 2 ^ 53).
  { intros Hlt. rewrite Eq_. apply Z.div_lt_upper_bound; [lia |]. nia. }
  destruct (round_aux_shape false q (kk - 53) (new_location (Zpos mb) r)
              Hq ltac:(unfold kk; lia) ltac:(unfold kk; lia))
    as (m' & e_r & Er & Hm' & Hsmall & Hbig).
  exists m', e_r. split; [exact Er |].
  apply leb_one.
  assert (Z.log2 a = Z.log2 b \/ Z.log2 a < Z.log2 b) as [El | El] by lia.
  - assert (Hlt : Zpos ma < Zpos mb).
    { rewrite Ema, Emb, El.
      assert (0 < 2 ^ (52 - Z.log2 b)) by (apply Z.pow_pos_nonneg; lia). nia. }
    destruct (Hsmall (Hq53 Hlt)) as [Hr Hc]. unfold kk in *.
    assert (e_r = -53 \/ e_r = -52) as [-> | ->] by lia; [left; lia | right].
    split; [reflexivity | apply Hc; lia].
  - assert (q < 2 ^ 53 \/ 2 ^ 53 <= q) as [Hs | Hb'] by lia.
    + destruct (Hsmall Hs) as [Hr _]. left. unfold kk in *. lia.
    + destruct (Hbig Hb') as [Hr Hc]. unfold kk in *.
      assert (e_r < -52 \/ e_r = -52) as [H | ->] by lia; [left; exact H | right].
      split; [reflexivity | apply Hc; lia].
Qed.


Ltac powers :=
  change (2 ^ 25) with 33554432 in *; change (2 ^ 53) with 9007199254740992 in *.













(** On boxes with whole-number coordinates the double computation is the
    integer one up to the final division. *)
Lemma pixel_iou (x1 y1 w1 h1 x2 y2 w2 h2 : Z) :
  pixel x1 -> pixel y1 -> pixel w1 -> pixel h1 ->
  pixel x2 -> pixel y2 -> pixel w2 -> pixel h2 ->
  let a := pixelBox x1 y1 w1 h1 in
  let b := pixelBox x2 y2 w2 h2 in
  let ix1 := Z.max x1 x2 in
  let iy1 := Z.max y1 y2 in
  let ix2 := Z.min (x1 + w1) (x2 + w2) in
  let iy2 := Z.min (y1 + h1) (y2 + h2) in
  let I := (ix2 - ix1) * (iy2 - iy1) in
  let U := w1 * h1 + w2 * h2 - I in
  empty_intersection a b = (ix2 <=? ix1) || (iy2 <=? iy1)
  /\ (empty_intersection a b = false ->
      intersect_area a b = ofZ I /\ union_area a b = ofZ U /\ 0 < I /\ I <= U /\ U < 2 ^ 53).
Proof.
  intros Hx1 Hy1 Hw1 Hh1 Hx2 Hy2 Hw2 Hh2 a b ix1 iy1 ix2 iy2 I U.
  unfold pixel in *. powers.
  assert (Eg : empty_intersection a b = (ix2 <=? ix1) || (iy2 <=? iy1)).
  { unfold empty_intersection, intersect_x1, intersect_x2, intersect_y1, intersect_y2,
      x1_max, x2_max, y1_max, y2_max, a, b, pixelBox. cbn [bx by_ bw bh].
    rewrite !add_ofZ by (powers; lia).
    rewrite !Math_max_ofZ, !Math_min_ofZ by (powers; lia).
    rewrite !leb_ofZ by (powers; lia). reflexivity. }
  split; [exact Eg |]. rewrite Eg. intros Hg.
  apply orb_false_iff in Hg as [Hgx Hgy]. apply Z.leb_gt in Hgx, Hgy.
  assert (HI1 : I <= w1 * h1) by (unfold I; apply Z.mul_le_mono_nonneg; lia).
  assert (HI2 : I <= w2 * h2) by (unfold I; apply Z.mul_le_mono_nonneg; lia).
  assert (HI0 : 0 < I) by (unfold I; apply Z.mul_pos_pos; lia).
  assert (HA1 : w1 * h1 <= 33554432 * 33554432) by (apply Z.mul_le_mono_nonneg; lia).
  assert (HA2 : w2 * h2 <= 33554432 * 33554432) by (apply Z.mul_le_mono_nonneg; lia).
  assert (EI : intersect_area a b = ofZ I).
  { unfold intersect_area, intersect_x1, intersect_x2, intersect_y1, intersect_y2,
      x1_max, x2_max, y1_max, y2_max, a, b, pixelBox. cbn [bx by_ bw bh].
    rewrite !add_ofZ by (powers; lia).
    rewrite !Math_max_ofZ, !Math_min_ofZ by (powers; lia).
    rewrite !sub_ofZ by (powers; lia).
    rewrite mul_ofZ; [reflexivity | powers; lia | powers; lia | powers; fold ix1 ix2 iy1 iy2 I; lia]. }
  assert (EU : union_area a b = ofZ U).
  { unfold union_area. rewrite EI.
    unfold bbox1_area, bbox2_area, a, b, pixelBox. cbn [bx by_ bw bh].
    rewrite !mul_ofZ by (powers; lia).
    rewrite add_ofZ by (powers; lia).
    rewrite sub_ofZ by (powers; lia). reflexivity. }
  repeat split; try assumption; unfold U; lia.
Qed.

Lemma ltb_zero_ofZ (U : Z) : 0 < U < 2 ^ 53 -> ltb zero (ofZ U) = true.
Proof. intros H. rewrite (ofZ_pos U H). reflexivity. Qed.

Lemma pixel_iou_bounded (x1 y1 w1 h1 x2 y2 w2 h2 : Z) :
  pixel x1 -> pixel y1 -> pixel w1 -> pixel h1 ->
  pixel x2 -> pixel y2 -> pixel w2 -> pixel h2 ->
  let a := pixelBox x1 y1 w1 h1 in
  let b := pixelBox x2 y2 w2 h2 in
  (empty_intersection a b = false -> ltb zero (union_area a b) = true)
  /\ leb zero (calculateIoU a b) = true /\ leb (calculateIoU a b) one = true.
Proof.
  intros Hx1 Hy1 Hw1 Hh1 Hx2 Hy2 Hw2 Hh2 a b.
  destruct (pixel_iou x1 y1 w1 h1 x2 y2 w2 h2 Hx1 Hy1 Hw1 Hh1 Hx2 Hy2 Hw2 Hh2)
    as [_ Hd]. fold a b in Hd.
  split.
  - intros Hg. destruct (Hd Hg) as (_ & -> & HI & HIU & HU). apply ltb_zero_ofZ. lia.
  - unfold calculateIoU. destruct (empty_intersection a b) eqn:Hg; [split; reflexivity |].
    destruct (Hd eq_refl) as (-> & -> & HI & HIU & HU).
    destruct (div_ofZ_le_one _ _ HI HIU HU) as (m & e & -> & Hle).
    split; [reflexivity | exact Hle].
Qed.


(** *** Rounding to nearest is monotone *)

Lemma iter_pos_nat {A : Type} (f : A -> A) (p : positive) :
  forall x, iter_pos f p x = Nat.iter (Pos.to_nat p) f x.
Proof.
  induction p as [p IH | p IH |]; intros x; cbn [iter_pos].
  - rewrite !IH, Pos2Nat.inj_xI.
    replace (S (2 * Pos.to_nat p)) with (Pos.to_nat p + (Pos.to_nat p + 1))%nat by lia.
    rewrite !Nat.iter_add. reflexivity.
  - rewrite !IH, Pos2Nat.inj_xO.
    replace (2 * Pos.to_nat p)%nat with (Pos.to_nat p + Pos.to_nat p)%nat by lia.
    rewrite Nat.iter_add. reflexivity.
  - reflexivity.
Qed.


(** [k + 1] shifts of a mantissa [M]: the quotient, the last bit shifted
    out, and whether anything was lost before it. *)
Lemma shr_steps (M : Z) (l : location) (k : nat) :
  0 <= M ->
  Nat.iter (S k) shr_1 (shr_record_of_loc M l)
  = Build_shr_record (M / 2 ^ Z.of_nat (S k))
      (Z.odd (M / 2 ^ Z.of_nat k))
      (negb ((M mod 2 ^ Z.of_nat k =? 0) && is_exact l)).
Proof.
  intros HM. induction k as [| k IH].
  - cbn [Nat.iter]. change (Z.of_nat 0) with 0. change (Z.of_nat 1) with 1.
    rewrite Z.pow_0_r, Z.pow_1_r, Z.div_1_r, Z.mod_1_r. cbn [Z.eqb andb].
    rewrite <- Z.div2_div.
    destruct l as [| []]; destruct M as [| [p | p |] | p]; try lia; reflexivity.
  - change (Nat.iter (S (S k)) shr_1 (shr_record_of_loc M l))
      with (shr_1 (Nat.iter (S k) shr_1 (shr_record_of_loc M l))).
    rewrite IH.
    assert (Hp : 0 < 2 ^ Z.of_nat k) by (apply Z.pow_pos_nonneg; lia).
    assert (E1 : 2 ^ Z.of_nat (S k) = 2 * 2 ^ Z.of_nat k).
    { rewrite Nat2Z.inj_succ, Z.pow_succ_r by lia. reflexivity. }
    assert (E2 : 2 ^ Z.of_nat (S (S k)) = 2 ^ Z.of_nat (S k) * 2).
    { rewrite (Nat2Z.inj_succ (S k)), Z.pow_succ_r by lia. ring. }
    set (q := M / 2 ^ Z.of_nat (S k)).
    assert (Hq : 0 <= q) by (apply Z.div_pos; lia).
    assert (Eq2 : M / 2 ^ Z.of_nat (S (S k)) = q / 2).
    { rewrite E2, <- Z.div_div by lia. reflexivity. }
    rewrite Eq2.
    (* the sticky bit: the bit just shifted out or anything before it *)
    assert (Es : Z.odd (M / 2 ^ Z.of_nat k)
                 || negb ((M mod 2 ^ Z.of_nat k =? 0) && is_exact l)
                 = negb ((M mod 2 ^ Z.of_nat (S k) =? 0) && is_exact l)).
    { rewrite E1.
      pose proof (Z.div_mod M (2 ^ Z.of_nat k) ltac:(lia)) as Hdm.
      pose proof (Z.mod_pos_bound M (2 ^ Z.of_nat k) Hp) as Hb.
      set (a := M / 2 ^ Z.of_nat k) in *. set (r := M mod 2 ^ Z.of_nat k) in *.
      assert (Hmod : M mod (2 * 2 ^ Z.of_nat k) = (a mod 2) * 2 ^ Z.of_nat k + r).
      { assert (Ha : a = 2 * (a / 2) + a mod 2) by (apply Z.div_mod; lia).
        pose proof (Z.mod_pos_bound a 2 ltac:(lia)) as Hb2.
        symmetry. apply (Z.mod_unique_pos _ _ (a / 2)); [nia |].
        rewrite Hdm at 1. rewrite Ha at 1. ring. }
      rewrite Hmod, (Zmod_odd a).
      destruct (Z.odd a); destruct (Z.eqb_spec r 0) as [Hr | Hr];
        match goal with |- context [?x =? 0] =>
          match x with r => fail 1 | _ => destruct (Z.eqb_spec x 0) as [Hs | Hs] end end;
        destruct (is_exact l); cbn; try reflexivity; nia. }
    rewrite <- Es. set (r0 := Z.odd (M / 2 ^ Z.of_nat k)).
    set (s0 := negb ((M mod 2 ^ Z.of_nat k =? 0) && is_exact l)).
    rewrite <- Z.div2_div.
    destruct q as [| [p | p |] | p]; try lia; cbn; reflexivity.
Qed.

Lemma log2_range (M : Z) : 0 < M -> 2 ^ Z.log2 M <= M < 2 ^ (Z.log2 M + 1).
Proof. intros H. pose proof (Z.log2_spec M H). rewrite <- Z.add_1_r in *. lia. Qed.

Lemma leading_bits (M n : Z) :
  0 <= n -> 2 ^ (52 + n) <= M < 2 ^ (53 + n) -> 2 ^ 52 <= M / 2 ^ n < 2 ^ 53.
Proof.
  intros Hn [Hlo Hhi].
  assert (Hp : 0 < 2 ^ n) by (apply Z.pow_pos_nonneg; lia).
  rewrite Z.pow_add_r in Hlo, Hhi by lia.
  split.
  - apply Z.div_le_lower_bound; [lia |]. lia.
  - apply Z.div_lt_upper_bound; [lia |]. lia.
Qed.

(** The first step of [binary_round_aux] on a mantissa of at least 53 bits,
    in the normal range: the leading 53 bits and what was shifted out. *)
Lemma shr_fexp_char (M e : Z) (l : location) :
  2 ^ 52 <= M ->
  -1074 <= e + (Z.log2 M - 52) ->
  shr_fexp prec emax M e l
  = (Nat.iter (Z.to_nat (Z.log2 M - 52)) shr_1 (shr_record_of_loc M l),
     e + (Z.log2 M - 52)).
Proof.
  intros HM He.
  assert (H0 : 0 < M) by lia.
  assert (Hl : 52 <= Z.log2 M) by (apply Z.log2_le_pow2; lia).
  unfold shr_fexp. destruct M as [| p | p]; try lia. cbn [Zdigits2].
  rewrite Zdigits_log2, fexp_eq.
  replace (Z.max (Z.log2 (Zpos p) + 1 + e - 53) (-1074) - e) with (Z.log2 (Zpos p) - 52) by lia.
  unfold shr. destruct (Z.log2 (Zpos p) - 52) as [| n | n] eqn:En; [| | lia].
  - f_equal. lia.
  - rewrite iter_pos_nat. reflexivity.
Qed.

Lemma shifted_mantissa (M : Z) (l : location) :
  2 ^ 52 <= M ->
  shr_m (Nat.iter (Z.to_nat (Z.log2 M - 52)) shr_1 (shr_record_of_loc M l))
  = M / 2 ^ (Z.log2 M - 52).
Proof.
  intros HM.
  assert (Hl : 52 <= Z.log2 M) by (apply Z.log2_le_pow2; lia).
  destruct (Z.to_nat (Z.log2 M - 52)) as [| k] eqn:Ek.
  - cbn [Nat.iter nat_rect]. rewrite shr_m_of_loc.
    replace (Z.log2 M - 52) with 0 by lia. rewrite Z.pow_0_r, Z.div_1_r. reflexivity.
  - rewrite shr_steps by lia. cbn [shr_m]. f_equal. f_equal. lia.
Qed.

(** [binary_round_aux] in the normal range: the leading 53 bits [m] of the
    mantissa, or [m + 1], renormalised when the carry reaches 2^53. *)
Lemma round_aux_char (s : bool) (M e : Z) (l : location) :
  2 ^ 52 <= M ->
  -1074 <= e + (Z.log2 M - 52) <= 970 ->
  let n := Z.log2 M - 52 in
  let mrs := Nat.iter (Z.to_nat n) shr_1 (shr_record_of_loc M l) in
  let m2 := round_nearest_even (M / 2 ^ n) (loc_of_shr_record mrs) in
  2 ^ 52 <= M / 2 ^ n < 2 ^ 53
  /\ M / 2 ^ n <= m2 <= M / 2 ^ n + 1
  /\ binary_round_aux prec emax s M e l
     = if m2 <? 2 ^ 53 then S754_finite s (Z.to_pos m2) (e + n)
       else S754_finite s (Z.to_pos (2 ^ 52)) (e + n + 1).
Proof.
  intros HM He n mrs m2.
  assert (H0 : 0 < M) by lia.
  assert (Hl : 52 <= Z.log2 M) by (apply Z.log2_le_pow2; lia).
  pose proof (log2_range M H0) as Hr.
  assert (Hm : 2 ^ 52 <= M / 2 ^ n < 2 ^ 53).
  { apply leading_bits; [unfold n; lia |].
    replace (52 + n) with (Z.log2 M) by (unfold n; lia).
    replace (53 + n) with (Z.log2 M + 1) by (unfold n; lia). exact Hr. }
  pose proof (round_nearest_even_range (M / 2 ^ n) (loc_of_shr_record mrs)) as Hm2.
  fold m2 in Hm2.
  split; [exact Hm |]. split; [exact Hm2 |].
  unfold binary_round_aux. rewrite shr_fexp_char by lia. cbv beta iota.
  rewrite shifted_mantissa by lia. fold n. fold mrs. fold m2.
  destruct (renormalize s m2 (e + n) ltac:(lia) ltac:(lia) ltac:(lia))
    as (m' & e_r & E & Hm' & Hsame & Hcarry).
  rewrite E.
  destruct (Z.ltb_spec m2 (2 ^ 53)) as [Hlt | Hge].
  - destruct (Hsame Hlt) as [<- ->]. rewrite Pos2Z.id. reflexivity.
  - assert (m2 = 2 ^ 53) as Em by lia.
    destruct (Hcarry Em) as [Em' ->]. f_equal. lia.
Qed.

(** When nothing is lost the mantissa is not changed. *)
Lemma round_exact_bits (M : Z) (l : location) :
  2 ^ 52 <= M ->
  let n := Z.log2 M - 52 in
  is_exact l = true -> M mod 2 ^ n = 0 ->
  round_nearest_even (M / 2 ^ n)
    (loc_of_shr_record (Nat.iter (Z.to_nat n) shr_1 (shr_record_of_loc M l)))
  = M / 2 ^ n.
Proof.
  intros HM n Hl Hmod.
  assert (Hlog : 52 <= Z.log2 M) by (apply Z.log2_le_pow2; lia).
  destruct l; try discriminate.
  destruct (Z.to_nat n) as [| k] eqn:Ek; [reflexivity |].
  rewrite shr_steps by lia. cbn [is_exact andb].
  assert (En : n = Z.of_nat k + 1) by lia.
  assert (Hp : 0 < 2 ^ Z.of_nat k) by (apply Z.pow_pos_nonneg; lia).
  rewrite En, Z.pow_add_r, Z.pow_1_r in Hmod by lia.
  (* [M] is a multiple of [2 * 2^k] *)
  apply Z.mod_divide in Hmod; [| lia]. destruct Hmod as [c Hc].
  assert (E1 : M / 2 ^ Z.of_nat k = 2 * c).
  { rewrite Hc. replace (c * (2 ^ Z.of_nat k * 2)) with (2 * c * 2 ^ Z.of_nat k) by ring.
    apply Z.div_mul. lia. }
  assert (E2 : M mod 2 ^ Z.of_nat k = 0).
  { rewrite Hc. replace (c * (2 ^ Z.of_nat k * 2)) with (2 * c * 2 ^ Z.of_nat k) by ring.
    apply Z.mod_mul. lia. }
  rewrite E1, E2. rewrite Z.odd_mul. cbn. reflexivity.
Qed.

(** The decision on an exact mantissa: up when more than half a unit was
    shifted out, or exactly half a unit with an odd mantissa left. *)
Lemma round_decision (M : Z) :
  2 ^ 52 <= M ->
  let n := Z.log2 M - 52 in
  let m := M / 2 ^ n in
  let rho := M mod 2 ^ n in
  round_nearest_even m
    (loc_of_shr_record (Nat.iter (Z.to_nat n) shr_1 (shr_record_of_loc M loc_Exact)))
  = if (2 ^ n <? 2 * rho) || ((2 * rho =? 2 ^ n) && Z.odd m) then m + 1 else m.
Proof.
  intros HM n m rho.
  assert (Hlog : 52 <= Z.log2 M) by (apply Z.log2_le_pow2; lia).
  destruct (Z.to_nat n) as [| k] eqn:Ek.
  - assert (n = 0) as En by lia. unfold rho. rewrite En, Z.pow_0_r, Z.mod_1_r. reflexivity.
  - rewrite shr_steps by lia. cbn [is_exact andb]. rewrite andb_true_r.
    assert (En : n = Z.of_nat k + 1) by lia.
    assert (Hp : 0 < 2 ^ Z.of_nat k) by (apply Z.pow_pos_nonneg; lia).
    assert (Epow : 2 ^ n = 2 * 2 ^ Z.of_nat k) by (rewrite En, Z.pow_add_r, Z.pow_1_r by lia; ring).
    pose proof (Z.div_mod M (2 ^ Z.of_nat k) ltac:(lia)) as Hdm.
    pose proof (Z.mod_pos_bound M (2 ^ Z.of_nat k) Hp) as Hb.
    set (a := M / 2 ^ Z.of_nat k) in *. set (r := M mod 2 ^ Z.of_nat k) in *.
    assert (Ha : a = 2 * (a / 2) + a mod 2) by (apply Z.div_mod; lia).
    pose proof (Z.mod_pos_bound a 2 ltac:(lia)) as Hb2.
    assert (Hrho : rho = (a mod 2) * 2 ^ Z.of_nat k + r).
    { unfold rho. rewrite Epow. symmetry.
      apply (Z.mod_unique_pos _ _ (a / 2)); [nia |].
      rewrite Hdm at 1. rewrite Ha at 1. ring. }
    rewrite Hrho, Epow, (Zmod_odd a).
    destruct (Z.odd a); destruct (Z.eqb_spec r 0) as [Hr | Hr]; cbn [negb loc_of_shr_record].
    + (* exactly half *)
      replace (2 * 2 ^ Z.of_nat k <? 2 * (1 * 2 ^ Z.of_nat k + r)) with false
        by (symmetry; apply Z.ltb_ge; lia).
      replace (2 * (1 * 2 ^ Z.of_nat k + r) =? 2 * 2 ^ Z.of_nat k) with true
        by (symmetry; apply Z.eqb_eq; lia).
      cbn [orb andb round_nearest_even]. rewrite <- Z.negb_odd.
      destruct (Z.odd m); reflexivity.
    + replace (2 * 2 ^ Z.of_nat k <? 2 * (1 * 2 ^ Z.of_nat k + r)) with true
        by (symmetry; apply Z.ltb_lt; lia).
      reflexivity.
    + replace (2 * 2 ^ Z.of_nat k <? 2 * (0 * 2 ^ Z.of_nat k + r)) with false
        by (symmetry; apply Z.ltb_ge; lia).
      replace (2 * (0 * 2 ^ Z.of_nat k + r) =? 2 * 2 ^ Z.of_nat k) with false
        by (symmetry; apply Z.eqb_neq; lia).
      reflexivity.
    + replace (2 * 2 ^ Z.of_nat k <? 2 * (0 * 2 ^ Z.of_nat k + r)) with false
        by (symmetry; apply Z.ltb_ge; lia).
      replace (2 * (0 * 2 ^ Z.of_nat k + r) =? 2 * 2 ^ Z.of_nat k) with false
        by (symmetry; apply Z.eqb_neq; lia).
      reflexivity.
Qed.

(** Rounding an exact mantissa of at least 53 bits, made explicit. *)
Lemma round_aux_exact_loc (s : bool) (M e : Z) :
  2 ^ 52 <= M ->
  -1074 <= e + (Z.log2 M - 52) <= 970 ->
  let n := Z.log2 M - 52 in
  let m := M / 2 ^ n in
  let rho := M mod 2 ^ n in
  let m2 := if (2 ^ n <? 2 * rho) || ((2 * rho =? 2 ^ n) && Z.odd m) then m + 1 else m in
  binary_round_aux prec emax s M e loc_Exact
  = if m2 <? 2 ^ 53 then S754_finite s (Z.to_pos m2) (e + n)
    else S754_finite s (Z.to_pos (2 ^ 52)) (e + n + 1).
Proof.
  intros HM He n m rho m2.
  destruct (round_aux_char s M e loc_Exact HM He) as (_ & _ & E).
  rewrite E. rewrite (round_decision M HM). reflexivity.
Qed.

(** The result does not depend on how the value is written. *)
Lemma round_aux_scale (s : bool) (M e k : Z) :
  2 ^ 52 <= M -> 0 <= k ->
  -1074 <= e + (Z.log2 M - 52) <= 970 ->
  binary_round_aux prec emax s (M * 2 ^ k) (e - k) loc_Exact
  = binary_round_aux prec emax s M e loc_Exact.
Proof.
  intros HM Hk He.
  assert (Hpk : 0 < 2 ^ k) by (apply Z.pow_pos_nonneg; lia).
  assert (Hlog : 52 <= Z.log2 M) by (apply Z.log2_le_pow2; lia).
  assert (Hpn : 0 < 2 ^ (Z.log2 M - 52)) by (apply Z.pow_pos_nonneg; lia).
  assert (El : Z.log2 (M * 2 ^ k) = Z.log2 M + k) by (apply log2_shift; lia).
  rewrite (round_aux_exact_loc s (M * 2 ^ k) (e - k)); [| nia | rewrite El; lia].
  rewrite (round_aux_exact_loc s M e HM He).
  rewrite El.
  replace (Z.log2 M + k - 52) with (Z.log2 M - 52 + k) by lia.
  rewrite Z.pow_add_r by lia.
  rewrite Z.div_mul_cancel_r by lia.
  rewrite Z.mul_mod_distr_r by lia.
  set (n := Z.log2 M - 52). set (m := M / 2 ^ n). set (rho := M mod 2 ^ n).
  replace (2 ^ n * 2 ^ k <? 2 * (rho * 2 ^ k)) with (2 ^ n <? 2 * rho).
  2:{ destruct (Z.ltb_spec (2 ^ n) (2 * rho)), (Z.ltb_spec (2 ^ n * 2 ^ k) (2 * (rho * 2 ^ k)));
        try reflexivity; nia. }
  replace (2 * (rho * 2 ^ k) =? 2 ^ n * 2 ^ k) with (2 * rho =? 2 ^ n).
  2:{ destruct (Z.eqb_spec (2 * rho) (2 ^ n)), (Z.eqb_spec (2 * (rho * 2 ^ k)) (2 ^ n * 2 ^ k));
        try reflexivity; nia. }
  replace (e - k + (n + k)) with (e + n) by lia. reflexivity.
Qed.

Lemma leb_finite (m1 m2 : positive) (e1 e2 : Z) :
  e1 < e2 \/ (e1 = e2 /\ (m1 <= m2)%positive) ->
  leb (S754_finite false m1 e1) (S754_finite false m2 e2) = true.
Proof.
  intros H. unfold leb, SFleb. cbn [SFcompare].
  change (Pos.compare_cont Eq m1 m2) with (Pos.compare m1 m2).
  destruct (Z.compare_spec e1 e2); try reflexivity; try lia.
  destruct (Pos.compare_spec m1 m2); try reflexivity; lia.
Qed.

(** Rounding is monotone: mantissas at one exponent. *)
Lemma round_aux_mono_aligned (T1 T2 c : Z) :
  2 ^ 52 <= T1 -> T1 <= T2 ->
  -1074 <= c + (Z.log2 T1 - 52) -> c + (Z.log2 T2 - 52) <= 970 ->
  leb (binary_round_aux prec emax false T1 c loc_Exact)
      (binary_round_aux prec emax false T2 c loc_Exact) = true.
Proof.
  intros H1 H12 Hlo Hhi.
  assert (Hl1 : 52 <= Z.log2 T1) by (apply Z.log2_le_pow2; lia).
  pose proof (Z.log2_le_mono T1 T2 H12) as Hmono.
  rewrite (round_aux_exact_loc false T1 c) by lia.
  rewrite (round_aux_exact_loc false T2 c) by lia.
  destruct (round_aux_char false T1 c loc_Exact ltac:(lia) ltac:(lia)) as (Hm1 & _ & _).
  destruct (round_aux_char false T2 c loc_Exact ltac:(lia) ltac:(lia)) as (Hm2 & _ & _).
  set (n1 := Z.log2 T1 - 52) in *. set (n2 := Z.log2 T2 - 52) in *.
  set (m1 := T1 / 2 ^ n1) in *. set (m2 := T2 / 2 ^ n2) in *.
  set (r1 := T1 mod 2 ^ n1). set (r2 := T2 mod 2 ^ n2).
  set (u1 := (2 ^ n1 <? 2 * r1) || ((2 * r1 =? 2 ^ n1) && Z.odd m1)).
  set (u2 := (2 ^ n2 <? 2 * r2) || ((2 * r2 =? 2 ^ n2) && Z.odd m2)).
  assert (Hx1 : m1 <= (if u1 then m1 + 1 else m1) <= m1 + 1) by (destruct u1; lia).
  assert (Hx2 : m2 <= (if u2 then m2 + 1 else m2) <= m2 + 1) by (destruct u2; lia).
  assert (n1 = n2 \/ n1 < n2) as [En | Hn] by (unfold n1, n2; lia).
  - (* the same binade *)
    assert (Hp : 0 < 2 ^ n1) by (apply Z.pow_pos_nonneg; unfold n1; lia).
    assert (Hle : (if u1 then m1 + 1 else m1) <= (if u2 then m2 + 1 else m2)).
    { assert (Hm : m1 <= m2).
      { unfold m1, m2. rewrite <- En. apply Z.div_le_mono; lia. }
      assert (m1 < m2 \/ m1 = m2) as [Hlt | Heq] by lia.
      - destruct u1, u2; lia.
      - assert (Hr : r1 <= r2).
        { pose proof (Z.div_mod T1 (2 ^ n1) ltac:(lia)) as D1.
          pose proof (Z.div_mod T2 (2 ^ n1) ltac:(lia)) as D2.
          unfold r1, r2. rewrite <- En. fold m1 in D1.
          unfold m2 in Heq. rewrite <- En in Heq. rewrite <- Heq in D2. lia. }
        assert (Hu : u1 = true -> u2 = true).
        { unfold u1, u2. rewrite <- En, <- Heq. intros Hu.
          apply orb_true_iff in Hu as [Hu | Hu].
          - apply Z.ltb_lt in Hu. apply orb_true_iff. left. apply Z.ltb_lt. lia.
          - apply andb_true_iff in Hu as [Hu Ho]. apply Z.eqb_eq in Hu.
            apply orb_true_iff.
            assert (2 * r2 = 2 ^ n1 \/ 2 ^ n1 < 2 * r2) as [He | Hg] by lia.
            + right. apply andb_true_iff. split; [apply Z.eqb_eq; exact He | exact Ho].
            + left. apply Z.ltb_lt. exact Hg. }
        destruct u1, u2; lia. }
    rewrite <- En.
    destruct (Z.ltb_spec (if u1 then m1 + 1 else m1) (2 ^ 53)),
             (Z.ltb_spec (if u2 then m2 + 1 else m2) (2 ^ 53));
      apply leb_finite; lia.
  - (* a lower binade *)
    destruct (Z.ltb_spec (if u1 then m1 + 1 else m1) (2 ^ 53)),
             (Z.ltb_spec (if u2 then m2 + 1 else m2) (2 ^ 53));
      apply leb_finite; lia.
Qed.

(** [normalize] on a positive value, through [binary_round_aux] on a
    mantissa of at least 53 bits. *)
Lemma normalize_aux (z e k : Z) :
  0 < z -> 0 <= k -> 2 ^ 52 <= z * 2 ^ k ->
  -1074 <= e + (Z.log2 z - 52) <= 970 ->
  normalize z e = binary_round_aux prec emax false (z * 2 ^ k) (e - k) loc_Exact.
Proof.
  intros Hz Hk Hbig He. unfold normalize.
  pose proof (Z.log2_nonneg z) as Hl0.
  destruct z as [| p | p]; try lia. cbn [binary_normalize].
  assert (Z.log2 (Zpos p) < 52 \/ 52 <= Z.log2 (Zpos p)) as [Hs | Hb] by lia.
  - (* fewer than 53 bits: both sides are exact *)
    rewrite (round_exact false p e (Zpos p) 0) by (rewrite ?Z.pow_0_r; lia).
    assert (Hlk : 52 <= Z.log2 (Zpos p * 2 ^ k)) by (apply Z.log2_le_pow2; lia).
    rewrite log2_shift in Hlk by lia.
    assert (Hpk : 0 < Zpos p * 2 ^ k) by lia.
    destruct (Zpos p * 2 ^ k) as [| M | M] eqn:EM; try lia.
    rewrite (round_aux_exact false M (e - k) (Zpos p) k) by lia.
    f_equal. lia.
  - (* at least 53 bits: no left shift, and the scale does not matter *)
    rewrite round_aux_scale by (try apply Z.log2_le_pow2; lia || (apply Z.log2_le_pow2 in Hb; lia)).
    unfold binary_round. rewrite Zdigits_log2, fexp_eq.
    unfold shl_align.
    destruct (Z.max (Z.log2 (Zpos p) + 1 + e - 53) (-1074) - e) eqn:E; try lia; reflexivity.
Qed.

Lemma normalize_shape (z e : Z) :
  0 < z -> -1074 <= e + (Z.log2 z - 52) <= 970 ->
  exists m e', normalize z e = S754_finite false m e'
    /\ 2 ^ 52 <= Zpos m < 2 ^ 53
    /\ e + (Z.log2 z - 52) <= e' <= e + (Z.log2 z - 52) + 1.
Proof.
  intros Hz He.
  assert (Hp : 0 < 2 ^ 52) by reflexivity.
  rewrite (normalize_aux z e 52) by (try lia; nia).
  assert (Hl : Z.log2 (z * 2 ^ 52) = Z.log2 z + 52) by (apply log2_shift; lia).
  destruct (round_aux_char false (z * 2 ^ 52) (e - 52) loc_Exact) as (Hm & Hm2 & ->);
    [nia | rewrite Hl; lia |].
  rewrite Hl in *.
  set (m2 := round_nearest_even _ _) in *.
  replace (Z.log2 z + 52 - 52) with (Z.log2 z) in * by lia.
  destruct (Z.ltb_spec m2 (2 ^ 53)).
  - exists (Z.to_pos m2), (e - 52 + Z.log2 z). split; [reflexivity |]. split; lia.
  - exists (Z.to_pos (2 ^ 52)), (e - 52 + Z.log2 z + 1). split; [reflexivity |].
    split; [split; [reflexivity | reflexivity] | lia].
Qed.

Lemma normalize_mono (z1 z2 c : Z) :
  0 < z1 -> z1 <= z2 ->
  -1074 <= c + (Z.log2 z1 - 52) -> c + (Z.log2 z2 - 52) <= 970 ->
  leb (normalize z1 c) (normalize z2 c) = true.
Proof.
  intros Hz H12 Hlo Hhi.
  assert (Hp : 0 < 2 ^ 52) by reflexivity.
  pose proof (Z.log2_le_mono z1 z2 H12) as Hl.
  rewrite (normalize_aux z1 c 52), (normalize_aux z2 c 52) by (try lia; nia).
  apply round_aux_mono_aligned; try nia.
  - rewrite log2_shift by lia. lia.
  - rewrite log2_shift by lia. lia.
Qed.

Lemma normalize_scale (z e k : Z) :
  0 < z -> 0 <= k -> -1074 <= e + (Z.log2 z - 52) <= 970 ->
  normalize (z * 2 ^ k) (e - k) = normalize z e.
Proof.
  intros Hz Hk He.
  assert (Hp : 0 < 2 ^ 52) by reflexivity.
  assert (Hpk : 0 < 2 ^ k) by (apply Z.pow_pos_nonneg; lia).
  rewrite (normalize_aux (z * 2 ^ k) (e - k) 52);
    [| nia | lia | nia | rewrite log2_shift by lia; lia].
  rewrite (normalize_aux z e (52 + k));
    [| lia | lia | rewrite Z.pow_add_r by lia; nia | lia].
  f_equal; [rewrite Z.pow_add_r by lia; ring | lia].
Qed.



(** Values of plain doubles at a common exponent. *)
Lemma at_exp_zero (c : Z) : at_exp c zero = 0.
Proof. reflexivity. Qed.

Lemma at_exp_range (lo hi c : Z) (d : double) :
  positive_normal lo hi d -> c <= lo ->
  2 ^ (52 + lo - c) <= at_exp c d < 2 ^ (53 + hi - c).
Proof.
  intros (m & e & -> & Hm & He) Hc. unfold at_exp. cbn [mant expo].
  assert (H1 : 2 ^ (52 + lo - c) = 2 ^ 52 * 2 ^ (lo - c))
    by (rewrite <- Z.pow_add_r by lia; f_equal; lia).
  assert (H2 : 2 ^ (53 + hi - c) = 2 ^ 53 * 2 ^ (hi - c))
    by (rewrite <- Z.pow_add_r by lia; f_equal; lia).
  assert (H3 : 2 ^ (lo - c) <= 2 ^ (e - c)) by (apply Z.pow_le_mono_r; lia).
  assert (H4 : 2 ^ (e - c) <= 2 ^ (hi - c)) by (apply Z.pow_le_mono_r; lia).
  assert (H5 : 0 < 2 ^ (lo - c)) by (apply Z.pow_pos_nonneg; lia).
  rewrite H1, H2. split; nia.
Qed.

Lemma at_exp_plain (lo hi c : Z) (d : double) :
  plain lo hi d -> c <= lo -> lo <= hi -> 0 <= at_exp c d < 2 ^ (53 + hi - c).
Proof.
  intros [-> | H] Hc Hlh.
  - rewrite at_exp_zero. split; [lia | apply Z.pow_pos_nonneg; lia].
  - pose proof (at_exp_range lo hi c d H Hc).
    assert (0 < 2 ^ (52 + lo - c)) by (apply Z.pow_pos_nonneg; lia). lia.
Qed.






(** The product of two positive normal doubles. *)
Lemma mul_spec (lo hi c : Z) (x y : double) :
  positive_normal lo hi x -> positive_normal lo hi y ->
  c <= lo -> -1074 <= 2 * lo + 52 -> 2 * hi + 53 <= 970 ->
  mul x y = normalize (at_exp c x * at_exp c y) (2 * c).
Proof.
  intros (mx & ex & -> & Hmx & Hex) (my & ey & -> & Hmy & Hey) Hc Hlo Hhi.
  unfold at_exp. cbn [mant expo]. unfold mul, SFmul. cbn [xorb].
  assert (Hz : 2 ^ 104 <= Zpos mx * Zpos my < 2 ^ 106).
  { change (2 ^ 104) with (2 ^ 52 * 2 ^ 52). change (2 ^ 106) with (2 ^ 53 * 2 ^ 53). nia. }
  assert (Hlz : 104 <= Z.log2 (Zpos mx * Zpos my) < 106).
  { split; [apply Z.log2_le_pow2; lia | apply Z.log2_lt_pow2; lia]. }
  assert (H52 : 2 ^ 52 <= 2 ^ 104) by (apply Z.pow_le_mono_r; lia).
  replace (Zpos mx * 2 ^ (ex - c) * (Zpos my * 2 ^ (ey - c)))
    with (Zpos mx * Zpos my * 2 ^ (ex + ey - 2 * c)).
  2:{ replace (ex + ey - 2 * c) with ((ex - c) + (ey - c)) by lia.
      rewrite Z.pow_add_r by lia. ring. }
  replace (2 * c) with (ex + ey - (ex + ey - 2 * c)) at 2 by lia.
  rewrite (normalize_scale (Zpos mx * Zpos my) (ex + ey) (ex + ey - 2 * c)) by lia.
  rewrite (normalize_aux (Zpos mx * Zpos my) (ex + ey) 0) by (rewrite ?Z.pow_0_r; lia).
  rewrite Z.pow_0_r, Z.mul_1_r, Z.sub_0_r. reflexivity.
Qed.

(** The order of plain doubles is the order of their values. *)
Lemma leb_finite_inv (m1 m2 : positive) (e1 e2 : Z) :
  leb (S754_finite false m1 e1) (S754_finite false m2 e2) = true ->
  e1 < e2 \/ (e1 = e2 /\ Zpos m1 <= Zpos m2).
Proof.
  unfold leb, SFleb. cbn [SFcompare].
  change (Pos.compare_cont Eq m1 m2) with (Pos.compare m1 m2).
  destruct (Z.compare_spec e1 e2); try discriminate; try lia.
  destruct (Pos.compare_spec m1 m2); try discriminate; lia.
Qed.

Lemma ltb_finite_inv (m1 m2 : positive) (e1 e2 : Z) :
  ltb (S754_finite false m1 e1) (S754_finite false m2 e2) = true ->
  e1 < e2 \/ (e1 = e2 /\ Zpos m1 < Zpos m2).
Proof.
  unfold ltb, SFltb. cbn [SFcompare].
  change (Pos.compare_cont Eq m1 m2) with (Pos.compare m1 m2).
  destruct (Z.compare_spec e1 e2); try discriminate; try lia.
  destruct (Pos.compare_spec m1 m2); try discriminate; lia.
Qed.

Lemma value_order (m1 m2 e1 e2 c : Z) :
  2 ^ 52 <= m1 < 2 ^ 53 -> 2 ^ 52 <= m2 < 2 ^ 53 -> c <= e1 -> e1 < e2 ->
  m1 * 2 ^ (e1 - c) < m2 * 2 ^ (e2 - c).
Proof.
  intros H1 H2 Hc He.
  assert (E : 2 ^ (e2 - c) = 2 ^ (e2 - e1 - 1) * 2 * 2 ^ (e1 - c)).
  { rewrite <- (Z.pow_1_r 2) at 3. rewrite <- !Z.pow_add_r by lia. f_equal. lia. }
  assert (0 < 2 ^ (e2 - e1 - 1)) by (apply Z.pow_pos_nonneg; lia).
  assert (0 < 2 ^ (e1 - c)) by (apply Z.pow_pos_nonneg; lia).
  rewrite E.
  assert (m1 * 2 ^ (e1 - c) < 2 ^ 53 * 2 ^ (e1 - c)) by nia.
  assert (2 ^ 53 * 2 ^ (e1 - c) <= m2 * (2 * 2 ^ (e1 - c))) by nia.
  nia.
Qed.

Lemma leb_at_exp (lo hi c : Z) (x y : double) :
  plain lo hi x -> plain lo hi y -> c <= lo -> lo <= hi ->
  leb x y = true -> at_exp c x <= at_exp c y.
Proof.
  intros Hx Hy Hc Hlh H.
  pose proof (at_exp_plain lo hi c y Hy Hc Hlh) as Ry.
  destruct Hx as [-> | (mx & ex & -> & Hmx & Hex)]; [rewrite at_exp_zero; lia |].
  destruct Hy as [-> | (my & ey & -> & Hmy & Hey)]; [discriminate |].
  unfold at_exp. cbn [mant expo].
  apply leb_finite_inv in H as [He | [-> Hm]].
  - apply Z.lt_le_incl, value_order; lia.
  - assert (0 < 2 ^ (ey - c)) by (apply Z.pow_pos_nonneg; lia). nia.
Qed.


Lemma log2_bounds (z a b : Z) : 0 <= a -> 2 ^ a <= z < 2 ^ b -> a <= Z.log2 z < b.
Proof.
  intros Ha H. assert (0 < 2 ^ a) by (apply Z.pow_pos_nonneg; lia).
  split; [apply Z.log2_le_pow2; lia | apply Z.log2_lt_pow2; lia].
Qed.



Lemma positive_normal_weaken (lo hi lo' hi' : Z) (d : double) :
  positive_normal lo hi d -> lo' <= lo -> hi <= hi' -> positive_normal lo' hi' d.
Proof.
  intros (m & e & -> & Hm & He) Hl Hh. exists m, e. repeat split; lia.
Qed.









(** Products. *)
Lemma mul_value_range (lo hi : Z) (x y : double) :
  positive_normal lo hi x -> positive_normal lo hi y -> lo <= hi ->
  let z := at_exp lo x * at_exp lo y in
  0 < z /\ 104 <= Z.log2 z < 106 + 2 * (hi - lo).
Proof.
  intros Hx Hy Hlh z.
  pose proof (at_exp_range lo hi lo x Hx (Z.le_refl lo)) as Rx.
  pose proof (at_exp_range lo hi lo y Hy (Z.le_refl lo)) as Ry.
  replace (52 + lo - lo) with 52 in * by lia.
  replace (53 + hi - lo) with (53 + (hi - lo)) in * by lia.
  assert (E : 2 ^ (106 + 2 * (hi - lo)) = 2 ^ (53 + (hi - lo)) * 2 ^ (53 + (hi - lo))).
  { rewrite <- Z.pow_add_r by lia. f_equal. lia. }
  assert (E' : 2 ^ 104 = 2 ^ 52 * 2 ^ 52) by reflexivity.
  assert (Hp : 0 < 2 ^ 52) by reflexivity.
  assert (Hz : 2 ^ 104 <= z < 2 ^ (106 + 2 * (hi - lo))).
  { rewrite E, E'. unfold z. split; nia. }
  split; [lia | apply log2_bounds; [lia | exact Hz]].
Qed.

Lemma mul_mono (lo hi : Z) (x x' y y' : double) :
  positive_normal lo hi x -> positive_normal lo hi x' ->
  positive_normal lo hi y -> positive_normal lo hi y' ->
  -1074 <= 2 * lo + 52 -> lo <= hi -> 2 * hi + 54 <= 970 ->
  leb x x' = true -> leb y y' = true -> leb (mul x y) (mul x' y') = true.
Proof.
  intros Hx Hx' Hy Hy' Hlo Hlh Hhi Lx Ly.
  pose proof (leb_at_exp lo hi lo x x' (or_intror Hx) (or_intror Hx') (Z.le_refl lo) Hlh Lx).
  pose proof (leb_at_exp lo hi lo y y' (or_intror Hy) (or_intror Hy') (Z.le_refl lo) Hlh Ly).
  destruct (mul_value_range lo hi x y Hx Hy Hlh) as [P R].
  destruct (mul_value_range lo hi x' y' Hx' Hy' Hlh) as [P' R'].
  pose proof (at_exp_range lo hi lo x Hx (Z.le_refl lo)) as Rx.
  pose proof (at_exp_range lo hi lo y Hy (Z.le_refl lo)) as Ry.
  assert (0 < 2 ^ (52 + lo - lo)) by (apply Z.pow_pos_nonneg; lia).
  rewrite (mul_spec lo hi lo x y), (mul_spec lo hi lo x' y') by (assumption || lia).
  apply normalize_mono; try lia. nia.
Qed.

Lemma mul_shape (lo hi : Z) (x y : double) :
  positive_normal lo hi x -> positive_normal lo hi y ->
  -1074 <= 2 * lo + 52 -> lo <= hi -> 2 * hi + 54 <= 970 ->
  positive_normal (2 * lo + 52) (2 * hi + 54) (mul x y).
Proof.
  intros Hx Hy Hlo Hlh Hhi.
  destruct (mul_value_range lo hi x y Hx Hy Hlh) as [P R].
  rewrite (mul_spec lo hi lo x y) by (assumption || lia).
  destruct (normalize_shape _ (2 * lo) P ltac:(lia)) as (m & e & -> & Hm & He).
  exists m, e. repeat split; lia.
Qed.
















(** *** Quotients, products and integer parts *)

Lemma one_eq : one = S754_finite false 4503599627370496 (-52).
Proof. reflexivity. Qed.

Lemma leb_finite_Z (m1 : Z) (m2 : positive) (e1 e2 : Z) :
  0 < m1 -> e1 < e2 \/ (e1 = e2 /\ m1 <= Zpos m2) ->
  leb (S754_finite false (Z.to_pos m1) e1) (S754_finite false m2 e2) = true.
Proof.
  intros Hm H. apply leb_finite. destruct H as [H | [H1 H2]]; [left; exact H | right].
  split; [exact H1 | lia].
Qed.

(** The quotient of positive normal doubles is a positive normal double. *)
Lemma div_shape (lo hi : Z) (a b : double) :
  positive_normal lo hi a -> positive_normal lo hi b -> hi - lo <= 1020 ->
  positive_normal (lo - hi - 53) (hi - lo - 51) (div a b).
Proof.
  intros (ma & ea & -> & Hma & Hea) (mb & eb & -> & Hmb & Heb) Hr.
  unfold div, SFdiv, SFdiv_core_binary. cbn [xorb].
  rewrite (digits_53 (Zpos ma)), (digits_53 (Zpos mb)) by lia.
  set (kk := ea - eb).
  replace (53 + ea - (53 + eb)) with kk by (unfold kk; lia).
  rewrite fexp_eq.
  replace (Z.min (Z.max (kk - 53) (-1074)) kk) with (kk - 53) by (unfold kk; lia).
  replace (kk - (kk - 53)) with 53 by lia.
  cbv iota beta.
  destruct (Z.div_eucl (Z.shiftl (Zpos ma) 53) (Zpos mb)) as [q r] eqn:E.
  apply div_eucl_spec in E as [Eq_ _].
  rewrite Z.shiftl_mul_pow2 in Eq_ by lia.
  assert (Hq : 2 ^ 52 <= q < 2 ^ 54).
  { rewrite Eq_. split.
    - apply Z.div_le_lower_bound; [lia |]. nia.
    - apply Z.div_lt_upper_bound; [lia |]. nia. }
  destruct (round_aux_shape false q (kk - 53) (new_location (Zpos mb) r)
              Hq ltac:(unfold kk; lia) ltac:(unfold kk; lia))
    as (m' & e_r & Er & Hm' & Hsmall & Hbig).
  exists m', e_r. split; [exact Er |]. split; [exact Hm' |].
  assert (q < 2 ^ 53 \/ 2 ^ 53 <= q) as [Hs | Hb'] by lia.
  - destruct (Hsmall Hs) as [Hre _]. unfold kk in *. lia.
  - destruct (Hbig Hb') as [Hre _]. unfold kk in *. lia.
Qed.

(** Dividing a positive normal double by a double above 1 does not give
    more than the double itself. *)
Lemma div_by_more_than_one (lo hi : Z) (a r : double) :
  positive_normal lo hi a -> positive_normal lo hi r -> hi - lo <= 1020 ->
  ltb one r = true -> leb (div a r) a = true.
Proof.
  intros (ma & ea & -> & Hma & Hea) (mr & er & -> & Hmr & Her) Hr H1.
  rewrite one_eq in H1. apply ltb_finite_inv in H1.
  unfold div, SFdiv, SFdiv_core_binary. cbn [xorb].
  rewrite (digits_53 (Zpos ma)), (digits_53 (Zpos mr)) by lia.
  set (kk := ea - er).
  replace (53 + ea - (53 + er)) with kk by (unfold kk; lia).
  rewrite fexp_eq.
  replace (Z.min (Z.max (kk - 53) (-1074)) kk) with (kk - 53) by (unfold kk; lia).
  replace (kk - (kk - 53)) with 53 by lia.
  cbv iota beta.
  destruct (Z.div_eucl (Z.shiftl (Zpos ma) 53) (Zpos mr)) as [q rem] eqn:E.
  apply div_eucl_spec in E as [Eq_ _].
  rewrite Z.shiftl_mul_pow2 in Eq_ by lia.
  assert (Hq : 2 ^ 52 <= q < 2 ^ 54).
  { rewrite Eq_. split.
    - apply Z.div_le_lower_bound; [lia |]. nia.
    - apply Z.div_lt_upper_bound; [lia |]. nia. }
  assert (Hqm : q * Zpos mr <= Zpos ma * 2 ^ 53).
  { rewrite Eq_, Z.mul_comm. apply Z.mul_div_le. lia. }
  assert (Hl : 52 <= Z.log2 q <= 53).
  { split; [apply Z.log2_le_pow2; lia |].
    assert (Z.log2 q < 54) by (apply Z.log2_lt_pow2; lia). lia. }
  destruct (round_aux_char false q (kk - 53) (new_location (Zpos mr) rem)
              ltac:(lia) ltac:(unfold kk; lia)) as (Hlead & Hm2 & ->).
  set (n := Z.log2 q - 52) in *.
  set (m2 := round_nearest_even _ _) in *.
  assert (Hn : n = 0 \/ n = 1) by (unfold n; lia).
  assert (Hhalf : n = 1 -> er = -52 -> q / 2 ^ n + 1 <= Zpos ma).
  { intros -> ->. change (2 ^ 1) with 2.
    assert (q < 2 * Zpos ma) by nia.
    assert (q / 2 < Zpos ma) by (apply Z.div_lt_upper_bound; lia). lia. }
  destruct (Z.ltb_spec m2 (2 ^ 53)) as [Hc | Hc].
  - apply leb_finite_Z; [lia |].
    destruct Hn as [Hn | Hn]; unfold kk; rewrite Hn in *.
    + left. lia.
    + assert (-52 < er \/ er = -52) as [He | He] by lia; [left; lia | right].
      split; [lia |]. specialize (Hhalf eq_refl He). lia.
  - apply leb_finite_Z; [reflexivity |].
    destruct Hn as [Hn | Hn]; unfold kk; rewrite Hn in *.
    + assert (-52 < er \/ er = -52) as [He | He] by lia; [left; lia | right].
      split; [lia |]. change (Z.pos (Z.to_pos (2 ^ 52))) with (2 ^ 52) || idtac. lia.
    + assert (-51 < er \/ er = -51 \/ er = -52) as [He | [He | He]] by lia.
      * left. lia.
      * right. split; [lia | lia].
      * specialize (Hhalf eq_refl He). lia.
Qed.

Lemma ltb_finite_Z (m1 : positive) (m2 : Z) (e1 e2 : Z) :
  0 < m2 -> e1 < e2 \/ (e1 = e2 /\ Zpos m1 < m2) ->
  ltb (S754_finite false m1 e1) (S754_finite false (Z.to_pos m2) e2) = true.
Proof.
  intros Hm H. unfold ltb, SFltb. cbn [SFcompare].
  change (Pos.compare_cont Eq m1 (Z.to_pos m2)) with (Pos.compare m1 (Z.to_pos m2)).
  destruct (Z.compare_spec e1 e2); try reflexivity; try lia.
  destruct (Pos.compare_spec m1 (Z.to_pos m2)); try reflexivity; lia.
Qed.

(** The quotient of whole numbers [a > b > 0] below 2^51 is a double
    above 1. *)
Lemma div_ofZ_gt_one (a b : Z) :
  0 < b -> b < a -> a < 2 ^ 51 -> ltb one (div (ofZ a) (ofZ b)) = true.
Proof.
  intros Hb Hab Ha.
  assert (H51 : 2 ^ 51 < 2 ^ 53) by reflexivity.
  rewrite (ofZ_pos a), (ofZ_pos b) by lia.
  pose proof (Z.log2_nonneg a) as Hla. pose proof (Z.log2_nonneg b) as Hlb.
  assert (Hla' : Z.log2 a < 51) by (apply Z.log2_lt_pow2; lia).
  pose proof (Z.log2_le_mono b a ltac:(lia)) as Hmono.
  pose proof (mantissa_range a ltac:(lia)) as Hma.
  pose proof (mantissa_range b ltac:(lia)) as Hmb.
  pose proof (mantissa_eq a ltac:(lia)) as Ema.
  pose proof (mantissa_eq b ltac:(lia)) as Emb.
  set (ma := Z.to_pos (a * 2 ^ (52 - Z.log2 a))) in *.
  set (mb := Z.to_pos (b * 2 ^ (52 - Z.log2 b))) in *.
  rewrite <- Ema in Hma. rewrite <- Emb in Hmb.
  unfold div, SFdiv, SFdiv_core_binary. cbn [xorb].
  rewrite (digits_53 (Zpos ma)), (digits_53 (Zpos mb)) by lia.
  set (kk := Z.log2 a - Z.log2 b).
  replace (53 + (Z.log2 a - 52) - (53 + (Z.log2 b - 52))) with kk by (unfold kk; lia).
  replace (Z.log2 a - 52 - (Z.log2 b - 52)) with kk by (unfold kk; lia).
  rewrite fexp_eq.
  replace (Z.min (Z.max (kk - 53) (-1074)) kk) with (kk - 53) by (unfold kk; lia).
  replace (kk - (kk - 53)) with 53 by lia.
  cbv iota beta.
  destruct (Z.div_eucl (Z.shiftl (Zpos ma) 53) (Zpos mb)) as [q r] eqn:E.
  apply div_eucl_spec in E as [Eq_ _].
  rewrite Z.shiftl_mul_pow2 in Eq_ by lia.
  assert (Hq : 2 ^ 52 <= q < 2 ^ 54).
  { rewrite Eq_. split.
    - apply Z.div_le_lower_bound; [lia |]. nia.
    - apply Z.div_lt_upper_bound; [lia |]. nia. }
  assert (Hl : 52 <= Z.log2 q <= 53).
  { split; [apply Z.log2_le_pow2; lia |].
    assert (Z.log2 q < 54) by (apply Z.log2_lt_pow2; lia). lia. }
  assert (Hkk : 0 <= kk <= 51) by (unfold kk; lia).
  (* the gap between the mantissas *)
  assert (G0 : kk = 0 -> 2 ^ 53 + 2 <= q).
  { intros E0. assert (El : Z.log2 a = Z.log2 b) by (unfold kk in E0; lia).
    assert (HP : 2 <= 2 ^ (52 - Z.log2 a)).
    { change 2 with (2 ^ 1) at 1. apply Z.pow_le_mono_r; lia. }
    rewrite Eq_. apply Z.div_le_lower_bound; [lia |].
    rewrite Ema, Emb, <- El in *. nia. }
  assert (G1 : kk = 1 -> 2 ^ 52 + 1 <= q).
  { intros E1. assert (El : Z.log2 a = Z.log2 b + 1) by (unfold kk in E1; lia).
    assert (HP : 1 <= 2 ^ (52 - Z.log2 a)).
    { change 1 with (2 ^ 0) at 1. apply Z.pow_le_mono_r; lia. }
    assert (E2 : 2 ^ (52 - Z.log2 b) = 2 * 2 ^ (52 - Z.log2 a)).
    { replace (52 - Z.log2 b) with (1 + (52 - Z.log2 a)) by lia.
      rewrite Z.pow_add_r by lia. reflexivity. }
    rewrite Eq_. apply Z.div_le_lower_bound; [lia |].
    rewrite Ema, Emb, E2 in *. nia. }
  destruct (round_aux_char false q (kk - 53) (new_location (Zpos mb) r)
              ltac:(lia) ltac:(lia)) as (Hlead & Hm2 & ->).
  set (n := Z.log2 q - 52) in *.
  set (m2 := round_nearest_even _ _) in *.
  assert (Hn : n = 0 \/ n = 1) by (unfold n; lia).
  assert (Hn0 : kk = 0 -> n = 1).
  { intros E0. specialize (G0 E0).
    assert (53 <= Z.log2 q) by (apply Z.log2_le_pow2; lia). unfold n. lia. }
  assert (Hlead0 : kk = 0 -> 2 ^ 52 < q / 2 ^ n).
  { intros E0. rewrite (Hn0 E0). specialize (G0 E0). change (2 ^ 1) with 2.
    assert (2 ^ 52 + 1 <= q / 2); [| lia].
    apply Z.div_le_lower_bound; lia. }
  assert (Hlead1 : kk = 1 -> n = 0 -> 2 ^ 52 < q / 2 ^ n).
  { intros E1 ->. specialize (G1 E1). rewrite Z.pow_0_r, Z.div_1_r. lia. }
  rewrite one_eq.
  destruct (Z.ltb_spec m2 (2 ^ 53)) as [Hc | Hc].
  - apply ltb_finite_Z; [lia |].
    assert (2 <= kk + n \/ kk + n = 1) as [H2 | H1] by lia; [left; lia | right].
    split; [lia |].
    assert (kk = 0 \/ (kk = 1 /\ n = 0)) as [E0 | [E1 E0]] by lia.
    + specialize (Hlead0 E0). lia.
    + specialize (Hlead1 E1 E0). lia.
  - apply ltb_finite_Z; [reflexivity |]. left. lia.
Qed.

(** The integer part. *)
Lemma truncate_at_exp (lo hi c : Z) (d : double) :
  plain lo hi d -> c <= lo -> c <= 0 -> truncate d = at_exp c d / 2 ^ (- c).
Proof.
  intros [-> | (m & e & -> & Hm & He)] Hc Hc0; [reflexivity |].
  unfold at_exp. cbn [mant expo truncate].
  assert (Hp : 0 < 2 ^ (e - c)) by (apply Z.pow_pos_nonneg; lia).
  destruct e as [| p | p].
  - rewrite Z.pow_0_r, Z.mul_1_r. replace (0 - c) with (- c) by lia.
    rewrite Z.div_mul by lia. reflexivity.
  - replace (Zpos p - c) with (Zpos p + - c) by lia.
    rewrite Z.pow_add_r, Z.mul_assoc, Z.div_mul by lia. reflexivity.
  - assert (E : 2 ^ (- c) = 2 ^ Zpos p * 2 ^ (Zneg p - c)).
    { rewrite <- Z.pow_add_r by lia. f_equal. lia. }
    rewrite E, Z.div_mul_cancel_r by lia. reflexivity.
Qed.

Lemma truncate_mono (lo hi : Z) (x y : double) :
  plain lo hi x -> plain lo hi y -> lo <= hi -> leb x y = true ->
  0 <= truncate x <= truncate y.
Proof.
  intros Hx Hy Hlh L.
  set (c := Z.min lo 0).
  rewrite (truncate_at_exp lo hi c x), (truncate_at_exp lo hi c y) by (assumption || lia).
  pose proof (leb_at_exp lo hi c x y Hx Hy ltac:(lia) Hlh L).
  pose proof (at_exp_plain lo hi c x Hx ltac:(lia) Hlh).
  assert (0 < 2 ^ (- c)) by (apply Z.pow_pos_nonneg; lia).
  split; [apply Z.div_pos; lia | apply Z.div_le_mono; lia].
Qed.

Lemma truncate_ofZ (n : Z) : 0 <= n < 2 ^ 53 -> truncate (ofZ n) = n.
Proof.
  intros Hn. destruct (Z.eq_dec n 0) as [-> | Nn]; [reflexivity |].
  rewrite ofZ_pos by lia. cbn [truncate].
  pose proof (log2_below n ltac:(lia) ltac:(lia)). pose proof (Z.log2_nonneg n).
  rewrite mantissa_eq by lia.
  assert (Hp : 0 < 2 ^ (52 - Z.log2 n)) by (apply Z.pow_pos_nonneg; lia).
  destruct (Z.log2 n - 52) as [| p | p] eqn:E; [| lia |].
  - replace (52 - Z.log2 n) with 0 by lia. rewrite !Z.pow_0_r. lia.
  - replace (52 - Z.log2 n) with (Zpos p) in * by lia. apply Z.div_mul. lia.
Qed.

Lemma ofZ_plain (n : Z) : 0 <= n < 2 ^ 53 -> plain (-52) 0 (ofZ n).
Proof.
  intros Hn. destruct (Z.eq_dec n 0) as [-> | Nn]; [left; reflexivity | right].
  rewrite ofZ_pos by lia.
  pose proof (log2_below n ltac:(lia) ltac:(lia)). pose proof (Z.log2_nonneg n).
  exists (Z.to_pos (n * 2 ^ (52 - Z.log2 n))), (Z.log2 n - 52).
  split; [reflexivity |]. rewrite mantissa_eq by lia.
  split; [apply mantissa_range; lia | lia].
Qed.

Lemma ofZ_positive_normal (n : Z) : 0 < n < 2 ^ 53 -> positive_normal (-52) 0 (ofZ n).
Proof.
  intros Hn. destruct (ofZ_plain n ltac:(lia)) as [E | H]; [| exact H].
  rewrite ofZ_pos in E by lia. discriminate.
Qed.

Lemma leb_ltb_false (a b : double) : leb a b = true -> ltb b a = false.
Proof.
  unfold ltb, leb, SFltb, SFleb. rewrite (compare_antisym a b).
  destruct (SFcompare a b) as [[] |]; cbn; try discriminate; reflexivity.
Qed.


(** What an [unsigned long] attribute holds after a zero, an infinity or
    NaN is assigned to it, and where such values come from. *)
Lemma toUint32_special (d : double) :
  is_zero d || negb (finite d) = true -> toUint32 d = 0.
Proof. destruct d; try discriminate; reflexivity. Qed.

Lemma div_by_zero_special (x : double) (s : bool) :
  is_zero (div x (S754_zero s)) || negb (finite (div x (S754_zero s))) = true.
Proof. destruct x as [[] | [] | | []], s; reflexivity. Qed.

Lemma div_of_zero_special (y : double) (s : bool) :
  is_zero (div (S754_zero s) y) || negb (finite (div (S754_zero s) y)) = true.
Proof. destruct y as [[] | [] | | []], s; reflexivity. Qed.

Lemma div_by_infinity_special (x : double) (s : bool) :
  is_zero (div x (S754_infinity s)) || negb (finite (div x (S754_infinity s))) = true.
Proof. destruct x as [[] | [] | | []], s; reflexivity. Qed.

Lemma mul_by_special (x a : double) :
  is_zero a || negb (finite a) = true ->
  is_zero (mul x a) || negb (finite (mul x a)) = true.
Proof.
  destruct x as [[] | [] | | []], a as [[] | [] | | []]; try discriminate; reflexivity.
Qed.

Lemma ltb_one_special (a : double) :
  is_zero a || negb (finite a) = true -> ltb one a = true -> a = S754_infinity false.
Proof. destruct a as [[] | [] | |]; try discriminate; reflexivity. Qed.

End DoubleFacts.

(** ** Suppressor: the loops compute the greedy selection *)

Section Loops.
Variable threshold : Q.
Variable sorted : list Prediction.

Lemma nmsInner_fold (i : nat) (pi : Prediction) (js : list nat) :
  sorted !! i = Some pi ->
  forall (suppressed : gset nat) (j : nat),
    j ∈ foldl (nmsInner threshold sorted i) suppressed js <->
    j ∈ suppressed
    \/ (j ∈ js /\ exists pj, sorted !! j = Some pj /\ suppresses threshold pi pj = true).
Proof.
  intros Hi. induction js as [| j0 js IH]; intros suppressed j; simpl.
  - split; [auto | intros [H | [H _]]; [exact H | inversion H]].
  - rewrite IH. clear IH. unfold nmsInner. rewrite Hi.
    destruct (decide (j0 ∈ suppressed)) as [Hin | Hnin].
    + split.
      * intros [H | (H & pj & Hj & Hs)]; [auto | right; split; [set_solver | eauto]].
      * intros [H | (H & pj & Hj & Hs)]; [auto |].
        apply elem_of_cons in H as [-> | H]; [auto | right; eauto].
    + destruct (sorted !! j0) as [pj0 |] eqn:Ej0.
      * destruct (suppresses threshold pi pj0) eqn:Es.
        -- split.
           ++ intros [H | (H & pj & Hj & Hs)].
              ** apply elem_of_union in H as [H | H]; [| auto].
                 apply elem_of_singleton in H as ->.
                 right; split; [set_solver | eauto].
              ** right; split; [set_solver | eauto].
           ++ intros [H | (H & pj & Hj & Hs)]; [left; set_solver |].
              apply elem_of_cons in H as [-> | H]; [left; set_solver | right; eauto].
        -- split.
           ++ intros [H | (H & pj & Hj & Hs)]; [auto | right; split; [set_solver | eauto]].
           ++ intros [H | (H & pj & Hj & Hs)]; [auto |].
              apply elem_of_cons in H as [-> | H]; [| right; eauto].
              rewrite Ej0 in Hj. injection Hj as <-. congruence.
      * split.
        -- intros [H | (H & pj & Hj & Hs)]; [auto | right; split; [set_solver | eauto]].
        -- intros [H | (H & pj & Hj & Hs)]; [auto |].
           apply elem_of_cons in H as [-> | H]; [congruence | right; eauto].
Qed.

Lemma nmsOuter_fold (m : nat) :
  forall i keep suppressed,
    (i + m = length sorted)%nat ->
    loop_invariant threshold sorted i keep suppressed ->
    fst (foldl (nmsOuter threshold sorted) (keep, suppressed) (seq i m))
    = keep ++ greedy threshold keep (drop i sorted).
Proof.
  induction m as [| m IH]; intros i keep suppressed Hlen Hinv.
  - simpl. rewrite drop_ge by lia. simpl. rewrite app_nil_r. reflexivity.
  - destruct (lookup_lt_is_Some_2 sorted i) as [pi Hi]; [lia |].
    rewrite (drop_S _ _ _ Hi). simpl.
    destruct (decide (i ∈ suppressed)) as [Hin | Hnin].
    + pose proof (proj1 (Hinv i pi (Nat.le_refl i) Hi) Hin) as Hex.
      rewrite Hex. apply IH; [lia |].
      intros j pj Hj. apply Hinv. lia.
    + assert (Hex : existsb (fun p => suppresses threshold p pi) keep = false).
      { destruct (existsb _ keep) eqn:E; [| reflexivity].
        exfalso. apply Hnin. apply (Hinv i pi); [lia | exact Hi | exact E]. }
      rewrite Hex, Hi. rewrite IH; [rewrite <- app_assoc; reflexivity | lia |].
      intros j pj Hj Hpj.
      rewrite (nmsInner_fold i pi _ Hi), existsb_app. simpl. rewrite orb_false_r.
      rewrite orb_true_iff, <- (Hinv j pj) by (lia || exact Hpj).
      split.
      * intros [H | (_ & pj' & Hj' & Hs)]; [auto |].
        right. congruence.
      * intros [H | H]; [auto |]. right. split; [| eauto].
        apply elem_of_seq. apply lookup_lt_Some in Hpj. lia.
Qed.
End Loops.

Lemma processPredictions_greedy (preds : list Prediction) (threshold : Q) :
  processPredictions preds threshold = greedy threshold [] (sortByScore preds).
Proof.
  unfold processPredictions.
  rewrite (nmsOuter_fold threshold (sortByScore preds) (length (sortByScore preds)) 0 [] ∅).
  - reflexivity.
  - reflexivity.
  - intros j pj _ _. simpl. split; [set_solver | discriminate].
Qed.

(** ** Suppressor: sorting and selection *)

Lemma insertByScore_Forall (P : Prediction -> Prop) (p : Prediction) (l : list Prediction) :
  P p -> Forall P l -> Forall P (insertByScore p l).
Proof.
  intros Hp Hl. induction Hl as [| q l Hq Hl IH]; simpl.
  - constructor; [exact Hp | constructor].
  - destruct (Qltb (score p) (score q)).
    + constructor; assumption.
    + constructor; [exact Hp |]. constructor; assumption.
Qed.

Lemma sortByScore_Forall (P : Prediction -> Prop) (l : list Prediction) :
  Forall P l -> Forall P (sortByScore l).
Proof.
  induction 1 as [| p l Hp Hl IH]; simpl; [constructor |].
  apply insertByScore_Forall; assumption.
Qed.

Lemma sortByScore_length (l : list Prediction) : length (sortByScore l) = length l.
Proof.
  induction l as [| p l IH]; simpl; [reflexivity |].
  rewrite <- IH. generalize (sortByScore l) as s.
  induction s as [| q s IHs]; simpl; [reflexivity |].
  destruct (Qltb (score p) (score q)); simpl; [rewrite IHs |]; reflexivity.
Qed.

Lemma insertByScore_descending (p : Prediction) (l : list Prediction) :
  descending l -> descending (insertByScore p l).
Proof.
  unfold descending. induction 1 as [| q l Hs IH Hq]; simpl.
  - repeat constructor.
  - destruct (Qltb (score p) (score q)) eqn:E.
    + constructor; [exact IH |].
      apply insertByScore_Forall; [| exact Hq].
      apply Qltb_lt in E. lra.
    + apply Qltb_ge in E. constructor.
      * constructor; assumption.
      * constructor; [exact E |].
        eapply Forall_impl; [exact Hq |]. simpl. intros r Hr. lra.
Qed.

Lemma sortByScore_descending (l : list Prediction) : descending (sortByScore l).
Proof.
  induction l as [| p l IH]; simpl; [constructor |].
  apply insertByScore_descending, IH.
Qed.

(** Sorting leaves a list that is already in descending order as it is. *)
Lemma sortByScore_sorted (l : list Prediction) : descending l -> sortByScore l = l.
Proof.
  unfold descending. induction 1 as [| p l Hs IH Hp]; [reflexivity |].
  change (sortByScore (p :: l)) with (insertByScore p (sortByScore l)). rewrite IH.
  destruct Hp as [| q l Hq _]; simpl; [reflexivity |].
  apply Qltb_ge in Hq. rewrite Hq. reflexivity.
Qed.

Lemma greedy_Forall (P : Prediction -> Prop) (threshold : Q) (l : list Prediction) :
  Forall P l -> forall kept, Forall P (greedy threshold kept l).
Proof.
  induction 1 as [| q l Hq Hl IH]; intros kept; simpl; [constructor |].
  destruct (existsb _ kept); [apply IH |]. constructor; [exact Hq | apply IH].
Qed.

Lemma greedy_descending (threshold : Q) (l : list Prediction) :
  descending l -> forall kept, descending (greedy threshold kept l).
Proof.
  unfold descending. induction 1 as [| q l Hs IH Hq]; intros kept; simpl; [constructor |].
  destruct (existsb _ kept); [apply IH |].
  constructor; [apply IH | apply greedy_Forall, Hq].
Qed.

(** Selecting again from a selection keeps all of it. *)
Lemma greedy_idempotent (threshold : Q) (l : list Prediction) :
  forall kept, greedy threshold kept (greedy threshold kept l) = greedy threshold kept l.
Proof.
  induction l as [| q l IH]; intros kept; simpl; [reflexivity |].
  destruct (existsb _ kept) eqn:E; [apply IH |].
  simpl. rewrite E, IH. reflexivity.
Qed.

Lemma processPredictions_Forall (P : Prediction -> Prop) (preds : list Prediction) (t : Q) :
  Forall P preds -> Forall P (processPredictions preds t).
Proof.
  intros H. rewrite processPredictions_greedy.
  apply greedy_Forall, sortByScore_Forall, H.
Qed.

Lemma processPredictions_idempotent (preds : list Prediction) (t : Q) :
  processPredictions (processPredictions preds t) t = processPredictions preds t.
Proof.
  rewrite (processPredictions_greedy (processPredictions preds t)).
  rewrite !processPredictions_greedy.
  rewrite sortByScore_sorted by apply greedy_descending, sortByScore_descending.
  apply greedy_idempotent.
Qed.

Lemma filter_Forall_true {A : Type} (f : A -> bool) (l : list A) :
  Forall (fun x => f x = true) l -> List.filter f l = l.
Proof.
  induction 1 as [| x l Hx Hl IH]; simpl; [reflexivity |]. rewrite Hx, IH. reflexivity.
Qed.

Lemma filter_Forall_false {A : Type} (f : A -> bool) (l : list A) :
  Forall (fun x => f x = false) l -> List.filter f l = [].
Proof.
  induction 1 as [| x l Hx Hl IH]; simpl; [reflexivity |]. rewrite Hx, IH. reflexivity.
Qed.

Lemma filter_Forall {A : Type} (f : A -> bool) (l : list A) :
  Forall (fun x => f x = true) (List.filter f l).
Proof.
  induction l as [| x l IH]; simpl; [constructor |].
  destruct (f x) eqn:E; [constructor |]; assumption.
Qed.

(** C7.  The suppressor is idempotent: for every prediction list [p] and
    threshold [t], [applyNMS (applyNMS p t) t = applyNMS p t]. *)
Theorem applyNMS_idempotent (p : list Prediction) (t : Q) :
  applyNMS (applyNMS p t) t = applyNMS p t.
Proof.
  destruct (length p <=? 1)%nat eqn:Elen.
  - assert (E : applyNMS p t = p) by (unfold applyNMS; rewrite Elen; reflexivity).
    rewrite !E. reflexivity.
  - set (M := processPredictions (List.filter isCellPhone p) (2 # 10)).
    set (O := processPredictions (List.filter (fun q => negb (isCellPhone q)) p) t).
    assert (E : applyNMS p t = M ++ O) by (unfold applyNMS; rewrite Elen; reflexivity).
    assert (HM : Forall (fun q => isCellPhone q = true) M)
      by apply processPredictions_Forall, filter_Forall.
    assert (HO : Forall (fun q => negb (isCellPhone q) = true) O)
      by apply processPredictions_Forall, (filter_Forall (fun q => negb (isCellPhone q))).
    rewrite E. unfold applyNMS.
    destruct (length (M ++ O) <=? 1)%nat; [reflexivity |].
    rewrite !List.filter_app.
    rewrite (filter_Forall_true isCellPhone M HM).
    rewrite (filter_Forall_false isCellPhone O)
      by (eapply Forall_impl; [exact HO |]; intros q; apply negb_true_iff).
    rewrite (filter_Forall_false (fun q => negb (isCellPhone q)) M)
      by (eapply Forall_impl; [exact HM |]; simpl; intros q ->; reflexivity).
    rewrite (filter_Forall_true (fun q => negb (isCellPhone q)) O HO).
    rewrite app_nil_r. simpl.
    subst M O. rewrite !processPredictions_idempotent. reflexivity.
Qed.

(** ** Suppressor: the threshold *)

Lemma insertByScore_perm (p : Prediction) (l : list Prediction) :
  insertByScore p l ≡ₚ p :: l.
Proof.
  induction l as [| q l IH]; simpl; [reflexivity |].
  destruct (Qltb (score p) (score q)); [| reflexivity].
  rewrite IH. apply Permutation_swap.
Qed.

Lemma sortByScore_perm (l : list Prediction) : sortByScore l ≡ₚ l.
Proof.
  induction l as [| p l IH]; [reflexivity |].
  change (sortByScore (p :: l)) with (insertByScore p (sortByScore l)).
  rewrite insertByScore_perm, IH. reflexivity.
Qed.

Lemma suppresses_antitone (t1 t2 : Q) (x y : Prediction) :
  t1 <= t2 -> suppresses t2 x y = true -> suppresses t1 x y = true.
Proof.
  unfold suppresses. intros Ht H.
  apply andb_true_iff in H as [H1 H2]. rewrite H2, andb_true_r.
  apply Qltb_lt. apply Qltb_lt in H1. lra.
Qed.

(** Up to three candidates, a prediction that a higher threshold drops was
    suppressed by one that the lower threshold had dropped itself. *)
Lemma greedy_monotone_small (t1 t2 : Q) (s : list Prediction) :
  t1 <= t2 -> (length s <= 3)%nat ->
  (length (greedy t1 [] s) <= length (greedy t2 [] s))%nat.
Proof.
  intros Ht Hlen.
  destruct s as [| a [| b [| c [| d s]]]]; simpl in *; try lia.
  - pose proof (suppresses_antitone t1 t2 a b Ht) as Hab.
    destruct (suppresses t1 a b), (suppresses t2 a b); simpl; try lia.
  - pose proof (suppresses_antitone t1 t2 a b Ht) as Hab.
    pose proof (suppresses_antitone t1 t2 a c Ht) as Hac.
    pose proof (suppresses_antitone t1 t2 b c Ht) as Hbc.
    destruct (suppresses t1 a b), (suppresses t2 a b),
             (suppresses t1 a c), (suppresses t2 a c),
             (suppresses t1 b c), (suppresses t2 b c);
      simpl; try lia;
      try (specialize (Hab eq_refl); discriminate);
      try (specialize (Hac eq_refl); discriminate);
      try (specialize (Hbc eq_refl); discriminate).
Qed.

(** Suppression never crosses classes: among the predictions whose class
    satisfies [f], the selection is the selection made among them alone. *)
Lemma existsb_suppresses_filter (f : string -> bool) (t : Q) (q : Prediction)
    (kept : list Prediction) :
  f (class q) = true ->
  existsb (fun p => suppresses t p q) (List.filter (fun p => f (class p)) kept)
  = existsb (fun p => suppresses t p q) kept.
Proof.
  intros Hq. induction kept as [| p kept IH]; [reflexivity |].
  cbn [List.filter existsb].
  destruct (f (class p)) eqn:Ep; cbn [existsb]; rewrite IH; [reflexivity |].
  destruct (suppresses t p q) eqn:Es; [| reflexivity].
  unfold suppresses in Es. apply andb_true_iff in Es as [_ Ec].
  apply String.eqb_eq in Ec. congruence.
Qed.

Lemma greedy_filter_class (f : string -> bool) (t : Q) (l : list Prediction) :
  forall kept,
    List.filter (fun p => f (class p)) (greedy t kept l)
    = greedy t (List.filter (fun p => f (class p)) kept)
               (List.filter (fun p => f (class p)) l).
Proof.
  induction l as [| q l IH]; intros kept; [reflexivity |].
  cbn [greedy List.filter].
  destruct (f (class q)) eqn:Eq.
  - cbn [greedy]. rewrite (existsb_suppresses_filter f t q kept Eq).
    destruct (existsb (fun p => suppresses t p q) kept).
    + apply IH.
    + cbn [List.filter]. rewrite Eq, IH.
      rewrite List.filter_app. cbn [List.filter]. rewrite Eq. reflexivity.
  - destruct (existsb (fun p => suppresses t p q) kept).
    + apply IH.
    + cbn [List.filter]. rewrite Eq, IH.
      rewrite List.filter_app. cbn [List.filter]. rewrite Eq, app_nil_r. reflexivity.
Qed.

Lemma filter_split_length {A : Type} (f : A -> bool) (l : list A) :
  length l = (length (List.filter f l) + length (List.filter (fun x => negb (f x)) l))%nat.
Proof.
  induction l as [| x l IH]; [reflexivity |].
  cbn [List.filter]. destruct (f x); cbn [negb length]; lia.
Qed.

Lemma filter_filter_length {A : Type} (f g : A -> bool) (l : list A) :
  (length (List.filter f (List.filter g l)) <= length (List.filter f l))%nat.
Proof.
  induction l as [| x l IH]; [reflexivity |].
  cbn [List.filter].
  destruct (g x), (f x) eqn:E; cbn [List.filter length]; rewrite ?E; cbn [length]; lia.
Qed.

Lemma Permutation_filter_length {A : Type} (f : A -> bool) (l l' : list A) :
  l ≡ₚ l' -> length (List.filter f l) = length (List.filter f l').
Proof.
  induction 1; cbn [List.filter]; try reflexivity.
  - destruct (f x); cbn [length]; congruence.
  - destruct (f x), (f y); reflexivity.
  - congruence.
Qed.

(** With at most three candidates of any one class, raising the threshold
    never lowers the number kept: the candidates of the first one's class
    are settled among themselves, the others by induction. *)
Lemma greedy_monotone_by_class (t1 t2 : Q) (n : nat) :
  t1 <= t2 ->
  forall s : list Prediction,
    (length s <= n)%nat ->
    (forall c, (length (List.filter (fun q => String.eqb (class q) c) s) <= 3)%nat) ->
    (length (greedy t1 [] s) <= length (greedy t2 [] s))%nat.
Proof.
  intros Ht. induction n as [| n IH]; intros s Hn Hc.
  - destruct s; [reflexivity | simpl in Hn; lia].
  - destruct s as [| x s]; [reflexivity |].
    set (f := fun c => String.eqb c (class x)).
    rewrite (filter_split_length (fun p => f (class p)) (greedy t1 [] (x :: s))).
    rewrite (filter_split_length (fun p => f (class p)) (greedy t2 [] (x :: s))).
    rewrite !(greedy_filter_class f), !(greedy_filter_class (fun c => negb (f c))).
    assert (Ex : f (class x) = true) by (unfold f; apply String.eqb_refl).
    cbn [List.filter]. rewrite Ex. cbn [negb].
    apply Nat.add_le_mono.
    + apply greedy_monotone_small; [exact Ht |].
      specialize (Hc (class x)). cbn [List.filter] in Hc.
      rewrite String.eqb_refl in Hc. cbn [length] in *.
      unfold f. exact Hc.
    + apply IH.
      * pose proof (filter_split_length (fun p => f (class p)) s). simpl in Hn. lia.
      * intros c. etransitivity; [apply filter_filter_length |].
        specialize (Hc c). cbn [List.filter] in Hc.
        destruct (String.eqb (class x) c); cbn [length] in Hc; lia.
Qed.

Lemma applyNMS_length (p : list Prediction) (t : Q) :
  length (applyNMS p t) =
  if (length p <=? 1)%nat then length p
  else (length (processPredictions (List.filter isCellPhone p) (2 # 10))
        + length (greedy t [] (sortByScore (List.filter (fun q => negb (isCellPhone q)) p))))%nat.
Proof.
  unfold applyNMS. destruct (length p <=? 1)%nat; [reflexivity |].
  rewrite length_app, (processPredictions_greedy _ t). reflexivity.
Qed.

(** With four candidates of one class the count can drop when the threshold
    rises: at 0.1 the strip suppresses the wide book and both sides stay;
    at 0.3 the wide book stays and suppresses both sides. *)
Lemma applyNMS_fourBooks :
  applyNMS fourBooks (1 # 10) = [bookStrip; bookLeft; bookRight]
  /\ applyNMS fourBooks (3 # 10) = [bookStrip; bookWide].
Proof. split; vm_compute; reflexivity. Qed.

(** C8, counterexample.  Raising the threshold from 0.1 to 0.3 on
    [fourBooks] lowers the number of kept predictions from 3 to 2. *)
Lemma applyNMS_count_drops :
  (1 # 10) <= (3 # 10)
  /\ ~ (length (applyNMS fourBooks (1 # 10)) <= length (applyNMS fourBooks (3 # 10)))%nat.
Proof.
  split; [discriminate |].
  destruct applyNMS_fourBooks as [-> ->]. simpl. lia.
Qed.

(** C8, amended.  For every prediction list [p] that holds at most three
    predictions of any one class other than the device class, and
    thresholds [t1 <= t2], [applyNMS p t2] keeps at least as many
    predictions as [applyNMS p t1].  The number of classes and of device
    predictions is not limited. *)
Theorem applyNMS_count_monotone_per_class (p : list Prediction) (t1 t2 : Q) :
  t1 <= t2 ->
  (forall c : string, c <> "cell phone"%string ->
     (length (List.filter (fun q => String.eqb (class q) c) p) <= 3)%nat) ->
  (length (applyNMS p t1) <= length (applyNMS p t2))%nat.
Proof.
  intros Ht Hc. rewrite !applyNMS_length.
  destruct (length p <=? 1)%nat; [lia |].
  apply Nat.add_le_mono_l.
  apply (greedy_monotone_by_class t1 t2 _ Ht _ (Nat.le_refl _)).
  intros c.
  rewrite (Permutation_filter_length _ _ _ (sortByScore_perm _)).
  destruct (String.eqb_spec c "cell phone") as [-> | Hne].
  - assert (E : List.filter (fun q => String.eqb (class q) "cell phone")
                  (List.filter (fun q => negb (isCellPhone q)) p) = []).
    { clear. induction p as [| x p IH]; [reflexivity |].
      cbn [List.filter]. unfold isCellPhone at 1.
      destruct (String.eqb (class x) "cell phone") eqn:E; cbn [negb List.filter];
        rewrite ?E; exact IH. }
    rewrite E. simpl. lia.
  - etransitivity; [apply filter_filter_length | apply Hc, Hne].
Qed.

Lemma applyNMS_count_monotone_per_class_witness :
  (length (applyNMS [bookStrip; bookWide; centredPerson; bookLeft; deskLaptop; phoneHigh]
                    (1 # 10))
   <= length (applyNMS [bookStrip; bookWide; centredPerson; bookLeft; deskLaptop; phoneHigh]
                       (3 # 10)))%nat.
Proof.
  apply applyNMS_count_monotone_per_class; [discriminate |].
  intros c Hc.
  cbn [List.filter bookStrip bookWide centredPerson bookLeft deskLaptop phoneHigh class].
  destruct (String.eqb_spec "cell phone" c) as [E | _]; [congruence |].
  destruct (String.eqb_spec "book" c) as [<- | Hb]; [cbn; lia |].
  destruct (String.eqb "person" c), (String.eqb "laptop" c); cbn; lia.
Defined.

(** ** Geometry: the stated properties, on doubles *)







(** ** Temporal smoother *)

Lemma similarTo_matches (prediction pred : Prediction) :
  similarTo prediction pred = true <-> matches prediction pred.
Proof.
  unfold similarTo, matches, matchThreshold.
  destruct (String.eqb (class pred) (class prediction)) eqn:E; simpl.
  - apply String.eqb_eq in E. rewrite E, Qltb_lt. tauto.
  - apply String.eqb_neq in E. split; [discriminate | tauto].
Qed.

Lemma similarDetections_spec (history : list HistoryEntry) (prediction pred : Prediction) :
  In pred (similarDetections history prediction) <->
  (exists entry, In entry history /\ In pred (predictions entry)) /\ matches prediction pred.
Proof.
  unfold similarDetections.
  rewrite List.filter_In, in_flat_map, similarTo_matches. reflexivity.
Qed.

(** A prediction of the history that does not match takes no part. *)
Lemma smoothPrediction_ignores (h1 h2 : list HistoryEntry) (ts : Z)
    (p1 p2 : list Prediction) (q prediction : Prediction) :
  ~ matches prediction q ->
  smoothPrediction (h1 ++ mkHistoryEntry ts (p1 ++ q :: p2) :: h2) prediction
  = smoothPrediction (h1 ++ mkHistoryEntry ts (p1 ++ p2) :: h2) prediction.
Proof.
  intros Hq. unfold smoothPrediction.
  assert (E : similarDetections (h1 ++ mkHistoryEntry ts (p1 ++ q :: p2) :: h2) prediction
              = similarDetections (h1 ++ mkHistoryEntry ts (p1 ++ p2) :: h2) prediction).
  { unfold similarDetections.
    rewrite !flat_map_app. simpl. rewrite !List.filter_app. simpl.
    destruct (similarTo prediction q) eqn:Es; [| reflexivity].
    apply similarTo_matches in Es. contradiction. }
  rewrite E. reflexivity.
Qed.

Lemma Forall2_map_self {A B : Type} (P : A -> B -> Prop) (f : A -> B) (l : list A) :
  (forall x, P x (f x)) -> Forall2 P l (List.map f l).
Proof. intros H. induction l; simpl; constructor; auto. Qed.

(** C6.  For every hook state, time and list of current predictions, each
    smoothed prediction is either the current prediction itself or its
    fusion with predictions of the pruned history that all have its class
    and an IoU with it strictly above the threshold of that class (0.4 for
    the device class, 0.5 otherwise); and a history prediction of another
    class, or with an IoU at or below the threshold, does not change the
    outcome. *)
Theorem smoothing_fuses_only_matches (st : Hook) (now : Z)
    (currentPredictions : list Prediction) :
  Forall2
    (fun prediction out =>
       out = prediction
       \/ exists similar,
            out = fuse prediction similar
            /\ Forall (fun pred =>
                 (exists entry,
                    In entry (detectionHistoryRef (fst (applyTemporalSmoothing st now currentPredictions)))
                    /\ In pred (predictions entry))
                 /\ class pred = class prediction
                 /\ matchThreshold (class prediction)
                    < calculateIoU (bbox pred) (bbox prediction)) similar)
    currentPredictions
    (snd (applyTemporalSmoothing st now currentPredictions))
  /\ forall h1 h2 ts p1 p2 q prediction,
       (class q <> class prediction
        \/ calculateIoU (bbox q) (bbox prediction) <= matchThreshold (class prediction)) ->
       smoothPrediction (h1 ++ mkHistoryEntry ts (p1 ++ q :: p2) :: h2) prediction
       = smoothPrediction (h1 ++ mkHistoryEntry ts (p1 ++ p2) :: h2) prediction.
Proof.
  split.
  - unfold applyTemporalSmoothing.
    set (history := List.filter _ (detectionHistoryRef st ++ _)).
    destruct (length history <? 2)%nat; simpl.
    + apply Forall2_same_length_lookup. split; [reflexivity |].
      intros i x y Hx Hy. left. congruence.
    + apply Forall2_map_self. intros prediction.
      unfold smoothPrediction.
      destruct (2 <=? length (similarDetections history prediction))%nat; [| left; reflexivity].
      right. exists (similarDetections history prediction). split; [reflexivity |].
      apply List.Forall_forall. intros pred Hin.
      apply similarDetections_spec in Hin as [Hh [Hc Hi]]. auto.
  - intros h1 h2 ts p1 p2 q prediction Hq.
    apply smoothPrediction_ignores. intros [Hc Hi].
    destruct Hq as [Hq | Hq]; [contradiction | lra].
Qed.

Lemma smoothing_fuses_only_matches_witness :
  smoothPrediction
    ([] ++ mkHistoryEntry 0 ([centredPerson] ++ squarePhone :: []) :: []) centredPerson
  = smoothPrediction
      ([] ++ mkHistoryEntry 0 ([centredPerson] ++ []) :: []) centredPerson.
Proof.
  apply (proj2 (smoothing_fuses_only_matches loadedHook 0 [])).
  left. discriminate.
Defined.

(** ** Mobile validator *)

(** What the validator tests: the bands and the area are taken on
    positions 0 and 1 of the box, its corner, not on its width and height. *)
Lemma validateMobileDetection_reads (p : Prediction) :
  validateMobileDetection p = true <->
  (((35 # 100) <= bx (bbox p) / by_ (bbox p) <= (75 # 100)
    \/ (14 # 10) <= bx (bbox p) / by_ (bbox p) <= (28 # 10))
   /\ 1200 <= bx (bbox p) * by_ (bbox p)
   /\ (25 # 100) <= score p).
Proof.
  unfold validateMobileDetection, bbox_at.
  rewrite !andb_true_iff, orb_true_iff, !andb_true_iff, !Qle_bool_iff. tauto.
Qed.

(** C1, at the failing inputs.  A square device box with confidence 0.9 is
    accepted, by the validator and by the class filter, although its aspect
    ratio is 1; a portrait box of ratio 0.5 and area 5000 with confidence
    0.9 is rejected. *)
Theorem validateMobileDetection_uses_corner :
  (aspect_ratio squarePhone == 1 /\ score squarePhone == 9 # 10
   /\ ~ mobile_plausible_spec squarePhone
   /\ validateMobileDetection squarePhone = true
   /\ filterPrediction squarePhone = true)
  /\ (mobile_plausible_spec portraitPhone
      /\ validateMobileDetection portraitPhone = false
      /\ filterPrediction portraitPhone = false).
Proof.
  split.
  - split; [reflexivity |]. split; [reflexivity |].
    split; [| split; reflexivity].
    unfold mobile_plausible_spec.
    assert (E : aspect_ratio squarePhone == 1) by reflexivity.
    rewrite E. intros [[H | H] _]; lra.
  - split; [| split; reflexivity].
    unfold mobile_plausible_spec.
    assert (E : aspect_ratio portraitPhone == 5 # 10) by reflexivity.
    assert (E' : box_area portraitPhone == 5000) by reflexivity.
    rewrite E, E'. simpl. split; [left; lra | lra].
Qed.

(** ** Attention scorer *)

Lemma Math_round_percent (x : Q) : 0 <= x <= 100 -> percent (Math_round x).
Proof.
  intros [Hlo Hhi]. unfold percent, Math_round. split.
  - change 0%Z with (Qfloor 0). apply Qfloor_resp_le. lra.
  - change 100%Z with (Qfloor (100 + (1 # 2))). apply Qfloor_resp_le. lra.
Qed.

Ltac name_min_max :=
  repeat match goal with
  | |- context [Qmin ?a ?b] =>
      let m := fresh "m" in
      let Hm := fresh "Hm" in
      pose proof (Q.min_spec a b) as Hm;
      set (m := Qmin a b) in *; clearbody m
  | |- context [Qmax ?a ?b] =>
      let m := fresh "m" in
      let Hm := fresh "Hm" in
      pose proof (Q.max_spec a b) as Hm;
      set (m := Qmax a b) in *; clearbody m
  | _ : context [Qmin ?a ?b] |- _ =>
      let m := fresh "m" in
      let Hm := fresh "Hm" in
      pose proof (Q.min_spec a b) as Hm;
      set (m := Qmin a b) in *; clearbody m
  | _ : context [Qmax ?a ?b] |- _ =>
      let m := fresh "m" in
      let Hm := fresh "Hm" in
      pose proof (Q.max_spec a b) as Hm;
      set (m := Qmax a b) in *; clearbody m
  end.

Ltac split_cases :=
  repeat match goal with
  | H : _ \/ _ |- _ => destruct H
  | H : _ /\ _ |- _ => destruct H
  end.

Lemma focusScore_raw_range (smoothed : list Prediction) :
  0 <= focusScore_raw smoothed <= 100.
Proof.
  unfold focusScore_raw.
  match goal with |- context [Qmin 100 ?x] => generalize x end.
  intros x. name_min_max. split_cases; lra.
Qed.

Lemma personDetections_In (smoothed : list Prediction) (p : Prediction) :
  In p (personDetections smoothed) -> In p smoothed.
Proof. unfold personDetections. rewrite List.filter_In. tauto. Qed.

Section Frame.
Variables W H : Q.
Hypothesis W_pos : 0 < W.
Hypothesis H_pos : 0 < H.

Lemma centeredness_range (p : Prediction) :
  wellFormed W H p ->
  (5 # 10)
  <= 1 - Qabs ((bbox_at (bbox p) 0 + bbox_at (bbox p) 2 / 2) / W - (5 # 10))
  <= 1.
Proof.
  intros (_ & Hx & _ & Hw & _ & Hxw & _). cbn [bbox_at].
  assert (Hc : 0 <= (bx (bbox p) + bw (bbox p) / 2) / W <= 1).
  { unfold Qdiv at 2 4. change (/ 2) with (1 # 2). split.
    - apply Qle_shift_div_l; [exact W_pos | lra].
    - apply Qle_shift_div_r; [exact W_pos | lra]. }
  revert Hc. generalize ((bx (bbox p) + bw (bbox p) / 2) / W). intros c Hc.
  pose proof (Qabs_nonneg (c - (5 # 10))).
  assert (Qabs (c - (5 # 10)) <= 5 # 10) by (apply Qabs_Qle_condition; lra).
  lra.
Qed.

Lemma faceSize_nonneg (p : Prediction) :
  wellFormed W H p ->
  0 <= (bbox_at (bbox p) 2 * bbox_at (bbox p) 3) / (W * H).
Proof.
  intros (_ & _ & _ & Hw & Hh & _). cbn [bbox_at].
  apply Qle_shift_div_l; [nra | nra].
Qed.

Lemma eyeContactScore_raw_range (smoothed : list Prediction) :
  Forall (wellFormed W H) smoothed ->
  0 <= eyeContactScore_raw smoothed W <= 100.
Proof.
  intros Hwf. unfold eyeContactScore_raw.
  destruct (personDetections smoothed) as [| p [| p2 rest]] eqn:E.
  - lra.
  - assert (Hp : wellFormed W H p).
    { rewrite List.Forall_forall in Hwf. apply Hwf, personDetections_In.
      rewrite E. left. reflexivity. }
    pose proof (centeredness_range p Hp) as Hc. destruct Hp as [Hs _].
    revert Hc. match goal with |- context [1 - Qabs ?x] => generalize (1 - Qabs x) end.
    intros c Hc.
    destruct (0 <? length (mobileDevices smoothed))%nat;
      name_min_max; split_cases; lra.
  - assert (Hn : 2 <= inject_Z (Z.of_nat (length (p :: p2 :: rest)))).
    { change 2 with (inject_Z 2). rewrite <- Zle_Qle. simpl length. lia. }
    revert Hn. generalize (inject_Z (Z.of_nat (length (p :: p2 :: rest)))).
    intros n Hn. name_min_max. split_cases; lra.
Qed.

Lemma headPoseScore_raw_range (smoothed : list Prediction) :
  Forall (wellFormed W H) smoothed ->
  0 <= headPoseScore_raw smoothed W H <= 100.
Proof.
  intros Hwf. unfold headPoseScore_raw.
  destruct (personDetections smoothed) as [| p [| p2 rest]] eqn:E; try lra.
  assert (Hp : wellFormed W H p).
  { rewrite List.Forall_forall in Hwf. apply Hwf, personDetections_In.
    rewrite E. left. reflexivity. }
  pose proof (faceSize_nonneg p Hp) as Hf. destruct Hp as [Hs _].
  revert Hf.
  match goal with |- context [Qmin 40 (?x * 1000)] => generalize x end.
  intros f Hf.
  destruct (0 <? length (mobileDevices smoothed))%nat;
    name_min_max; split_cases; lra.
Qed.

(** The four published scores lie in [0, 100]. *)
Lemma newFocusMetrics_percent (smoothed : list Prediction) :
  Forall (wellFormed W H) smoothed ->
  let m := newFocusMetrics smoothed W H in
  percent (focusScore m) /\ percent (eyeContactScore m)
  /\ percent (headPoseScore m) /\ percent (overallAttention m).
Proof.
  intros Hwf. simpl.
  pose proof (focusScore_raw_range smoothed) as Hf.
  pose proof (eyeContactScore_raw_range smoothed Hwf) as He.
  pose proof (headPoseScore_raw_range smoothed Hwf) as Hh.
  split; [apply Math_round_percent, Hf |].
  split; [apply Math_round_percent, He |].
  split; [apply Math_round_percent, Hh |].
  apply Math_round_percent.
  set (t := focusScore_raw smoothed + eyeContactScore_raw smoothed W
            + headPoseScore_raw smoothed W H) in *.
  assert (0 <= t <= 300) by (unfold t; lra).
  split; [apply Qle_shift_div_l; lra | apply Qle_shift_div_r; lra].
Qed.
End Frame.

(** ** Well-formed predictions stay well-formed through the stages *)

Lemma applyNMS_Forall (P : Prediction -> Prop) (p : list Prediction) (t : Q) :
  Forall P p -> Forall P (applyNMS p t).
Proof.
  intros H. unfold applyNMS. destruct (length p <=? 1)%nat; [exact H |].
  apply Forall_app; split; apply processPredictions_Forall;
    rewrite List.Forall_forall in *; intros x Hx;
    apply List.filter_In in Hx; apply H, Hx.
Qed.

Lemma inject_Z_S (n : nat) : inject_Z (Z.of_nat (S n)) == inject_Z (Z.of_nat n) + 1.
Proof. rewrite Nat2Z.inj_succ, <- Z.add_1_r, inject_Z_plus. reflexivity. Qed.

Section Sums.
Variable f : Prediction -> Q.

Let total (a : Q) (l : list Prediction) : Q := foldl (fun sum pred => sum + f pred) a l.

Lemma sum_bounds (lo hi : Q) (l : list Prediction) :
  Forall (fun p => lo <= f p <= hi) l ->
  forall a,
    a + inject_Z (Z.of_nat (length l)) * lo <= total a l
    /\ total a l <= a + inject_Z (Z.of_nat (length l)) * hi.
Proof.
  induction 1 as [| p l Hp Hl IH]; intros a.
  - change (total a []) with a.
    change (inject_Z (Z.of_nat (length (@nil Prediction)))) with 0. split; lra.
  - change (total a (p :: l)) with (total (a + f p) l).
    destruct (IH (a + f p)) as [IH1 IH2].
    change (length (p :: l)) with (S (length l)). rewrite inject_Z_S.
    split; lra.
Qed.

Lemma sum_lower (lo : Q) (l : list Prediction) :
  Forall (fun p => lo <= f p) l ->
  forall a, a + inject_Z (Z.of_nat (length l)) * lo <= total a l.
Proof.
  induction 1 as [| p l Hp Hl IH]; intros a.
  - change (total a []) with a.
    change (inject_Z (Z.of_nat (length (@nil Prediction)))) with 0. lra.
  - change (total a (p :: l)) with (total (a + f p) l).
    specialize (IH (a + f p)).
    change (length (p :: l)) with (S (length l)). rewrite inject_Z_S. lra.
Qed.

Variable g : Prediction -> Q.

Lemma sum_pair_bound (c : Q) (l : list Prediction) :
  Forall (fun p => f p + g p <= c) l ->
  forall a b,
    total a l + foldl (fun sum pred => sum + g pred) b l
    <= a + b + inject_Z (Z.of_nat (length l)) * c.
Proof.
  induction 1 as [| p l Hp Hl IH]; intros a b.
  - change (total a []) with a.
    change (foldl (fun sum pred => sum + g pred) b []) with b.
    change (inject_Z (Z.of_nat (length (@nil Prediction)))) with 0. lra.
  - change (total a (p :: l)) with (total (a + f p) l).
    change (foldl (fun sum pred => sum + g pred) b (p :: l))
      with (foldl (fun sum pred => sum + g pred) (b + g p) l).
    specialize (IH (a + f p) (b + g p)).
    change (length (p :: l)) with (S (length l)). rewrite inject_Z_S. lra.
Qed.
End Sums.

Lemma length_pos_Q {A : Type} (l : list A) :
  (0 < length l)%nat -> 0 < inject_Z (Z.of_nat (length l)).
Proof. intros H. change 0 with (inject_Z 0). rewrite <- Zlt_Qlt. lia. Qed.

Lemma average_bounds (f : Prediction -> Q) (lo hi : Q) (l : list Prediction) :
  (0 < length l)%nat ->
  Forall (fun p => lo <= f p <= hi) l ->
  lo <= average f l <= hi.
Proof.
  intros Hn Hl. unfold average.
  destruct (sum_bounds f lo hi l Hl 0) as [H1 H2].
  pose proof (length_pos_Q l Hn) as Hpos.
  split.
  - apply Qle_shift_div_l; [exact Hpos | lra].
  - apply Qle_shift_div_r; [exact Hpos | lra].
Qed.

Lemma average_lower (f : Prediction -> Q) (lo : Q) (l : list Prediction) :
  (0 < length l)%nat -> Forall (fun p => lo <= f p) l -> lo <= average f l.
Proof.
  intros Hn Hl. unfold average.
  pose proof (length_pos_Q l Hn) as Hpos.
  pose proof (sum_lower f lo l Hl 0) as Hsum. cbv beta zeta in Hsum.
  apply Qle_shift_div_l; [exact Hpos | lra].
Qed.

Lemma average_pair_bound (f g : Prediction -> Q) (c : Q) (l : list Prediction) :
  (0 < length l)%nat ->
  Forall (fun p => f p + g p <= c) l ->
  average f l + average g l <= c.
Proof.
  intros Hn Hl. unfold average.
  pose proof (length_pos_Q l Hn) as Hpos.
  pose proof (sum_pair_bound f g c l Hl 0 0) as Hsum. cbv beta zeta in Hsum.
  revert Hsum.
  generalize (foldl (fun sum pred => sum + f pred) 0 l).
  generalize (foldl (fun sum pred => sum + g pred) 0 l).
  generalize dependent (inject_Z (Z.of_nat (length l))).
  intros n Hpos B A Hsum.
  assert (E : A / n + B / n == (A + B) / n) by (field; lra).
  rewrite E. apply Qle_shift_div_r; [exact Hpos | lra].
Qed.

Section FrameStages.
Variables W H : Q.

Lemma fuse_wellFormed (prediction : Prediction) (similar : list Prediction) :
  (0 < length similar)%nat ->
  Forall (wellFormed W H) similar ->
  wellFormed W H (fuse prediction similar).
Proof.
  intros Hn Hs. unfold wellFormed, inFrame, fuse. cbn [score bbox bx by_ bw bh bbox_at].
  assert (Hscore : 0 <= average score similar).
  { apply average_lower; [exact Hn |].
    eapply Forall_impl; [exact Hs |]. intros p Hp. apply Hp. }
  split.
  - set (boost := if String.eqb (class prediction) "cell phone"
                  then 115 # 100 else 11 # 10).
    assert (0 <= boost) by (unfold boost; destruct (String.eqb _ _); lra).
    assert (0 <= average score similar * boost) by nra.
    name_min_max. split_cases; lra.
  - repeat split.
    + apply average_lower; [exact Hn |].
      eapply Forall_impl; [exact Hs |]. intros p Hp. apply Hp.
    + apply average_lower; [exact Hn |].
      eapply Forall_impl; [exact Hs |]. intros p Hp. apply Hp.
    + apply average_lower; [exact Hn |].
      eapply Forall_impl; [exact Hs |]. intros p Hp. apply Hp.
    + apply average_lower; [exact Hn |].
      eapply Forall_impl; [exact Hs |]. intros p Hp. apply Hp.
    + apply average_pair_bound; [exact Hn |].
      eapply Forall_impl; [exact Hs |]. intros p Hp. apply Hp.
    + apply average_pair_bound; [exact Hn |].
      eapply Forall_impl; [exact Hs |]. intros p Hp. apply Hp.
Qed.

Lemma smoothPrediction_wellFormed (history : list HistoryEntry) (prediction : Prediction) :
  Forall (fun entry => Forall (wellFormed W H) (predictions entry)) history ->
  wellFormed W H prediction ->
  wellFormed W H (smoothPrediction history prediction).
Proof.
  intros Hh Hp. unfold smoothPrediction.
  destruct (2 <=? length (similarDetections history prediction))%nat eqn:E;
    [| exact Hp].
  apply Nat.leb_le in E. apply fuse_wellFormed; [lia |].
  apply List.Forall_forall. intros pred Hin.
  apply similarDetections_spec in Hin as [(entry & He & Hin) _].
  rewrite List.Forall_forall in Hh. specialize (Hh entry He).
  rewrite List.Forall_forall in Hh. apply Hh, Hin.
Qed.

Lemma applyTemporalSmoothing_wellFormed (st : Hook) (now : Z)
    (currentPredictions : list Prediction) :
  Forall (fun entry => Forall (wellFormed W H) (predictions entry))
         (detectionHistoryRef st) ->
  Forall (wellFormed W H) currentPredictions ->
  Forall (wellFormed W H) (snd (applyTemporalSmoothing st now currentPredictions)).
Proof.
  intros Hh Hc. unfold applyTemporalSmoothing.
  set (history := List.filter _ (detectionHistoryRef st ++ _)).
  assert (Hhist : Forall (fun entry => Forall (wellFormed W H) (predictions entry)) history).
  { apply List.Forall_forall. intros entry Hin.
    apply List.filter_In in Hin as [Hin _]. apply in_app_or in Hin as [Hin | Hin].
    - rewrite List.Forall_forall in Hh. apply Hh, Hin.
    - destruct Hin as [<- | []]. exact Hc. }
  destruct (length history <? 2)%nat; simpl; [exact Hc |].
  apply List.Forall_forall. intros out Hin.
  apply in_map_iff in Hin as (prediction & <- & Hin).
  apply smoothPrediction_wellFormed; [exact Hhist |].
  rewrite List.Forall_forall in Hc. apply Hc, Hin.
Qed.
End FrameStages.

(** ** Event log *)

Lemma slice_last_length {A : Type} (n : nat) (l : list A) :
  (length (slice_last n l) <= n)%nat.
Proof. unfold slice_last. rewrite length_drop. lia. Qed.

Lemma slice_last_short {A : Type} (n : nat) (l : list A) :
  (length l <= n)%nat -> slice_last n l = l.
Proof.
  intros H. unfold slice_last. replace (length l - n)%nat with 0%nat by lia. reflexivity.
Qed.

(** Trimming after each append keeps what one trim at the end keeps. *)
Lemma slice_last_app {A : Type} (n : nat) (l b : list A) :
  slice_last n (slice_last n l ++ b) = slice_last n (l ++ b).
Proof.
  destruct (Nat.le_gt_cases (length l) n) as [Hle | Hgt].
  - rewrite (slice_last_short n l Hle). reflexivity.
  - unfold slice_last. rewrite !length_app, length_drop.
    replace (length l - (length l - n) + length b - n)%nat with (length b) by lia.
    replace (length l + length b - n)%nat with ((length l - n) + length b)%nat by lia.
    rewrite <- (drop_drop (l ++ b)), (drop_app_le l b) by lia. reflexivity.
Qed.

Lemma applyTemporalSmoothing_detections (st : Hook) (now : Z) (cur : list Prediction) :
  detections (fst (applyTemporalSmoothing st now cur)) = detections st.
Proof.
  unfold applyTemporalSmoothing.
  match goal with |- context [if ?c then _ else _] => destruct c end; reflexivity.
Qed.

Lemma detectObjects_start_detections (st : Hook) (video : option VideoElement)
    (now : Z) (ctx2d : bool) :
  detections (snd (detectObjects_start st video now ctx2d)) = detections st.
Proof.
  unfold detectObjects_start.
  destruct video as [v |]; [| reflexivity].
  destruct (negb (modelRef st) || (readyState v <? 2)%Z || isDetecting st); [reflexivity |].
  destruct (now - lastDetectionTimeRef st <? 100)%Z; [reflexivity |].
  destruct (preprocessVideo ctx2d v); simpl;
    try destruct ((videoWidth v =? 0)%Z || (videoHeight v =? 0)%Z); reflexivity.
Qed.

(** What a pass that reached the detector's answer publishes. *)
Lemma detectObjects_resume_some (st : Hook) (processedCanvas : option Canvas)
    (inputElement : InputElement) (raw : list Prediction) (smoothNow currentTime : Z) :
  let smoothed :=
    snd (applyTemporalSmoothing st smoothNow
           (applyNMS (List.filter filterPrediction raw) (3 # 10))) in
  let new := makeDetections currentTime smoothed in
  exists res st',
    detectObjects_resume st processedCanvas inputElement (Some raw) smoothNow currentTime
    = (Some res, st')
    /\ r_predictions res = smoothed
    /\ newDetections res = new
    /\ focusMetrics st'
       = newFocusMetrics smoothed (input_width inputElement) (input_height inputElement)
    /\ detections st'
       = (if (0 <? length new)%nat then pushDetections (detections st) new
          else detections st).
Proof.
  intros smoothed new. subst smoothed new. unfold detectObjects_resume.
  pose proof (applyTemporalSmoothing_detections st smoothNow
                (applyNMS (List.filter filterPrediction raw) (3 # 10))) as Hd.
  destruct (applyTemporalSmoothing st smoothNow
              (applyNMS (List.filter filterPrediction raw) (3 # 10))) as [st1 smoothed].
  simpl in Hd. cbn [snd].
  eexists _, _. split; [reflexivity |].
  cbn [r_predictions newDetections]. rewrite <- Hd.
  destruct processedCanvas; repeat split; reflexivity.
Qed.

Lemma detectObjects_log (st : Hook) (i : PassInput) :
  (length (detections st) <= 50)%nat ->
  detections (snd (detectObjects st i))
  = slice_last 50 (detections st ++ eventsOf [fst (detectObjects st i)]).
Proof.
  intros Hlen. unfold detectObjects.
  pose proof (detectObjects_start_detections st (in_video i) (in_now i) (in_ctx2d i)) as Hs.
  destruct (detectObjects_start st (in_video i) (in_now i) (in_ctx2d i)) as [[| | c e] st1];
    cbn [snd] in Hs.
  - cbn. rewrite app_nil_r, slice_last_short; [congruence | exact Hlen].
  - cbn. rewrite app_nil_r, slice_last_short; [congruence | exact Hlen].
  - destruct (in_detected i) as [raw |].
    + destruct (detectObjects_resume_some st1 c e raw (in_smoothNow i) (in_currentTime i))
        as (res & st2 & -> & _ & Hnew & _ & Hlog).
      cbn [fst snd eventsOf flat_map]. rewrite app_nil_r, Hlog, Hnew, Hs.
      destruct (0 <? length _)%nat eqn:E; [reflexivity |].
      apply Nat.ltb_ge in E.
      destruct (makeDetections _ _); [| simpl in E; lia].
      rewrite app_nil_r, slice_last_short; [reflexivity | exact Hlen].
    + cbn. rewrite app_nil_r, slice_last_short; [congruence | exact Hlen].
Qed.

Lemma runPasses_log (inputs : list PassInput) :
  forall st,
    (length (detections st) <= 50)%nat ->
    detections (snd (runPasses st inputs))
    = slice_last 50 (detections st ++ eventsOf (fst (runPasses st inputs))).
Proof.
  induction inputs as [| i inputs IH]; intros st Hlen.
  - cbn. rewrite app_nil_r, slice_last_short; [reflexivity | exact Hlen].
  - cbn [runPasses].
    pose proof (detectObjects_log st i Hlen) as H1.
    destruct (detectObjects st i) as [r st1]. cbn [fst snd] in H1.
    assert (Hlen1 : (length (detections st1) <= 50)%nat)
      by (rewrite H1; apply slice_last_length).
    specialize (IH st1 Hlen1).
    destruct (runPasses st1 inputs) as [rs st2]. cbn [fst snd] in IH |- *.
    rewrite IH, H1. unfold eventsOf. cbn [flat_map].
    rewrite app_nil_r, slice_last_app, <- app_assoc. reflexivity.
Qed.

(** C3.  From any log of at most 50 entries, a sequence of passes leaves
    the last 50 of the old entries followed by the appended events; so the
    log never exceeds 50 entries, and 60 events appended to an empty log
    leave exactly the last 50 of them, in order: the 10 oldest are evicted. *)
Theorem event_log_bounded_fifo (st : Hook) (inputs : list PassInput) :
  (length (detections st) <= 50)%nat ->
  let events := eventsOf (fst (runPasses st inputs)) in
  let log := detections (snd (runPasses st inputs)) in
  (length log <= 50)%nat
  /\ log = slice_last 50 (detections st ++ events)
  /\ (detections st = [] -> length events = 60%nat ->
      length log = 50%nat /\ log = drop 10 events).
Proof.
  intros Hlen events log.
  assert (E : log = slice_last 50 (detections st ++ events))
    by apply runPasses_log, Hlen.
  split; [rewrite E; apply slice_last_length |].
  split; [exact E |].
  intros Hempty H60. rewrite E, Hempty. cbn [app].
  unfold slice_last. rewrite H60. cbn [Nat.sub].
  split; [rewrite length_drop; lia | reflexivity].
Qed.

Lemma event_log_bounded_fifo_witness :
  let events := eventsOf (fst (runPasses loadedHook crowdPasses)) in
  let log := detections (snd (runPasses loadedHook crowdPasses)) in
  length events = 60%nat /\ length log = 50%nat /\ log = drop 10 events.
Proof.
  intros events log.
  destruct (event_log_bounded_fifo loadedHook crowdPasses) as (_ & _ & H).
  - cbn. lia.
  - assert (H60 : length events = 60%nat) by (vm_compute; reflexivity).
    split; [exact H60 |]. apply H; [reflexivity | exact H60].
Defined.

(** ** Published scores *)

(** C2, counterexample.  One pass on a 640 x 480 frame that detects a
    single centred person of confidence 0.5 publishes 80, 88, 77 and 81:
    the three scores are 80, 87.5 and 76.71875 before rounding, with mean
    81.40625, while the mean of the published 80, 88 and 77 rounds to 82. *)
Lemma overallAttention_not_mean_of_published :
  let m := focusMetrics (snd (detectObjects loadedHook personPass)) in
  wellFormed 640 480 centredPerson
  /\ m = mkFocusMetrics 80 88 77 81
  /\ overallAttention m
     <> Math_round ((inject_Z (focusScore m) + inject_Z (eyeContactScore m)
                     + inject_Z (headPoseScore m)) / 3).
Proof.
  split; [| split].
  - unfold wellFormed, inFrame, centredPerson. cbn [score bbox bx by_ bw bh].
    repeat apply conj; apply Qle_bool_iff; reflexivity.
  - vm_compute. reflexivity.
  - vm_compute. discriminate.
Qed.

(** C2, amended.  For every pass that receives the detector's predictions,
    with a frame of positive width and height and all predictions, current
    and remembered, of confidence in [0, 1] with their boxes inside the
    frame: the published [focusScore], [eyeContactScore], [headPoseScore]
    and [overallAttention] are integers in [0, 100], each of the first
    three is its score rounded to the nearest integer, and
    [overallAttention] is the mean of the three scores before their
    rounding, rounded to the nearest integer. *)
Theorem published_scores (st : Hook) (processedCanvas : option Canvas)
    (inputElement : InputElement) (raw : list Prediction) (smoothNow currentTime : Z) :
  let W := input_width inputElement in
  let H := input_height inputElement in
  0 < W -> 0 < H ->
  Forall (wellFormed W H) raw ->
  Forall (fun entry => Forall (wellFormed W H) (predictions entry))
         (detectionHistoryRef st) ->
  exists res st',
    detectObjects_resume st processedCanvas inputElement (Some raw) smoothNow currentTime
    = (Some res, st')
    /\ let m := focusMetrics st' in
       let s := r_predictions res in
       percent (focusScore m) /\ percent (eyeContactScore m)
       /\ percent (headPoseScore m) /\ percent (overallAttention m)
       /\ focusScore m = Math_round (focusScore_raw s)
       /\ eyeContactScore m = Math_round (eyeContactScore_raw s W)
       /\ headPoseScore m = Math_round (headPoseScore_raw s W H)
       /\ overallAttention m
          = Math_round ((focusScore_raw s + eyeContactScore_raw s W
                         + headPoseScore_raw s W H) / 3).
Proof.
  intros W H HW HH Hraw Hhist.
  destruct (detectObjects_resume_some st processedCanvas inputElement raw
              smoothNow currentTime) as (res & st' & E & Hs & _ & Hm & _).
  exists res, st'. split; [exact E |]. cbv zeta. rewrite Hm, Hs.
  assert (Hwf : Forall (wellFormed W H)
                  (snd (applyTemporalSmoothing st smoothNow
                          (applyNMS (List.filter filterPrediction raw) (3 # 10))))).
  { apply applyTemporalSmoothing_wellFormed; [exact Hhist |].
    apply applyNMS_Forall.
    rewrite List.Forall_forall in *. intros x Hx.
    apply List.filter_In in Hx. apply Hraw, Hx. }
  destruct (newFocusMetrics_percent W H HW HH _ Hwf) as (H1 & H2 & H3 & H4).
  repeat (split; [assumption |]).
  repeat split; reflexivity.
Qed.

Lemma published_scores_witness :
  exists res st',
    detectObjects_resume
      (snd (detectObjects_start loadedHook (Some readyVideo) 1000 true))
      (Some (mkCanvas 640 480)) (InputCanvas (mkCanvas 640 480))
      (Some [centredPerson]) 1005 1010
    = (Some res, st')
    /\ focusMetrics st' = mkFocusMetrics 80 88 77 81
    /\ percent (overallAttention (focusMetrics st')).
Proof.
  destruct (published_scores
              (snd (detectObjects_start loadedHook (Some readyVideo) 1000 true))
              (Some (mkCanvas 640 480)) (InputCanvas (mkCanvas 640 480))
              [centredPerson] 1005 1010)
    as (res & st' & E & H).
  - reflexivity.
  - reflexivity.
  - constructor; [| constructor].
    unfold wellFormed, inFrame, centredPerson. cbn [score bbox bx by_ bw bh].
    repeat apply conj; apply Qle_bool_iff; reflexivity.
  - constructor.
  - exists res, st'. split; [exact E |].
    split; [| apply H].
    vm_compute in E. injection E as _ <-. vm_compute. reflexivity.
Defined.

(** ** Orchestrator: the guards *)

(** C4.  An invocation made while a detection is in flight, or less than
    100 ms after the start of the last accepted invocation, or while the
    model is not loaded, returns null and leaves the whole hook state as it
    was; an accepted invocation records its start time, and while it awaits
    the detector every further invocation is rejected. *)
Theorem rejected_invocations_change_nothing (st : Hook) (video : option VideoElement)
    (now : Z) (ctx2d : bool) (i : PassInput) :
  (isDetecting st = true \/ (now - lastDetectionTimeRef st < 100)%Z \/ modelRef st = false ->
   detectObjects_start st video now ctx2d = (Rejected, st))
  /\ (isDetecting st = true \/ (in_now i - lastDetectionTimeRef st < 100)%Z
      \/ modelRef st = false ->
      detectObjects st i = (None, st))
  /\ (fst (detectObjects_start st video now ctx2d) <> Rejected ->
      lastDetectionTimeRef (snd (detectObjects_start st video now ctx2d)) = now)
  /\ (forall c e st',
        detectObjects_start st video now ctx2d = (Awaiting c e, st') ->
        isDetecting st' = true
        /\ forall video2 now2 ctx2d2,
             detectObjects_start st' video2 now2 ctx2d2 = (Rejected, st')).
Proof.
  assert (Hrej : forall v t c,
            isDetecting st = true \/ (t - lastDetectionTimeRef st < 100)%Z
            \/ modelRef st = false ->
            detectObjects_start st v t c = (Rejected, st)).
  { intros v t c Hc. unfold detectObjects_start. destruct v as [v |]; [| reflexivity].
    destruct (negb (modelRef st) || (readyState v <? 2)%Z || isDetecting st) eqn:G;
      [reflexivity |].
    apply orb_false_iff in G as [G Hd]. apply orb_false_iff in G as [Hm _].
    apply negb_false_iff in Hm.
    destruct Hc as [Hc | [Hc | Hc]]; [congruence | | congruence].
    apply Z.ltb_lt in Hc. rewrite Hc. reflexivity. }
  split; [apply Hrej |].
  split; [intros Hc; unfold detectObjects; rewrite Hrej by exact Hc; reflexivity |].
  split.
  - unfold detectObjects_start. destruct video as [v |]; [| intros []; reflexivity].
    destruct (negb (modelRef st) || (readyState v <? 2)%Z || isDetecting st);
      [intros []; reflexivity |].
    destruct (now - lastDetectionTimeRef st <? 100)%Z; [intros []; reflexivity |].
    intros _.
    destruct (preprocessVideo ctx2d v); cbn;
      try destruct ((videoWidth v =? 0)%Z || (videoHeight v =? 0)%Z); reflexivity.
  - intros c e st' Hstart.
    assert (Hd : isDetecting st' = true).
    { revert Hstart. unfold detectObjects_start.
      destruct video as [v |]; [| discriminate].
      destruct (negb (modelRef st) || (readyState v <? 2)%Z || isDetecting st);
        [discriminate |].
      destruct (now - lastDetectionTimeRef st <? 100)%Z; [discriminate |].
      destruct (preprocessVideo ctx2d v); cbn;
        try destruct ((videoWidth v =? 0)%Z || (videoHeight v =? 0)%Z);
        intros Heq; inversion Heq; reflexivity. }
    split; [exact Hd |].
    intros video2 now2 ctx2d2. unfold detectObjects_start.
    destruct video2 as [v2 |]; [| reflexivity].
    rewrite Hd, orb_true_r. reflexivity.
Qed.

Lemma rejected_invocations_change_nothing_witness :
  detectObjects_start (snd (detectObjects_start loadedHook (Some readyVideo) 1000 true))
                      (Some readyVideo) 1050 true
  = (Rejected, snd (detectObjects_start loadedHook (Some readyVideo) 1000 true)).
Proof.
  apply (rejected_invocations_change_nothing
           (snd (detectObjects_start loadedHook (Some readyVideo) 1000 true))
           (Some readyVideo) 1050 true personPass).
  left. reflexivity.
Defined.

(** ** Orchestrator: the canvas *)

(** C5, at the failing input.  When the detector call throws after
    [preprocessVideo] returned a canvas, the pass ends with null and the
    canvas still live: [remove()] is reached on the normal return only. *)
Theorem canvas_not_released_when_detector_throws :
  (fst (detectObjects_start loadedHook (Some readyVideo) 1000 true)
   = Awaiting (Some (mkCanvas 640 480)) (InputCanvas (mkCanvas 640 480)))
  /\ fst (detectObjects loadedHook throwingPass) = None
  /\ isDetecting (snd (detectObjects loadedHook throwingPass)) = false
  /\ liveCanvases (snd (detectObjects loadedHook throwingPass)) = 1%nat
  /\ liveCanvases (snd (detectObjects loadedHook personPass)) = 0%nat.
Proof. repeat split; vm_compute; reflexivity. Qed.

(** On every pass that awaits the detector with a canvas, the canvas is
    removed when the detector answers and stays when it throws. *)
Lemma canvas_after_detector (st : Hook) (canvas : Canvas) (e : InputElement)
    (detected : option (list Prediction)) (smoothNow currentTime : Z) :
  liveCanvases (snd (detectObjects_resume st (Some canvas) e detected smoothNow currentTime))
  = match detected with
    | Some _ => Nat.pred (liveCanvases st)
    | None => liveCanvases st
    end.
Proof.
  destruct detected as [raw |]; [| reflexivity].
  unfold detectObjects_resume.
  assert (Hl : liveCanvases
                 (fst (applyTemporalSmoothing st smoothNow
                         (applyNMS (List.filter filterPrediction raw) (3 # 10))))
               = liveCanvases st).
  { unfold applyTemporalSmoothing.
    match goal with |- context [if ?c then _ else _] => destruct c end; reflexivity. }
  destruct (applyTemporalSmoothing st smoothNow _) as [st1 smoothed].
  cbn in Hl |- *. rewrite Hl. reflexivity.
Qed.

(** ** Whole passes *)

Lemma detectObjects_start_history (st : Hook) (video : option VideoElement)
    (now : Z) (ctx2d : bool) :
  detectionHistoryRef (snd (detectObjects_start st video now ctx2d))
  = detectionHistoryRef st.
Proof.
  unfold detectObjects_start.
  destruct video as [v |]; [| reflexivity].
  destruct (negb (modelRef st) || (readyState v <? 2)%Z || isDetecting st); [reflexivity |].
  destruct (now - lastDetectionTimeRef st <? 100)%Z; [reflexivity |].
  destruct (preprocessVideo ctx2d v); simpl;
    try destruct ((videoWidth v =? 0)%Z || (videoHeight v =? 0)%Z); reflexivity.
Qed.

(** A pass returns a result only through the detector's answer, with the
    history it started from; every other pass leaves the metrics alone. *)
Lemma detectObjects_publishes (st : Hook) (i : PassInput) :
  match fst (detectObjects st i) with
  | Some res =>
      exists c e st1 raw,
        detectObjects_start st (in_video i) (in_now i) (in_ctx2d i) = (Awaiting c e, st1)
        /\ in_detected i = Some raw
        /\ detectionHistoryRef st1 = detectionHistoryRef st
        /\ detectObjects_resume st1 c e (Some raw) (in_smoothNow i) (in_currentTime i)
           = detectObjects st i
  | None => focusMetrics (snd (detectObjects st i)) = focusMetrics st
  end.
Proof.
  unfold detectObjects.
  pose proof (detectObjects_start_history st (in_video i) (in_now i) (in_ctx2d i)) as Hh.
  assert (Hm : focusMetrics (snd (detectObjects_start st (in_video i) (in_now i) (in_ctx2d i)))
               = focusMetrics st).
  { unfold detectObjects_start.
    destruct (in_video i) as [v |]; [| reflexivity].
    destruct (negb (modelRef st) || (readyState v <? 2)%Z || isDetecting st); [reflexivity |].
    destruct (in_now i - lastDetectionTimeRef st <? 100)%Z; [reflexivity |].
    destruct (preprocessVideo (in_ctx2d i) v); simpl;
      try destruct ((videoWidth v =? 0)%Z || (videoHeight v =? 0)%Z); reflexivity. }
  destruct (detectObjects_start st (in_video i) (in_now i) (in_ctx2d i)) as [[| | c e] st1];
    cbn [fst snd] in *; try exact Hm.
  destruct (in_detected i) as [raw |]; [| exact Hm].
  destruct (detectObjects_resume_some st1 c e raw (in_smoothNow i) (in_currentTime i))
    as (res & st2 & E & _).
  rewrite E. cbn [fst]. exists c, e, st1, raw. rewrite E. auto.
Qed.

(** ** Scenarios of the specification *)

(** Two overlapping device boxes (IoU 0.5, confidences 0.9 and 0.6): the
    suppressor keeps the one of confidence 0.9. *)
Example scenario_overlapping_devices :
  calculateIoU (bbox phoneHigh) (bbox phoneLow) == 5 # 10
  /\ applyNMS [phoneHigh; phoneLow] (3 # 10) = [phoneHigh]
  /\ applyNMS [phoneLow; phoneHigh] (3 # 10) = [phoneHigh].
Proof. repeat split; vm_compute; reflexivity. Qed.

(** A device of confidence 0.8 seen by consecutive passes: from the second
    pass on its confidence is 0.8 * 1.15 = 0.92 and each pass logs one
    [mobile] event. *)
Example scenario_steady_device :
  let rs := fst (runPasses loadedHook steadyPasses) in
  List.map (fun r => match r with
                     | Some res => List.map (fun p => Qred (score p)) (r_predictions res)
                     | None => []
                     end) rs
  = [[4 # 5]; [23 # 25]; [23 # 25]]
  /\ List.map type (eventsOf rs) = [mobile; mobile; mobile].
Proof. split; vm_compute; reflexivity. Qed.

(** One centred person of confidence 0.9 and no device: focus 85 with the
    bonus, eye contact 98, and no [mobile] event. *)
Example scenario_attentive_person :
  let out := detectObjects loadedHook
               (mkPassInput (Some readyVideo) 1000 true (Some [confidentPerson]) 1005 1010) in
  focusMetrics (snd out) = mkFocusMetrics 85 98 89 90
  /\ List.map type (detections (snd out)) = [person].
Proof. split; vm_compute; reflexivity. Qed.

(** ** Suppressor: what is kept and what is dropped *)

Lemma greedy_sublist (t : Q) (l : list Prediction) :
  forall kept, greedy t kept l `sublist_of` l.
Proof.
  induction l as [| q l IH]; intros kept; simpl; [constructor |].
  destruct (existsb _ kept); [apply sublist_cons, IH | apply sublist_skip, IH].
Qed.

Lemma filter_partition_perm {A : Type} (f : A -> bool) (l : list A) :
  List.filter f l ++ List.filter (fun x => negb (f x)) l ≡ₚ l.
Proof.
  induction l as [| x l IH]; simpl; [reflexivity |].
  destruct (f x); simpl.
  - rewrite IH. reflexivity.
  - rewrite <- Permutation_middle, IH. reflexivity.
Qed.

Lemma processPredictions_submseteq (preds : list Prediction) (t : Q) :
  processPredictions preds t ⊆+ preds.
Proof.
  rewrite processPredictions_greedy.
  rewrite <- (sortByScore_perm preds) at 2.
  apply sublist_submseteq, greedy_sublist.
Qed.

Lemma applyNMS_submseteq (p : list Prediction) (t : Q) : applyNMS p t ⊆+ p.
Proof.
  unfold applyNMS. destruct (length p <=? 1)%nat; [reflexivity |].
  rewrite <- (filter_partition_perm isCellPhone p) at 3.
  apply submseteq_app; apply processPredictions_submseteq.
Qed.

(** X1.  The suppressor only selects: its output is contained in its input,
    counting repetitions, so it holds no prediction that was not given and
    no more predictions than were given. *)
Theorem applyNMS_selects (p : list Prediction) (t : Q) :
  applyNMS p t ⊆+ p
  /\ (length (applyNMS p t) <= length p)%nat
  /\ forall q, In q (applyNMS p t) -> In q p.
Proof.
  pose proof (applyNMS_submseteq p t) as H.
  split; [exact H |]. split; [apply submseteq_length, H |].
  intros q Hq. apply list_elem_of_In. eapply elem_of_submseteq; [| exact H].
  apply list_elem_of_In, Hq.
Qed.

Lemma applyNMS_selects_witness : In bookStrip fourBooks.
Proof.
  apply (proj2 (proj2 (applyNMS_selects fourBooks (1 # 10)))).
  vm_compute. left. reflexivity.
Defined.

Lemma greedy_pairwise (t : Q) (l : list Prediction) :
  forall kept,
    StronglySorted (fun a b => suppresses t a b = false) (greedy t kept l)
    /\ Forall (fun q => Forall (fun k => suppresses t k q = false) kept) (greedy t kept l).
Proof.
  induction l as [| q l IH]; intros kept; simpl; [split; constructor |].
  destruct (existsb (fun p => suppresses t p q) kept) eqn:E; [apply IH |].
  destruct (IH (kept ++ [q])) as [Hs Hk].
  assert (Hq : Forall (fun k => suppresses t k q = false) kept).
  { apply List.Forall_forall. intros k Hin.
    destruct (suppresses t k q) eqn:Ek; [| reflexivity].
    assert (existsb (fun p => suppresses t p q) kept = true)
      by (apply existsb_exists; eauto).
    congruence. }
  split.
  - constructor; [exact Hs |].
    eapply Forall_impl; [exact Hk |]. simpl. intros r Hr.
    apply Forall_app in Hr as [_ Hr]. inversion Hr; assumption.
  - constructor; [exact Hq |].
    eapply Forall_impl; [exact Hk |]. simpl. intros r Hr.
    apply Forall_app in Hr as [Hr _]. exact Hr.
Qed.

Lemma unsuppressed_compatible (thr t : Q) (a b : Prediction) :
  thr = nmsThreshold t a -> suppresses thr a b = false -> compatible t a b.
Proof.
  intros -> H Hc. unfold suppresses in H.
  apply String.eqb_eq in Hc. rewrite Hc, andb_true_r in H.
  apply Qltb_ge in H. exact H.
Qed.

Lemma applyNMS_compatible (p : list Prediction) (t : Q) :
  StronglySorted (compatible t) (applyNMS p t).
Proof.
  unfold applyNMS. destruct (length p <=? 1)%nat eqn:Elen.
  - apply Nat.leb_le in Elen.
    destruct p as [| x [| y p]]; simpl in Elen; try lia; repeat constructor.
  - set (M := processPredictions (List.filter isCellPhone p) (2 # 10)).
    set (O := processPredictions (List.filter (fun q => negb (isCellPhone q)) p) t).
    assert (HM : Forall (fun q => isCellPhone q = true) M)
      by apply processPredictions_Forall, filter_Forall.
    assert (HO : Forall (fun q => negb (isCellPhone q) = true) O)
      by apply processPredictions_Forall, (filter_Forall (fun q => negb (isCellPhone q))).
    apply StronglySorted_app. split; [| split].
    + intros a b Ha Hb Hc.
      rewrite List.Forall_forall in HM, HO.
      apply list_elem_of_In in Ha, Hb.
      specialize (HM a Ha). specialize (HO b Hb).
      unfold isCellPhone in HM, HO. rewrite Hc in HM. rewrite HM in HO. discriminate.
    + subst M. rewrite processPredictions_greedy in HM |- *.
      destruct (greedy_pairwise (2 # 10) (sortByScore (List.filter isCellPhone p)) [])
        as [Hs _].
      revert Hs HM. generalize (greedy (2 # 10) [] (sortByScore (List.filter isCellPhone p))).
      intros g Hs HM. induction Hs as [| a g Hs IH Ha]; [constructor |].
      inversion HM as [| ? ? Hpa HM']; subst.
      constructor; [apply IH, HM' |].
      eapply Forall_impl; [exact Ha |]. intros b Hb.
      apply (unsuppressed_compatible (2 # 10)); [| exact Hb].
      unfold nmsThreshold. rewrite Hpa. reflexivity.
    + subst O. rewrite processPredictions_greedy in HO |- *.
      destruct (greedy_pairwise t
                  (sortByScore (List.filter (fun q => negb (isCellPhone q)) p)) [])
        as [Hs _].
      revert Hs HO.
      generalize (greedy t [] (sortByScore (List.filter (fun q => negb (isCellPhone q)) p))).
      intros g Hs HO. induction Hs as [| a g Hs IH Ha]; [constructor |].
      inversion HO as [| ? ? Hpa HO']; subst.
      constructor; [apply IH, HO' |].
      eapply Forall_impl; [exact Ha |]. intros b Hb.
      apply (unsuppressed_compatible t); [| exact Hb].
      unfold nmsThreshold. apply negb_true_iff in Hpa. rewrite Hpa. reflexivity.
Qed.

(** X2.  No two kept predictions of one class overlap above the threshold of
    that class (0.2 for devices, [t] otherwise), in either order. *)
Theorem applyNMS_kept_apart (p : list Prediction) (t : Q)
    (l1 l2 l3 : list Prediction) (a b : Prediction) :
  applyNMS p t = l1 ++ a :: l2 ++ b :: l3 ->
  class a = class b ->
  calculateIoU (bbox a) (bbox b) <= nmsThreshold t a
  /\ calculateIoU (bbox b) (bbox a) <= nmsThreshold t a.
Proof.
  intros E Hc. pose proof (applyNMS_compatible p t) as Hs. rewrite E in Hs.
  apply StronglySorted_app in Hs as (_ & _ & Hs).
  apply StronglySorted_cons in Hs as [Ha _].
  apply Forall_app in Ha as [_ Ha]. inversion Ha as [| ? ? Hab _]; subst.
  split; [apply Hab, Hc |]. rewrite calculateIoU_sym. apply Hab, Hc.
Qed.

Lemma applyNMS_kept_apart_witness :
  calculateIoU (bbox bookStrip) (bbox bookRight) <= nmsThreshold (1 # 10) bookStrip
  /\ calculateIoU (bbox bookRight) (bbox bookStrip) <= nmsThreshold (1 # 10) bookStrip.
Proof.
  apply (applyNMS_kept_apart fourBooks (1 # 10) [] [bookLeft] [] bookStrip bookRight).
  - vm_compute. reflexivity.
  - reflexivity.
Defined.

Lemma greedy_dropped (t : Q) (l : list Prediction) :
  descending l ->
  forall kept q,
    In q l ->
    In q (greedy t kept l)
    \/ exists k,
         (In k kept \/ (In k (greedy t kept l) /\ score q <= score k))
         /\ suppresses t k q = true.
Proof.
  unfold descending. induction 1 as [| x l Hs IH Hx]; intros kept q Hq; [destruct Hq |].
  simpl. destruct (existsb (fun p => suppresses t p x) kept) eqn:E.
  - destruct Hq as [<- | Hq]; [| apply IH, Hq].
    right. apply existsb_exists in E as (k & Hk & Hsup). eauto.
  - destruct Hq as [<- | Hq]; [left; left; reflexivity |].
    destruct (IH (kept ++ [x]) q Hq) as [Hin | (k & Hk & Hsup)];
      [left; right; exact Hin |].
    right. exists k. split; [| exact Hsup].
    destruct Hk as [Hk | [Hk Hle]].
    + apply in_app_or in Hk as [Hk | [<- | []]]; [left; exact Hk |].
      right. split; [left; reflexivity |].
      rewrite List.Forall_forall in Hx. apply Hx, Hq.
    + right. split; [right; exact Hk | exact Hle].
Qed.

Lemma processPredictions_dropped (preds : list Prediction) (t : Q) (q : Prediction) :
  In q preds ->
  In q (processPredictions preds t)
  \/ exists k, In k (processPredictions preds t) /\ score q <= score k
               /\ suppresses t k q = true.
Proof.
  intros Hq. rewrite processPredictions_greedy.
  assert (Hq' : In q (sortByScore preds)).
  { apply list_elem_of_In. rewrite sortByScore_perm. apply list_elem_of_In, Hq. }
  destruct (greedy_dropped t (sortByScore preds) (sortByScore_descending preds) [] q Hq')
    as [H | (k & [[] | [Hk Hle]] & Hsup)]; [left; exact H |].
  right. eauto.
Qed.

(** X3.  A prediction is dropped only in favour of a kept prediction of the
    same class, of at least its confidence, whose IoU with it exceeds the
    threshold of the class. *)
Theorem applyNMS_dropped_is_covered (p : list Prediction) (t : Q) (q : Prediction) :
  In q p -> ~ In q (applyNMS p t) ->
  exists k,
    In k (applyNMS p t) /\ class k = class q /\ score q <= score k
    /\ nmsThreshold t q < calculateIoU (bbox k) (bbox q).
Proof.
  intros Hq Hnot. revert Hnot. unfold applyNMS.
  destruct (length p <=? 1)%nat; [intros Hnot; contradiction |].
  intros Hnot.
  assert (Hcov : forall preds thr,
             In q preds -> thr = nmsThreshold t q ->
             ~ In q (processPredictions preds thr) ->
             exists k, In k (processPredictions preds thr) /\ class k = class q
                       /\ score q <= score k
                       /\ nmsThreshold t q < calculateIoU (bbox k) (bbox q)).
  { intros preds thr Hin -> Hn.
    destruct (processPredictions_dropped preds (nmsThreshold t q) q Hin)
      as [H | (k & Hk & Hle & Hsup)]; [contradiction |].
    exists k. unfold suppresses in Hsup. apply andb_true_iff in Hsup as [Hi Hc].
    apply Qltb_lt in Hi. apply String.eqb_eq in Hc. auto. }
  destruct (isCellPhone q) eqn:Ephone.
  - destruct (Hcov (List.filter isCellPhone p) (2 # 10)) as (k & Hk & H);
      [apply List.filter_In; auto | unfold nmsThreshold; rewrite Ephone; reflexivity
      | intros H; apply Hnot, in_or_app; left; exact H |].
    exists k. split; [apply in_or_app; left; exact Hk | exact H].
  - destruct (Hcov (List.filter (fun x => negb (isCellPhone x)) p) t) as (k & Hk & H);
      [apply List.filter_In; rewrite Ephone; auto
      | unfold nmsThreshold; rewrite Ephone; reflexivity
      | intros H; apply Hnot, in_or_app; right; exact H |].
    exists k. split; [apply in_or_app; right; exact Hk | exact H].
Qed.

Lemma applyNMS_dropped_is_covered_witness :
  exists k,
    In k (applyNMS fourBooks (1 # 10)) /\ class k = class bookWide
    /\ score bookWide <= score k
    /\ nmsThreshold (1 # 10) bookWide < calculateIoU (bbox k) (bbox bookWide).
Proof.
  apply (applyNMS_dropped_is_covered fourBooks (1 # 10) bookWide).
  - right. left. reflexivity.
  - vm_compute. intros [H | [H | [H | []]]]; discriminate H.
Defined.

(** X4.  The output lists the device-class predictions first, then the others,
    each group in descending order of confidence. *)
Theorem applyNMS_devices_first (p : list Prediction) (t : Q) :
  exists mobiles others,
    applyNMS p t = mobiles ++ others
    /\ Forall (fun q => class q = "cell phone"%string) mobiles
    /\ Forall (fun q => class q <> "cell phone"%string) others
    /\ descending mobiles /\ descending others.
Proof.
  unfold applyNMS. destruct (length p <=? 1)%nat eqn:Elen.
  - apply Nat.leb_le in Elen.
    destruct p as [| x [| y p]]; simpl in Elen; try lia.
    + exists [], []. repeat split; constructor.
    + destruct (String.eqb (class x) "cell phone") eqn:E.
      * exists [x], []. apply String.eqb_eq in E.
        repeat split; repeat constructor. exact E.
      * exists [], [x]. apply String.eqb_neq in E.
        repeat split; repeat constructor. exact E.
  - eexists _, _. split; [reflexivity |].
    split; [| split; [| split]].
    + apply processPredictions_Forall.
      eapply Forall_impl; [apply filter_Forall |].
      intros q Hq. apply String.eqb_eq, Hq.
    + apply processPredictions_Forall.
      eapply Forall_impl; [apply (filter_Forall (fun q => negb (isCellPhone q))) |].
      intros q Hq. apply negb_true_iff in Hq. apply String.eqb_neq, Hq.
    + rewrite processPredictions_greedy.
      apply greedy_descending, sortByScore_descending.
    + rewrite processPredictions_greedy.
      apply greedy_descending, sortByScore_descending.
Qed.

(** ** Class filter *)

Lemma filterPrediction_score (pred : Prediction) :
  filterPrediction pred = true -> (25 # 100) <= score pred.
Proof.
  unfold filterPrediction, meetsThreshold.
  assert (H : (if existsb (String.eqb (class pred)) Object_prototype_keys then false
               else Qle_bool (default (5 # 10) (assoc (class pred) relevantClasses))
                             (score pred)) = true ->
              (25 # 100) <= score pred).
  { destruct (existsb _ Object_prototype_keys); [discriminate |].
    cbn [assoc relevantClasses].
    repeat match goal with
           | |- context [String.eqb ?a ?b] => destruct (String.eqb a b)
           end;
      cbn [from_option]; unfold Datatypes.id; intros H; apply Qle_bool_iff in H; lra. }
  destruct (String.eqb (class pred) "cell phone"); [| exact H].
  intros E. apply andb_true_iff in E as [E _]. apply H, E.
Qed.

(** X5.  Nothing below confidence 0.25 passes the class filter, whatever its
    class; and for the device class the table's threshold adds nothing:
    the filter accepts exactly what the validator accepts. *)
Theorem filterPrediction_floor (pred : Prediction) :
  (filterPrediction pred = true -> (25 # 100) <= score pred)
  /\ (class pred = "cell phone"%string ->
      filterPrediction pred = validateMobileDetection pred).
Proof.
  split; [apply filterPrediction_score |].
  intros Hc. unfold filterPrediction, meetsThreshold. rewrite Hc.
  change (String.eqb "cell phone" "cell phone") with true.
  change (existsb (String.eqb "cell phone") Object_prototype_keys) with false.
  change (assoc "cell phone" relevantClasses) with (Some (25 # 100)).
  cbn [from_option]. unfold Datatypes.id, validateMobileDetection.
  destruct (Qle_bool (25 # 100) (score pred)); [reflexivity |].
  rewrite andb_false_r. reflexivity.
Qed.

Lemma filterPrediction_floor_witness :
  (25 # 100) <= score steadyPhone
  /\ filterPrediction steadyPhone = validateMobileDetection steadyPhone.
Proof.
  destruct (filterPrediction_floor steadyPhone) as [H1 H2].
  split; [apply H1; reflexivity | apply H2; reflexivity].
Defined.

(** ** Temporal smoother: the histories *)

Lemma applyTemporalSmoothing_state (st : Hook) (now : Z)
    (currentPredictions : list Prediction) :
  fst (applyTemporalSmoothing st now currentPredictions)
  = {| modelRef := modelRef st;
       detections := detections st;
       focusMetrics := focusMetrics st;
       detectionHistoryRef :=
         List.filter (fun entry => (now - h_timestamp entry <=? historyWindow)%Z)
                     (detectionHistoryRef st ++ [mkHistoryEntry now currentPredictions]);
       lastDetectionTimeRef := lastDetectionTimeRef st;
       mobileDetectionHistory :=
         List.filter (fun entry => (now - m_timestamp entry <=? historyWindow)%Z)
           (mobileDetectionHistory st
            ++ List.map (fun pred => mkMobileEntry now (bbox pred) (score pred))
                        (List.filter isCellPhone currentPredictions));
       isDetecting := isDetecting st;
       liveCanvases := liveCanvases st |}.
Proof.
  unfold applyTemporalSmoothing. cbv zeta.
  match goal with |- context [if ?c then _ else _] => destruct c end; reflexivity.
Qed.

Lemma applyTemporalSmoothing_history (st : Hook) (now : Z)
    (currentPredictions : list Prediction) :
  detectionHistoryRef (fst (applyTemporalSmoothing st now currentPredictions))
  = List.filter (fun entry => (now - h_timestamp entry <=? historyWindow)%Z)
                (detectionHistoryRef st)
    ++ [mkHistoryEntry now currentPredictions].
Proof.
  rewrite applyTemporalSmoothing_state. cbn [detectionHistoryRef].
  rewrite List.filter_app. cbn [List.filter h_timestamp].
  rewrite Z.sub_diag. reflexivity.
Qed.

(** X6.  After a call at time [now] the history is the old entries that are at
    most 600 ms old, in their order, followed by the current frame; both
    histories hold only entries within the window; the log and the metrics
    are not touched. *)
Theorem applyTemporalSmoothing_histories (st : Hook) (now : Z)
    (currentPredictions : list Prediction) :
  let st' := fst (applyTemporalSmoothing st now currentPredictions) in
  detectionHistoryRef st'
  = List.filter (fun entry => (now - h_timestamp entry <=? historyWindow)%Z)
                (detectionHistoryRef st)
    ++ [mkHistoryEntry now currentPredictions]
  /\ Forall (fun entry => fresh now (h_timestamp entry)) (detectionHistoryRef st')
  /\ Forall (fun entry => fresh now (m_timestamp entry)) (mobileDetectionHistory st')
  /\ detections st' = detections st
  /\ focusMetrics st' = focusMetrics st.
Proof.
  cbv zeta. split; [apply applyTemporalSmoothing_history |].
  rewrite applyTemporalSmoothing_state.
  cbn [detectionHistoryRef mobileDetectionHistory detections focusMetrics].
  split; [| split; [| split; reflexivity]].
  - eapply Forall_impl; [apply filter_Forall |].
    intros entry H. apply Z.leb_le, H.
  - eapply Forall_impl; [apply filter_Forall |].
    intros entry H. apply Z.leb_le, H.
Qed.

Lemma smoothPrediction_class (history : list HistoryEntry) (prediction : Prediction) :
  class (smoothPrediction history prediction) = class prediction.
Proof.
  unfold smoothPrediction. destruct (2 <=? length _)%nat; reflexivity.
Qed.

Lemma applyTemporalSmoothing_classes (st : Hook) (now : Z)
    (currentPredictions : list Prediction) :
  List.map class (snd (applyTemporalSmoothing st now currentPredictions))
  = List.map class currentPredictions.
Proof.
  unfold applyTemporalSmoothing. cbv zeta.
  match goal with |- context [if ?c then _ else _] => destruct c end; cbn [snd];
    [reflexivity |].
  rewrite List.map_map. apply List.map_ext, smoothPrediction_class.
Qed.

(** X7.  Smoothing neither adds nor drops a prediction and never changes a
    class: the output has the length of the input and the same class at
    every position. *)
Theorem applyTemporalSmoothing_same_classes (st : Hook) (now : Z)
    (currentPredictions : list Prediction) :
  let out := snd (applyTemporalSmoothing st now currentPredictions) in
  length out = length currentPredictions
  /\ List.map class out = List.map class currentPredictions.
Proof.
  cbv zeta.
  pose proof (applyTemporalSmoothing_classes st now currentPredictions) as H.
  split; [| exact H].
  rewrite <- (length_map class), H. apply length_map.
Qed.

Lemma short_history_passes (st : Hook) (now : Z) (currentPredictions : list Prediction) :
  (length (detectionHistoryRef (fst (applyTemporalSmoothing st now currentPredictions))) < 2)%nat ->
  snd (applyTemporalSmoothing st now currentPredictions) = currentPredictions.
Proof.
  rewrite applyTemporalSmoothing_state. cbn [detectionHistoryRef].
  unfold applyTemporalSmoothing. cbv zeta. intros H.
  apply Nat.ltb_lt in H. rewrite H. reflexivity.
Qed.

(** X8.  With no history, or with a history whose entries are all older than
    600 ms, the predictions pass through unchanged. *)
Theorem applyTemporalSmoothing_after_gap (st : Hook) (now : Z)
    (currentPredictions : list Prediction) :
  Forall (fun entry => (historyWindow < now - h_timestamp entry)%Z)
         (detectionHistoryRef st) ->
  snd (applyTemporalSmoothing st now currentPredictions) = currentPredictions
  /\ detectionHistoryRef (fst (applyTemporalSmoothing st now currentPredictions))
     = [mkHistoryEntry now currentPredictions].
Proof.
  intros Hold.
  pose proof (applyTemporalSmoothing_history st now currentPredictions) as Hh.
  rewrite filter_Forall_false in Hh
    by (eapply Forall_impl; [exact Hold |]; intros entry H; apply Z.leb_gt, H).
  split; [| exact Hh].
  apply short_history_passes. rewrite Hh. cbn. lia.
Qed.

Lemma applyTemporalSmoothing_after_gap_witness :
  snd (applyTemporalSmoothing (snd (detectObjects loadedHook personPass)) 3000 [steadyPhone])
  = [steadyPhone].
Proof.
  apply (applyTemporalSmoothing_after_gap (snd (detectObjects loadedHook personPass))).
  vm_compute. repeat constructor.
Defined.

(** ** Temporal smoother: a steady detection *)

(** X9.  When at least two detections match the prediction and each of them
    has a confidence of at least [s], with [s] between 0 and 1, the smoothed
    prediction keeps the class and its confidence lies between [s] and 1:
    a detection that is seen steadily is never reported with less
    confidence than the lowest of its matching readings. *)
Theorem smoothPrediction_not_below_readings (history : list HistoryEntry)
    (prediction : Prediction) (s : Q) :
  (2 <= length (similarDetections history prediction))%nat ->
  Forall (fun pred => s <= score pred) (similarDetections history prediction) ->
  0 <= s <= 1 ->
  let out := smoothPrediction history prediction in
  class out = class prediction /\ s <= score out <= 1.
Proof.
  intros Hn Hs Hrange. cbv zeta. unfold smoothPrediction.
  apply Nat.leb_le in Hn. rewrite Hn. apply Nat.leb_le in Hn.
  unfold fuse. cbn [class score].
  split; [reflexivity |].
  assert (Havg : s <= average score (similarDetections history prediction))
    by (apply average_lower; [lia | exact Hs]).
  set (avg := average score (similarDetections history prediction)) in *.
  set (boost := if String.eqb (class prediction) "cell phone"
                then 115 # 100 else 11 # 10).
  assert (Hboost : 1 <= boost) by (unfold boost; destruct (String.eqb _ _); lra).
  assert (Hprod : s <= avg * boost) by nra.
  name_min_max. split_cases; lra.
Qed.

Lemma smoothPrediction_not_below_readings_witness :
  let history := [mkHistoryEntry 1005 [phoneLow]; mkHistoryEntry 1205 [phoneHigh]] in
  (6 # 10) <= score (smoothPrediction history phoneHigh) <= 1.
Proof.
  intros history.
  apply (smoothPrediction_not_below_readings history phoneHigh (6 # 10)).
  - vm_compute. lia.
  - vm_compute. repeat constructor; discriminate.
  - split; discriminate.
Defined.

(** ** Events of a pass *)

Lemma getDetectionType_some (className : string) :
  exists t, getDetectionType className = Some t /\ hookType t.
Proof.
  unfold getDetectionType, hookType.
  repeat match goal with
         | |- context [if ?c then _ else _] => destruct c
         end; eauto.
Qed.

Lemma makeDetections_lookup_from (currentTime : Z) (l : list Prediction) :
  forall (k i : nat) (p : Prediction),
    l !! i = Some p ->
    exists d,
      concat (imap (fun index prediction =>
        match getDetectionType (class prediction) with
        | Some detectionType =>
            [ {| id := (currentTime, k + index)%nat;
                 d_timestamp := currentTime;
                 type := detectionType;
                 confidence := score prediction;
                 d_bbox := bbox prediction;
                 description := (class prediction, score prediction * 100) |} ]
        | None => []
        end) l) !! i = Some d
      /\ id d = (currentTime, (k + i)%nat) /\ d_timestamp d = currentTime
      /\ confidence d = score p /\ d_bbox d = bbox p
      /\ description d = (class p, score p * 100)
      /\ getDetectionType (class p) = Some (type d).
Proof.
  induction l as [| x l IH]; intros k i p Hi; [discriminate |].
  cbn [imap concat].
  destruct (getDetectionType_some (class x)) as (t & Ht & _).
  rewrite Ht. cbn [app].
  destruct i as [| i].
  - injection Hi as <-. eexists. split; [reflexivity |].
    cbn [id d_timestamp confidence d_bbox description type].
    rewrite Nat.add_0_r. repeat split. exact Ht.
  - cbn [lookup list_lookup] in Hi |- *.
    destruct (IH (S k) i p Hi) as (d & Hd & Hid & H).
    exists d. split.
    + rewrite <- Hd. f_equal. f_equal. apply imap_ext. intros j y _. cbn.
      rewrite Nat.add_succ_r. reflexivity.
    + rewrite Hid, Nat.add_succ_r. auto.
Qed.

Lemma makeDetections_length (currentTime : Z) (l : list Prediction) :
  length (makeDetections currentTime l) = length l.
Proof.
  unfold makeDetections.
  assert (H : forall k,
    length (concat (imap (fun index prediction =>
      match getDetectionType (class prediction) with
      | Some detectionType =>
          [ {| id := (currentTime, k + index)%nat;
               d_timestamp := currentTime;
               type := detectionType;
               confidence := score prediction;
               d_bbox := bbox prediction;
               description := (class prediction, score prediction * 100) |} ]
      | None => []
      end) l)) = length l).
  { induction l as [| x l IH]; intros k; [reflexivity |].
    cbn [imap concat].
    destruct (getDetectionType_some (class x)) as (t & Ht & _). rewrite Ht.
    cbn [app length]. f_equal. rewrite <- (IH (S k)). f_equal. f_equal.
    apply imap_ext. intros j y _. cbn. rewrite Nat.add_succ_r. reflexivity. }
  apply (H 0%nat).
Qed.

(** X10.  Every smoothed prediction becomes one event, in order: the event at
    position [i] carries the pass time and [i] as its id and the
    confidence and box of prediction [i]; its type is [mobile], [person]
    or [unknown_object], never another; and no two events of a pass share
    an id. *)
Theorem makeDetections_one_per_prediction (currentTime : Z) (l : list Prediction) :
  length (makeDetections currentTime l) = length l
  /\ (forall i p, l !! i = Some p ->
        exists d, makeDetections currentTime l !! i = Some d
                  /\ id d = (currentTime, i) /\ d_timestamp d = currentTime
                  /\ confidence d = score p /\ d_bbox d = bbox p
                  /\ hookType (type d))
  /\ NoDup (List.map id (makeDetections currentTime l)).
Proof.
  assert (Hlook : forall i p, l !! i = Some p ->
            exists d, makeDetections currentTime l !! i = Some d
                      /\ id d = (currentTime, i) /\ d_timestamp d = currentTime
                      /\ confidence d = score p /\ d_bbox d = bbox p
                      /\ hookType (type d)).
  { intros i p Hi.
    destruct (makeDetections_lookup_from currentTime l 0 i p Hi)
      as (d & Hd & Hid & Ht & Hc & Hb & _ & Hty).
    exists d. repeat split; try assumption.
    destruct (getDetectionType_some (class p)) as (t & Ht' & Hhook). congruence. }
  split; [apply makeDetections_length |]. split; [exact Hlook |].
  apply NoDup_alt. intros i j x Hi Hj.
  assert (Hid : forall n, List.map id (makeDetections currentTime l) !! n = Some x ->
                          x = (currentTime, n)).
  { intros n Hn. apply list_lookup_fmap_Some in Hn as (d & -> & Hd).
    assert (Hlt : (n < length l)%nat)
      by (rewrite <- (makeDetections_length currentTime); eapply lookup_lt_Some, Hd).
    destruct (lookup_lt_is_Some_2 l n Hlt) as [p Hp].
    destruct (Hlook n p Hp) as (d' & Hd' & Hid' & _). congruence. }
  pose proof (Hid i Hi) as E1. pose proof (Hid j Hj) as E2. congruence.
Qed.

Lemma makeDetections_one_per_prediction_witness :
  exists d, makeDetections 1010 [centredPerson; steadyPhone] !! 1%nat = Some d
            /\ id d = (1010%Z, 1%nat) /\ d_timestamp d = 1010%Z
            /\ confidence d = score steadyPhone /\ d_bbox d = bbox steadyPhone
            /\ hookType (type d).
Proof.
  apply (proj1 (proj2 (makeDetections_one_per_prediction 1010 [centredPerson; steadyPhone]))).
  reflexivity.
Defined.

(** ** Passes that end without a result *)

Lemma detectObjects_start_keeps (st : Hook) (video : option VideoElement)
    (now : Z) (ctx2d : bool) :
  let st' := snd (detectObjects_start st video now ctx2d) in
  detections st' = detections st /\ focusMetrics st' = focusMetrics st
  /\ detectionHistoryRef st' = detectionHistoryRef st
  /\ mobileDetectionHistory st' = mobileDetectionHistory st
  /\ modelRef st' = modelRef st.
Proof.
  unfold detectObjects_start.
  destruct video as [v |]; [| repeat split].
  destruct (negb (modelRef st) || (readyState v <? 2)%Z || isDetecting st); [repeat split |].
  destruct (now - lastDetectionTimeRef st <? 100)%Z; [repeat split |].
  destruct (preprocessVideo ctx2d v); cbn;
    try destruct ((videoWidth v =? 0)%Z || (videoHeight v =? 0)%Z); repeat split.
Qed.

Lemma null_pass_keeps_log (st : Hook) (i : PassInput) :
  fst (detectObjects st i) = None ->
  detections (snd (detectObjects st i)) = detections st.
Proof.
  unfold detectObjects.
  pose proof (detectObjects_start_detections st (in_video i) (in_now i) (in_ctx2d i)) as H.
  destruct (detectObjects_start st (in_video i) (in_now i) (in_ctx2d i)) as [[| | c e] st1];
    cbn [fst snd] in *; try (intros _; exact H).
  destruct (in_detected i) as [raw |]; [| intros _; exact H].
  destruct (detectObjects_resume_some st1 c e raw (in_smoothNow i) (in_currentTime i))
    as (res & st2 & -> & _). discriminate.
Qed.

(** X11.  A pass that returns null, whether rejected, not decodable or because
    the detector threw, leaves the log, the metrics and both histories as
    they were. *)
Theorem null_pass_keeps_state (st : Hook) (i : PassInput) :
  fst (detectObjects st i) = None ->
  let st' := snd (detectObjects st i) in
  detections st' = detections st /\ focusMetrics st' = focusMetrics st
  /\ detectionHistoryRef st' = detectionHistoryRef st
  /\ mobileDetectionHistory st' = mobileDetectionHistory st.
Proof.
  unfold detectObjects.
  pose proof (detectObjects_start_keeps st (in_video i) (in_now i) (in_ctx2d i)) as H.
  cbv zeta in H.
  destruct (detectObjects_start st (in_video i) (in_now i) (in_ctx2d i)) as [[| | c e] st1];
    cbn [fst snd] in *; try (intros _; tauto).
  destruct (in_detected i) as [raw |].
  - destruct (detectObjects_resume_some st1 c e raw (in_smoothNow i) (in_currentTime i))
      as (res & st2 & -> & _). discriminate.
  - intros _. cbn. tauto.
Qed.

Lemma null_pass_keeps_state_witness :
  detections (snd (detectObjects (snd (detectObjects loadedHook personPass))
                                 (mkPassInput (Some readyVideo) 2000 true None 2005 2010)))
  = detections (snd (detectObjects loadedHook personPass)).
Proof.
  apply (null_pass_keeps_state (snd (detectObjects loadedHook personPass))
           (mkPassInput (Some readyVideo) 2000 true None 2005 2010)).
  vm_compute. reflexivity.
Defined.

(** X12.  An invocation that has run to its end leaves the in-flight flag as it
    found it: after every accepted pass, with a result or without, the
    flag is cleared again. *)
Theorem detectObjects_clears_flag (st : Hook) (i : PassInput) :
  isDetecting (snd (detectObjects st i)) = isDetecting st.
Proof.
  unfold detectObjects, detectObjects_start.
  destruct (in_video i) as [v |]; [| reflexivity].
  destruct (isDetecting st) eqn:Ed.
  - rewrite orb_true_r. exact Ed.
  - rewrite orb_false_r.
    destruct (negb (modelRef st) || (readyState v <? 2)%Z); [exact Ed |].
    destruct (in_now i - lastDetectionTimeRef st <? 100)%Z; [exact Ed |].
    assert (Hres : forall s c e,
              isDetecting (snd (detectObjects_resume s c e (in_detected i)
                                  (in_smoothNow i) (in_currentTime i))) = false).
    { intros s c e. unfold detectObjects_resume.
      destruct (in_detected i) as [raw |]; [| reflexivity].
      destruct (applyTemporalSmoothing s _ _) as [s1 sm]. destruct c; reflexivity. }
    destruct (preprocessVideo (in_ctx2d i) v); cbn [snd];
      try destruct ((videoWidth v =? 0)%Z || (videoHeight v =? 0)%Z);
      try reflexivity; apply Hres.
Qed.

(** A video without width or without height gets a canvas with a side of
    0: its aspect ratio is 0, an infinity or NaN. *)
Lemma canvasSize_empty (v : VideoElement) :
  videoWidth v = 0%Z \/ videoHeight v = 0%Z ->
  canvas_width (canvasSize v) = 0%Z \/ canvas_height (canvasSize v) = 0%Z.
Proof.
  intros H. unfold canvasSize.
  set (aspectRatio := Double.div (Double.ofZ (videoWidth v)) (Double.ofZ (videoHeight v))).
  assert (Hs : Double.is_zero aspectRatio || negb (Double.finite aspectRatio) = true).
  { unfold aspectRatio. destruct H as [-> | ->].
    - apply DoubleFacts.div_of_zero_special.
    - apply DoubleFacts.div_by_zero_special. }
  destruct (Double.ltb Double.one aspectRatio) eqn:E; cbn [canvas_width canvas_height].
  - right. rewrite (DoubleFacts.ltb_one_special _ Hs E).
    apply DoubleFacts.toUint32_special, DoubleFacts.div_by_infinity_special.
  - destruct H as [Hw | Hh].
    + left. apply DoubleFacts.toUint32_special, DoubleFacts.mul_by_special, Hs.
    + right. rewrite Hh. reflexivity.
Qed.

(** X13.  A video without picture (a width or height of 0) never reaches the
    detector: the invocation ends with null before the detector call. *)
Theorem empty_frame_skips_detector (st : Hook) (v : VideoElement) (now : Z) (ctx2d : bool) :
  videoWidth v = 0%Z \/ videoHeight v = 0%Z ->
  fst (detectObjects_start st (Some v) now ctx2d) = Rejected
  \/ fst (detectObjects_start st (Some v) now ctx2d) = Completed.
Proof.
  intros Hz. unfold detectObjects_start.
  destruct (negb (modelRef st) || (readyState v <? 2)%Z || isDetecting st); [left; reflexivity |].
  destruct (now - lastDetectionTimeRef st <? 100)%Z; [left; reflexivity |].
  right.
  assert (Hdec : (videoWidth v =? 0)%Z || (videoHeight v =? 0)%Z = true).
  { destruct Hz as [-> | ->]; [reflexivity | apply orb_true_r]. }
  unfold preprocessVideo.
  destruct (readyState v <? 2)%Z; [rewrite Hdec; reflexivity |].
  destruct (negb ctx2d); [rewrite Hdec; reflexivity |].
  assert (Hc : (canvas_width (canvasSize v) =? 0)%Z
               || (canvas_height (canvasSize v) =? 0)%Z = true).
  { destruct (canvasSize_empty v Hz) as [-> | ->]; [reflexivity | apply orb_true_r]. }
  rewrite Hc. reflexivity.
Qed.

Lemma empty_frame_skips_detector_witness :
  fst (detectObjects_start loadedHook (Some audioOnly) 1000 true) = Rejected
  \/ fst (detectObjects_start loadedHook (Some audioOnly) 1000 true) = Completed.
Proof.
  apply empty_frame_skips_detector. left. reflexivity.
Defined.

(** ** Reset *)

Lemma detectObjects_resume_history (st : Hook) (processedCanvas : option Canvas)
    (inputElement : InputElement) (raw : list Prediction) (smoothNow currentTime : Z) :
  detectionHistoryRef
    (snd (detectObjects_resume st processedCanvas inputElement (Some raw)
            smoothNow currentTime))
  = detectionHistoryRef
      (fst (applyTemporalSmoothing st smoothNow
              (applyNMS (List.filter filterPrediction raw) (3 # 10)))).
Proof.
  unfold detectObjects_resume.
  destruct (applyTemporalSmoothing st smoothNow _) as [st1 smoothed].
  destruct processedCanvas; reflexivity.
Qed.

(** X14.  [clearDetections] does not change whether an invocation is accepted
    (the throttle time and the in-flight flag survive it); and the pass
    that next receives the detector's answer, even one that was in flight
    during the reset, fuses nothing: it returns the suppressor's output
    as it is, and the log then holds that pass's events alone. *)
Theorem pass_after_clearDetections (st : Hook) (video : option VideoElement)
    (now : Z) (ctx2d : bool) (processedCanvas : option Canvas)
    (inputElement : InputElement) (raw : list Prediction) (smoothNow currentTime : Z) :
  fst (detectObjects_start (clearDetections st) video now ctx2d)
  = fst (detectObjects_start st video now ctx2d)
  /\ exists res st',
       detectObjects_resume (clearDetections st) processedCanvas inputElement
                            (Some raw) smoothNow currentTime
       = (Some res, st')
       /\ r_predictions res = applyNMS (List.filter filterPrediction raw) (3 # 10)
       /\ detections st' = slice_last 50 (newDetections res)
       /\ detectionHistoryRef st' = [mkHistoryEntry smoothNow (r_predictions res)].
Proof.
  split.
  - unfold detectObjects_start. destruct video as [v |]; [| reflexivity].
    cbn [clearDetections modelRef isDetecting lastDetectionTimeRef].
    destruct (negb (modelRef st) || (readyState v <? 2)%Z || isDetecting st); [reflexivity |].
    destruct (now - lastDetectionTimeRef st <? 100)%Z; [reflexivity |].
    destruct (preprocessVideo ctx2d v); cbn;
      try destruct ((videoWidth v =? 0)%Z || (videoHeight v =? 0)%Z); reflexivity.
  - pose proof (detectObjects_resume_history (clearDetections st) processedCanvas
                  inputElement raw smoothNow currentTime) as Hh.
    destruct (detectObjects_resume_some (clearDetections st) processedCanvas inputElement
                raw smoothNow currentTime) as (res & st' & E & Hs & Hn & _ & Hl).
    pose proof (applyTemporalSmoothing_history (clearDetections st) smoothNow
                  (applyNMS (List.filter filterPrediction raw) (3 # 10))) as Hhist.
    cbn [clearDetections detectionHistoryRef List.filter app] in Hhist.
    assert (Hpass : snd (applyTemporalSmoothing (clearDetections st) smoothNow
                           (applyNMS (List.filter filterPrediction raw) (3 # 10)))
                    = applyNMS (List.filter filterPrediction raw) (3 # 10))
      by (apply short_history_passes; rewrite Hhist; cbn; lia).
    rewrite E in Hh. cbn [snd] in Hh.
    exists res, st'. split; [exact E |].
    split; [rewrite Hs; exact Hpass |].
    split.
    + rewrite Hl, Hn. cbn [clearDetections detections].
      unfold pushDetections. cbn [app].
      destruct (makeDetections currentTime _); reflexivity.
    + rewrite Hh, Hhist, Hs, Hpass. reflexivity.
Qed.

(** ** Frame preprocessor: the canvas *)

Section CanvasSides.
Local Open Scope Z_scope.

Lemma toUint32_small (d : Double.double) (n : Z) :
  0 <= Double.truncate d <= n -> n < 2 ^ 32 -> Double.toUint32 d = Double.truncate d.
Proof. intros H Hn. unfold Double.toUint32. apply Z.mod_small. lia. Qed.

(** The sides of the canvas for a video of at least one pixel: the side
    along the longer side of the video is the smaller of 640 and that side,
    and the other side is not longer. *)
Lemma canvasSize_sides (v : VideoElement) :
  1 <= videoWidth v <= 2 ^ 25 -> 1 <= videoHeight v <= 2 ^ 25 ->
  (videoHeight v < videoWidth v ->
   canvas_width (canvasSize v) = Z.min 640 (videoWidth v)
   /\ 0 <= canvas_height (canvasSize v) <= canvas_width (canvasSize v))
  /\ (videoWidth v <= videoHeight v ->
      canvas_height (canvasSize v) = Z.min 640 (videoHeight v)
      /\ 0 <= canvas_width (canvasSize v) <= canvas_height (canvasSize v)).
Proof.
  intros HW HH.
  assert (H25 : 2 ^ 25 < 2 ^ 51) by reflexivity.
  assert (H51 : 2 ^ 51 < 2 ^ 53) by reflexivity.
  unfold canvasSize. cbv zeta.
  set (W := videoWidth v) in *. set (H := videoHeight v) in *.
  set (ratio := Double.div (Double.ofZ W) (Double.ofZ H)).
  pose proof (DoubleFacts.ofZ_positive_normal W ltac:(lia)) as PW.
  pose proof (DoubleFacts.ofZ_positive_normal H ltac:(lia)) as PH.
  pose proof (DoubleFacts.div_shape (-52) 0 _ _ PW PH ltac:(lia)) as Pr. fold ratio in Pr. cbn in Pr.
  split; intros Hcmp.
  - assert (Hgt : Double.ltb Double.one ratio = true) by (apply DoubleFacts.div_ofZ_gt_one; lia).
    rewrite Hgt. cbn [canvas_width canvas_height].
    set (width := Z.min 640 W).
    assert (Hwidth : 1 <= width <= 640) by (unfold width; lia).
    pose proof (DoubleFacts.ofZ_positive_normal width ltac:(lia)) as Pw.
    pose proof (DoubleFacts.positive_normal_weaken _ _ (-105) 1 _ Pw ltac:(lia) ltac:(lia)) as Pw'.
    pose proof (DoubleFacts.div_by_more_than_one (-105) 1 _ _ Pw' Pr ltac:(lia) Hgt) as L.
    pose proof (DoubleFacts.div_shape (-105) 1 _ _ Pw' Pr ltac:(lia)) as PD. cbn in PD.
    pose proof (DoubleFacts.positive_normal_weaken _ _ (-159) 55 _ Pw ltac:(lia) ltac:(lia)) as Pw''.
    pose proof (DoubleFacts.truncate_mono (-159) 55 _ _ (or_intror PD) (or_intror Pw'')
                  ltac:(lia) L) as T.
    rewrite DoubleFacts.truncate_ofZ in T by lia.
    rewrite (toUint32_small _ width) by (assumption || lia).
    split; [reflexivity | exact T].
  - destruct (DoubleFacts.div_ofZ_le_one W H ltac:(lia) Hcmp ltac:(lia))
      as (m & e & Er & Hle).
    fold ratio in Er.
    assert (Hone : Double.leb ratio Double.one = true) by (rewrite Er; exact Hle).
    rewrite (DoubleFacts.leb_ltb_false _ _ Hone). cbn [canvas_width canvas_height].
    set (height := Z.min 640 H).
    assert (Hheight : 1 <= height <= 640) by (unfold height; lia).
    pose proof (DoubleFacts.ofZ_positive_normal height ltac:(lia)) as Ph.
    pose proof (DoubleFacts.positive_normal_weaken _ _ (-105) 1 _ Ph ltac:(lia) ltac:(lia)) as Ph'.
    assert (P1 : Double.positive_normal (-105) 1 Double.one).
    { exists 4503599627370496%positive, (-52). split; [reflexivity |].
      split; [split; [discriminate | reflexivity] | lia]. }
    assert (Lh : Double.leb (Double.ofZ height) (Double.ofZ height) = true)
      by (rewrite DoubleFacts.leb_ofZ by lia; apply Z.leb_refl).
    pose proof (DoubleFacts.mul_mono (-105) 1 _ _ _ _ Ph' Ph' Pr P1
                  ltac:(lia) ltac:(lia) ltac:(lia) Lh Hone) as L.
    change Double.one with (Double.ofZ 1) in L.
    rewrite DoubleFacts.mul_ofZ, Z.mul_1_r in L by lia.
    pose proof (DoubleFacts.mul_shape (-105) 1 _ _ Ph' Pr ltac:(lia) ltac:(lia) ltac:(lia)) as PD.
    cbn in PD.
    pose proof (DoubleFacts.positive_normal_weaken _ _ (-158) 56 _ Ph ltac:(lia) ltac:(lia)) as Ph''.
    pose proof (DoubleFacts.truncate_mono (-158) 56 _ _ (or_intror PD) (or_intror Ph'')
                  ltac:(lia) L) as T.
    rewrite DoubleFacts.truncate_ofZ in T by lia.
    rewrite (toUint32_small _ height) by (assumption || lia).
    split; [reflexivity | exact T].
Qed.

End CanvasSides.

(** X15.  For a video of 1 to 2^25 pixels on either side, a canvas that
    [preprocessVideo] returns has both sides between 1 and 640, and its
    longer side is the smaller of 640 and the video's longer side.  (The
    other side is the integer part of a rounded quotient or product: a
    video of 280 by 240 gets a canvas of 280 by 239, and one of 1 by 49
    gets no canvas, its width being 0.) *)
Theorem preprocessVideo_canvas_bounds (ctx2d : bool) (v : VideoElement) (c : Canvas) :
  (1 <= videoWidth v <= 2 ^ 25)%Z -> (1 <= videoHeight v <= 2 ^ 25)%Z ->
  preprocessVideo ctx2d v = Processed c ->
  (1 <= canvas_width c <= 640)%Z /\ (1 <= canvas_height c <= 640)%Z
  /\ Z.max (canvas_width c) (canvas_height c)
     = Z.min 640 (Z.max (videoWidth v) (videoHeight v)).
Proof.
  intros HW HH. unfold preprocessVideo.
  destruct (readyState v <? 2)%Z; [discriminate |].
  destruct (negb ctx2d); [discriminate |].
  destruct ((canvas_width (canvasSize v) =? 0)%Z || (canvas_height (canvasSize v) =? 0)%Z)
    eqn:Ez; [discriminate |].
  intros E. injection E as <-.
  apply orb_false_iff in Ez as [Ecw Ech]. apply Z.eqb_neq in Ecw, Ech.
  destruct (canvasSize_sides v HW HH) as [Hland Hport].
  destruct (Z.lt_ge_cases (videoHeight v) (videoWidth v)) as [Hc | Hc].
  - destruct (Hland Hc) as [Ew Hh]. lia.
  - destruct (Hport Hc) as [Eh Hw]. lia.
Qed.

Lemma preprocessVideo_canvas_bounds_witness :
  preprocessVideo true smallVideo = Processed (mkCanvas 280 239)
  /\ Z.max 280 239 = Z.min 640 (Z.max 280 240)
  /\ preprocessVideo true tallVideo = PixelError.
Proof.
  split; [vm_compute; reflexivity |].
  split; [| vm_compute; reflexivity].
  apply (preprocessVideo_canvas_bounds true smallVideo (mkCanvas 280 239));
    [vm_compute; split; discriminate | vm_compute; split; discriminate | vm_compute; reflexivity].
Defined.

(** ** Attention scorer: what a further detection does *)

Lemma foldl_sum_shift (g : Prediction -> Q) (l : list Prediction) :
  forall a,
    foldl (fun sum pred => sum + g pred) a l
    == a + foldl (fun sum pred => sum + g pred) 0 l.
Proof.
  induction l as [| x l IH]; intros a.
  - change (foldl (fun sum pred => sum + g pred) a []) with a.
    change (foldl (fun sum pred => sum + g pred) 0 []) with 0. ring.
  - change (foldl (fun sum pred => sum + g pred) a (x :: l))
      with (foldl (fun sum pred => sum + g pred) (a + g x) l).
    change (foldl (fun sum pred => sum + g pred) 0 (x :: l))
      with (foldl (fun sum pred => sum + g pred) (0 + g x) l).
    rewrite (IH (a + g x)), (IH (0 + g x)). ring.
Qed.

Lemma filter_sum_grows (cat : Prediction -> bool) (g : Prediction -> Q)
    (d : Prediction) (l : list Prediction) :
  0 <= g d ->
  foldl (fun sum pred => sum + g pred) 0 (List.filter cat l)
  <= foldl (fun sum pred => sum + g pred) 0 (List.filter cat (d :: l)).
Proof.
  intros Hd. cbn [List.filter]. destruct (cat d); [| lra].
  change (foldl (fun sum pred => sum + g pred) 0 (d :: List.filter cat l))
    with (foldl (fun sum pred => sum + g pred) (0 + g d) (List.filter cat l)).
  rewrite (foldl_sum_shift g (List.filter cat l) (0 + g d)). lra.
Qed.

(** X16.  One more detected object that is not a person, with a confidence that
    is not negative, never raises the focus score, before or after
    rounding. *)
Theorem focusScore_not_raised_by_object (d : Prediction) (smoothed : list Prediction) :
  class d <> "person"%string -> 0 <= score d ->
  focusScore_raw (d :: smoothed) <= focusScore_raw smoothed
  /\ (Math_round (focusScore_raw (d :: smoothed))
      <= Math_round (focusScore_raw smoothed))%Z.
Proof.
  intros Hc Hs.
  assert (H : focusScore_raw (d :: smoothed) <= focusScore_raw smoothed).
  { unfold focusScore_raw.
    assert (E : personDetections (d :: smoothed) = personDetections smoothed).
    { unfold personDetections. cbn [List.filter].
      apply String.eqb_neq in Hc. rewrite Hc. reflexivity. }
    rewrite E.
    pose proof (filter_sum_grows (fun p => String.eqb (class p) "cell phone")
                  (fun device => 35 * Qmin (15 # 10) (score device * (15 # 10)))
                  d smoothed) as HA.
    pose proof (filter_sum_grows
                  (hasClass ["laptop"; "tablet"; "keyboard"; "mouse"; "monitor"]%string)
                  (fun device => score device * 15) d smoothed) as HB.
    pose proof (filter_sum_grows
                  (hasClass ["bottle"; "cup"; "book"; "remote"; "tv"]%string)
                  (fun obj => score obj * 8) d smoothed) as HC.
    cbv beta in HA, HB, HC.
    assert (HA' := HA ltac:(destruct (Q.min_spec (15 # 10) (score d * (15 # 10)))
                              as [[_ ->] | [_ ->]]; lra)).
    assert (HB' := HB ltac:(lra)). assert (HC' := HC ltac:(lra)).
    clear HA HB HC.
    unfold mobileDevices, computerDevices, distractingObjects.
    revert HA' HB' HC'.
    generalize (foldl (fun penalty device =>
                  penalty + 35 * Qmin (15 # 10) (score device * (15 # 10))) 0
                  (List.filter (fun p => String.eqb (class p) "cell phone") (d :: smoothed))).
    generalize (foldl (fun penalty device =>
                  penalty + 35 * Qmin (15 # 10) (score device * (15 # 10))) 0
                  (List.filter (fun p => String.eqb (class p) "cell phone") smoothed)).
    generalize (foldl (fun penalty device => penalty + score device * 15) 0
                  (List.filter (hasClass ["laptop"; "tablet"; "keyboard"; "mouse"; "monitor"]%string)
                     (d :: smoothed))).
    generalize (foldl (fun penalty device => penalty + score device * 15) 0
                  (List.filter (hasClass ["laptop"; "tablet"; "keyboard"; "mouse"; "monitor"]%string)
                     smoothed)).
    generalize (foldl (fun penalty obj => penalty + score obj * 8) 0
                  (List.filter (hasClass ["bottle"; "cup"; "book"; "remote"; "tv"]%string)
                     (d :: smoothed))).
    generalize (foldl (fun penalty obj => penalty + score obj * 8) 0
                  (List.filter (hasClass ["bottle"; "cup"; "book"; "remote"; "tv"]%string)
                     smoothed)).
    intros C C' B B' A A' HA HB HC.
    destruct (personDetections smoothed) as [| p [| p2 rest]];
      try destruct (Qltb (7 # 10) (score p));
      name_min_max; split_cases; lra. }
  split; [exact H |].
  unfold Math_round. apply Qfloor_resp_le. lra.
Qed.

Lemma focusScore_not_raised_by_object_witness :
  focusScore_raw (deskLaptop :: [centredPerson]) <= focusScore_raw [centredPerson].
Proof.
  apply (focusScore_not_raised_by_object deskLaptop [centredPerson]);
    [discriminate | discriminate].
Defined.

Lemma Math_round_shift (x : Q) (n : Z) :
  Math_round (x - inject_Z n) = (Math_round x - n)%Z.
Proof.
  unfold Math_round.
  set (y := x + (1 # 2)).
  assert (E : x - inject_Z n + (1 # 2) == y - inject_Z n) by (unfold y; ring).
  rewrite (Qfloor_comp _ _ E).
  pose proof (Qfloor_le y) as Hlo. pose proof (Qlt_floor y) as Hhi.
  pose proof (Qfloor_le (y - inject_Z n)) as Hlo'.
  pose proof (Qlt_floor (y - inject_Z n)) as Hhi'.
  rewrite inject_Z_plus in Hhi, Hhi'.
  assert (H1 : (Qfloor (y - inject_Z n) < Qfloor y - n + 1)%Z).
  { rewrite Zlt_Qlt, inject_Z_plus. unfold Zminus. rewrite inject_Z_plus, inject_Z_opp. lra. }
  assert (H2 : (Qfloor y - n < Qfloor (y - inject_Z n) + 1)%Z).
  { rewrite Zlt_Qlt, inject_Z_plus. unfold Zminus. rewrite inject_Z_plus, inject_Z_opp. lra. }
  lia.
Qed.

(** X17.  On a frame of positive width and height, with one person in the
    frame and every box inside it: the first device lowers the published
    eye-contact score by exactly 20 and the published head-pose score by
    exactly 15, whatever the device's confidence and place; further
    devices change neither score. *)
Theorem device_penalties_are_flat (d : Prediction) (smoothed : list Prediction)
    (inputWidth inputHeight : Q) :
  0 < inputWidth -> 0 < inputHeight ->
  Forall (wellFormed inputWidth inputHeight) smoothed ->
  class d = "cell phone"%string ->
  length (personDetections smoothed) = 1%nat ->
  let before := newFocusMetrics smoothed inputWidth inputHeight in
  let after := newFocusMetrics (d :: smoothed) inputWidth inputHeight in
  (mobileDevices smoothed = [] ->
   eyeContactScore after = (eyeContactScore before - 20)%Z
   /\ headPoseScore after = (headPoseScore before - 15)%Z)
  /\ (mobileDevices smoothed <> [] ->
      eyeContactScore after = eyeContactScore before
      /\ headPoseScore after = headPoseScore before).
Proof.
  intros _ _ _ Hc Hone. cbv zeta.
  assert (Ep : personDetections (d :: smoothed) = personDetections smoothed).
  { unfold personDetections. cbn [List.filter]. rewrite Hc. reflexivity. }
  assert (Em : mobileDevices (d :: smoothed) = d :: mobileDevices smoothed).
  { unfold mobileDevices. cbn [List.filter]. rewrite Hc. reflexivity. }
  unfold newFocusMetrics. cbn [eyeContactScore headPoseScore].
  unfold eyeContactScore_raw, headPoseScore_raw. rewrite Ep, Em.
  destruct (personDetections smoothed) as [| p [| p2 rest]]; try discriminate.
  split.
  - intros ->. cbn [length Nat.ltb Nat.leb].
    change 20 with (inject_Z 20). change 15 with (inject_Z 15).
    rewrite !Math_round_shift. split; reflexivity.
  - intros Hne. destruct (mobileDevices smoothed) as [| m ms]; [contradiction |].
    split; reflexivity.
Qed.

Lemma device_penalties_are_flat_witness :
  eyeContactScore (newFocusMetrics (steadyPhone :: [centredPerson]) 640 480)
  = (eyeContactScore (newFocusMetrics [centredPerson] 640 480) - 20)%Z
  /\ headPoseScore (newFocusMetrics (steadyPhone :: [centredPerson]) 640 480)
     = (headPoseScore (newFocusMetrics [centredPerson] 640 480) - 15)%Z.
Proof.
  apply (device_penalties_are_flat steadyPhone [centredPerson] 640 480);
    try reflexivity.
  constructor; [| constructor].
  unfold wellFormed, inFrame, centredPerson. cbn [score bbox bx by_ bw bh].
  repeat apply conj; apply Qle_bool_iff; reflexivity.
Defined.

(** ** The log and its statistics *)

Lemma makeDetections_types (currentTime : Z) (l : list Prediction) :
  Forall (fun d => hookType (type d)) (makeDetections currentTime l).
Proof.
  apply Forall_lookup. intros i d Hd.
  assert (Hlt : (i < length l)%nat)
    by (rewrite <- (makeDetections_length currentTime); eapply lookup_lt_Some, Hd).
  destruct (lookup_lt_is_Some_2 l i Hlt) as [p Hp].
  destruct (makeDetections_lookup_from currentTime l 0 i p Hp)
    as (d' & Hd' & _ & _ & _ & _ & _ & Hty).
  unfold makeDetections in Hd. cbn [Nat.add] in Hd'.
  assert (d' = d) by congruence. subst d'.
  destruct (getDetectionType_some (class p)) as (t & Ht & Hhook). congruence.
Qed.

Lemma detectObjects_log_types (st : Hook) (i : PassInput) :
  Forall (fun d => hookType (type d)) (detections st) ->
  Forall (fun d => hookType (type d)) (detections (snd (detectObjects st i))).
Proof.
  intros Hold.
  pose proof (detectObjects_publishes st i) as Hp.
  destruct (fst (detectObjects st i)) as [res |] eqn:Er.
  - destruct Hp as (c & e & st1 & raw & Hstart & _ & _ & Hres).
    destruct (detectObjects_resume_some st1 c e raw (in_smoothNow i) (in_currentTime i))
      as (res' & st2 & E & _ & _ & _ & Hlog).
    rewrite <- Hres, E. cbn [snd]. rewrite Hlog.
    pose proof (detectObjects_start_keeps st (in_video i) (in_now i) (in_ctx2d i)) as Hk.
    cbv zeta in Hk. rewrite Hstart in Hk. cbn [snd] in Hk. destruct Hk as [Hd _].
    rewrite Hd.
    destruct (0 <? length _)%nat; [| exact Hold].
    unfold pushDetections, slice_last. apply Forall_drop, Forall_app.
    split; [exact Hold | apply makeDetections_types].
  - rewrite (null_pass_keeps_log st i Er). exact Hold.
Qed.

Lemma runPasses_log_types (inputs : list PassInput) :
  forall st,
    Forall (fun d => hookType (type d)) (detections st) ->
    Forall (fun d => hookType (type d)) (detections (snd (runPasses st inputs))).
Proof.
  induction inputs as [| i inputs IH]; intros st Hold; [exact Hold |].
  cbn [runPasses].
  pose proof (detectObjects_log_types st i Hold) as H1.
  destruct (detectObjects st i) as [r st1]. cbn [snd] in H1.
  specialize (IH st1 H1).
  destruct (runPasses st1 inputs) as [rs st2]. exact IH.
Qed.

Lemma filter_length_le {A : Type} (f g : A -> bool) (l : list A) :
  (forall x, f x = true -> g x = true) ->
  (length (List.filter f l) <= length (List.filter g l))%nat.
Proof.
  intros H. induction l as [| x l IH]; cbn [List.filter]; [lia |].
  destruct (f x) eqn:Ef.
  - rewrite (H x Ef). cbn [length]. lia.
  - destruct (g x); cbn [length]; lia.
Qed.

(** X20.  For a log that the hook produced, from any sequence of passes: every
    event is counted either as a mobile detection or as a person
    detection, so the two counts add up to the total (events of type
    [unknown_object], such as laptops or books, count as mobile
    detections); the focus violations are among the mobile detections;
    and the total is at most 50. *)
Theorem stats_of_hook_log (st : Hook) (inputs : list PassInput)
    (sessionStartTime now : Z) (metrics : option FocusMetrics) :
  (length (detections st) <= 50)%nat ->
  Forall (fun d => hookType (type d)) (detections st) ->
  let s := Logs.stats (detections (snd (runPasses st inputs)))
                      sessionStartTime now metrics in
  (Logs.mobileDetections s + Logs.personDetections s = Logs.totalDetections s)%nat
  /\ (Logs.focusViolations s <= Logs.mobileDetections s)%nat
  /\ (Logs.totalDetections s <= 50)%nat.
Proof.
  intros Hlen Hty.
  pose proof (runPasses_log_types inputs st Hty) as Htypes.
  pose proof (runPasses_log inputs st Hlen) as Hlog.
  cbv zeta. unfold Logs.stats.
  cbn [Logs.mobileDetections Logs.personDetections Logs.totalDetections Logs.focusViolations].
  split; [| split].
  - revert Htypes. generalize (detections (snd (runPasses st inputs))).
    induction 1 as [| d l Hd Hl IH]; [reflexivity |].
    cbn [List.filter length].
    destruct Hd as [E | [E | E]]; rewrite E; simpl; lia.
  - apply filter_length_le. intros d Hd.
    apply orb_true_iff in Hd as [Hd | Hd]; apply andb_true_iff in Hd as [Hd _];
      rewrite Hd; [reflexivity | apply orb_true_r].
  - rewrite Hlog. apply slice_last_length.
Qed.

Lemma stats_of_hook_log_witness :
  let s := Logs.stats (detections (snd (runPasses loadedHook steadyPasses))) 0 5000 None in
  (Logs.mobileDetections s + Logs.personDetections s = Logs.totalDetections s)%nat
  /\ (Logs.focusViolations s <= Logs.mobileDetections s)%nat
  /\ (Logs.totalDetections s <= 50)%nat.
Proof.
  apply (stats_of_hook_log loadedHook steadyPasses 0 5000 None).
  - cbn. lia.
  - constructor.
Defined.

(** ** Confidence through the pipeline *)

Lemma fuse_confident (prediction : Prediction) (similar : list Prediction) :
  (0 < length similar)%nat -> Forall confident similar ->
  confident (fuse prediction similar).
Proof.
  intros Hn Hs. unfold confident, fuse. cbn [score].
  assert (Ha : (25 # 100) <= average score similar <= 1)
    by (apply average_bounds; assumption).
  set (boost := if String.eqb (class prediction) "cell phone" then 115 # 100 else 11 # 10).
  assert (Hb : 1 <= boost) by (unfold boost; destruct (String.eqb _ _); lra).
  assert ((25 # 100) <= average score similar * boost) by nra.
  name_min_max. split_cases; lra.
Qed.

(** X18.  The confidences stay within [0.25, 1] from pass to pass: when the
    detector's confidences are at most 1 and the remembered predictions
    lie in [0.25, 1], so do the predictions a pass returns and the ones it
    remembers. *)
Theorem confidence_stays_in_range (st : Hook) (processedCanvas : option Canvas)
    (inputElement : InputElement) (raw : list Prediction) (smoothNow currentTime : Z) :
  Forall (fun p => score p <= 1) raw ->
  Forall (fun entry => Forall confident (predictions entry)) (detectionHistoryRef st) ->
  exists res st',
    detectObjects_resume st processedCanvas inputElement (Some raw) smoothNow currentTime
    = (Some res, st')
    /\ Forall confident (r_predictions res)
    /\ Forall (fun entry => Forall confident (predictions entry)) (detectionHistoryRef st').
Proof.
  intros Hraw Hhist.
  pose proof (detectObjects_resume_history st processedCanvas inputElement raw
                smoothNow currentTime) as Hh.
  destruct (detectObjects_resume_some st processedCanvas inputElement raw
              smoothNow currentTime) as (res & st' & E & Hs & _).
  rewrite E in Hh. cbn [snd] in Hh.
  exists res, st'. split; [exact E |]. rewrite Hs, Hh.
  set (nms := applyNMS (List.filter filterPrediction raw) (3 # 10)).
  assert (Hnms : Forall confident nms).
  { apply applyNMS_Forall. apply List.Forall_forall. intros p Hp.
    apply List.filter_In in Hp as [Hin Hf].
    rewrite List.Forall_forall in Hraw.
    split; [apply filterPrediction_score, Hf | apply Hraw, Hin]. }
  pose proof (applyTemporalSmoothing_history st smoothNow nms) as Hnew.
  assert (Hall : Forall (fun entry => Forall confident (predictions entry))
                   (detectionHistoryRef (fst (applyTemporalSmoothing st smoothNow nms)))).
  { rewrite Hnew. apply Forall_app. split.
    - apply List.Forall_forall. intros entry Hin.
      apply List.filter_In in Hin as [Hin _].
      rewrite List.Forall_forall in Hhist. apply Hhist, Hin.
    - constructor; [exact Hnms | constructor]. }
  split; [| exact Hall].
  revert Hall. unfold applyTemporalSmoothing. cbv zeta.
  match goal with |- context [if (length ?h <? 2)%nat then _ else _] =>
    generalize h end.
  intros h. destruct (length h <? 2)%nat; cbn [fst snd detectionHistoryRef];
    intros Hall; [exact Hnms |].
  apply List.Forall_forall. intros out Hin.
  apply in_map_iff in Hin as (prediction & <- & Hin).
  unfold smoothPrediction.
  destruct (2 <=? length (similarDetections h prediction))%nat eqn:E2.
  - apply Nat.leb_le in E2. apply fuse_confident; [lia |].
    apply List.Forall_forall. intros pred Hp.
    apply similarDetections_spec in Hp as [(entry & He & Hp) _].
    rewrite List.Forall_forall in Hall. specialize (Hall entry He).
    rewrite List.Forall_forall in Hall. apply Hall, Hp.
  - rewrite List.Forall_forall in Hnms. apply Hnms, Hin.
Qed.

Lemma confidence_stays_in_range_witness :
  exists res st',
    detectObjects_resume loadedHook None (InputCanvas (mkCanvas 640 480))
                         (Some [steadyPhone; centredPerson]) 1005 1010
    = (Some res, st')
    /\ Forall confident (r_predictions res)
    /\ Forall (fun entry => Forall confident (predictions entry)) (detectionHistoryRef st').
Proof.
  apply (confidence_stays_in_range loadedHook None (InputCanvas (mkCanvas 640 480))
           [steadyPhone; centredPerson] 1005 1010).
  - repeat constructor; discriminate.
  - constructor.
Defined.

(** ** The counts of a result *)

Lemma filter_by_class_length (f : string -> bool) (l1 l2 : list Prediction) :
  List.map class l1 = List.map class l2 ->
  length (List.filter (fun p => f (class p)) l1)
  = length (List.filter (fun p => f (class p)) l2).
Proof.
  revert l2. induction l1 as [| x l1 IH]; intros [| y l2] E; try discriminate;
    [reflexivity |].
  cbn [List.map] in E. injection E as Ec El.
  cbn [List.filter]. rewrite Ec. destruct (f (class y)); cbn [length];
    rewrite (IH l2 El); reflexivity.
Qed.

(** X19.  The counts of a result are those of the suppressor's output: smoothing
    changes neither the classes nor, therefore, [personCount],
    [mobileCount] and [totalDevices]; every returned prediction has one
    event; and a prediction is counted as a person or as a mobile device,
    not as both. *)
Theorem result_counts (st : Hook) (processedCanvas : option Canvas)
    (inputElement : InputElement) (raw : list Prediction) (smoothNow currentTime : Z) :
  let nms := applyNMS (List.filter filterPrediction raw) (3 # 10) in
  exists res st',
    detectObjects_resume st processedCanvas inputElement (Some raw) smoothNow currentTime
    = (Some res, st')
    /\ List.map class (r_predictions res) = List.map class nms
    /\ personCount res = length (personDetections nms)
    /\ mobileCount res = length (mobileDevices nms)
    /\ totalDevices res = (mobileCount res + length (computerDevices nms))%nat
    /\ length (newDetections res) = length nms
    /\ (personCount res + mobileCount res <= length nms)%nat
    /\ (length nms <= length raw)%nat.
Proof.
  intros nms.
  pose proof (applyTemporalSmoothing_classes st smoothNow nms) as Hcls.
  assert (Hlen : length (snd (applyTemporalSmoothing st smoothNow nms)) = length nms)
    by (rewrite <- (length_map class), Hcls; apply length_map).
  assert (Hres : exists st', detectObjects_resume st processedCanvas inputElement (Some raw)
                   smoothNow currentTime
                 = (Some {| r_predictions := snd (applyTemporalSmoothing st smoothNow nms);
                            newDetections :=
                              makeDetections currentTime
                                (snd (applyTemporalSmoothing st smoothNow nms));
                            mobileCount :=
                              length (mobileDevices (snd (applyTemporalSmoothing st smoothNow nms)));
                            personCount :=
                              length (personDetections (snd (applyTemporalSmoothing st smoothNow nms)));
                            totalDevices :=
                              length (mobileDevices (snd (applyTemporalSmoothing st smoothNow nms)))
                              + length (computerDevices (snd (applyTemporalSmoothing st smoothNow nms))) |},
                    st')).
  { unfold detectObjects_resume. fold nms.
    destruct (applyTemporalSmoothing st smoothNow nms) as [st1 smoothed].
    eexists. reflexivity. }
  destruct Hres as [st' E]. eexists _, st'. split; [exact E |].
  cbn [r_predictions personCount mobileCount totalDevices newDetections].
  set (out := snd (applyTemporalSmoothing st smoothNow nms)) in *.
  assert (Hp : length (personDetections out) = length (personDetections nms))
    by apply (filter_by_class_length (fun c => String.eqb c "person")), Hcls.
  assert (Hm : length (mobileDevices out) = length (mobileDevices nms))
    by apply (filter_by_class_length (fun c => String.eqb c "cell phone")), Hcls.
  assert (Hc : length (computerDevices out) = length (computerDevices nms))
    by apply (filter_by_class_length
                (fun c => existsb (String.eqb c)
                            ["laptop"; "tablet"; "keyboard"; "mouse"; "monitor"]%string)), Hcls.
  split; [exact Hcls |]. split; [exact Hp |]. split; [exact Hm |].
  split; [rewrite Hm, Hc; reflexivity |].
  split; [rewrite makeDetections_length; exact Hlen |].
  split.
  - rewrite Hp, Hm. unfold personDetections, mobileDevices.
    clear. induction nms as [| x l IH]; cbn [List.filter length]; [lia |].
    destruct (String.eqb (class x) "person") eqn:E1.
    + apply String.eqb_eq in E1. rewrite E1.
      change (String.eqb "person" "cell phone") with false. cbn [length]. lia.
    + destruct (String.eqb (class x) "cell phone"); cbn [length]; lia.
  - unfold nms. etransitivity; [apply submseteq_length, applyNMS_submseteq |].
    clear. induction raw as [| x l IH]; cbn [List.filter length]; [lia |].
    destruct (filterPrediction x); cbn [length]; lia.
Qed.

(** ** The report *)

(** X21.  The report always recommends something, and it praises only when it
    has nothing to warn about: the two sentences of praise appear exactly
    when a person is in the frame, no device is, focus and eye contact are
    at least 70 and the log counts at most 5 mobile detections; then they
    are the whole list. *)
Theorem recommendations_praise_or_warn (currentPersonCount currentMobileCount : nat)
    (metrics : FocusMetrics) (stats : Logs.DetectionStats) :
  let r := recommendations currentPersonCount currentMobileCount metrics stats in
  r <> []
  /\ (In ExcellentFocus r <-> r = [ExcellentFocus; ContinueApproach])
  /\ (r = [ExcellentFocus; ContinueApproach] <->
      currentPersonCount <> 0%nat /\ currentMobileCount = 0%nat
      /\ (70 <= focusScore metrics)%Z /\ (70 <= eyeContactScore metrics)%Z
      /\ (Logs.mobileDetections stats <= 5)%nat).
Proof.
  cbv zeta. unfold recommendations.
  destruct (Nat.eqb_spec currentPersonCount 0) as [E1 | E1];
    destruct (Nat.ltb_spec 0 currentMobileCount) as [E2 | E2];
    destruct (Z.ltb_spec (focusScore metrics) 70) as [E3 | E3];
    destruct (Z.ltb_spec (eyeContactScore metrics) 70) as [E4 | E4];
    destruct (Nat.ltb_spec 5 (Logs.mobileDetections stats)) as [E5 | E5];
    cbn [app length Nat.eqb];
    (split; [discriminate |]);
    (split;
     [ split;
       [ intros H; cbn in H; intuition discriminate
       | intros H; try discriminate H; left; reflexivity ]
     | split;
       [ intros H; try discriminate H; repeat split; lia
       | intros H; try reflexivity; exfalso; lia ] ]).
Qed.

Lemma recommendations_praise_or_warn_witness :
  recommendations 1 0 (mkFocusMetrics 85 98 89 90)
                  (Logs.stats [] 0 5000 (Some (mkFocusMetrics 85 98 89 90)))
  = [ExcellentFocus; ContinueApproach].
Proof.
  apply (proj2 (proj2 (recommendations_praise_or_warn 1 0 (mkFocusMetrics 85 98 89 90)
                         (Logs.stats [] 0 5000 (Some (mkFocusMetrics 85 98 89 90)))))).
  cbn. repeat split; lia.
Defined.
